(** * NMR buffer pH estimation: the numerical core

    A shallow embedding of the numerical modules of the application
    ([bufferModel.js], [peakAssignment.js], [fitting.js], [uncertainty.js],
    [validation.js]) together with the properties stated about them.

    JavaScript numbers are modelled as real numbers: [Math.pow(10, x)] is
    [Rpower 10 x], [Math.log] is [ln], [Math.sqrt] is [sqrt] and [Math.abs]
    is [Rabs].  Rounding, overflow and NaN are outside this model; the module
    [Doubles] has [ionisationFractions] once more in double precision.  Plain
    objects that are iterated with [Object.entries] are association lists in
    insertion order; [Map] and [Set] are [gmap] and [gset]. *)

From stdpp Require Import gmap strings list.
From Stdlib Require Import Reals Lra Sorted.
From Stdlib Require PrimFloat.

Open Scope R_scope.

(** ** Numbers and plain objects *)

Definition Rltb (a b : R) : bool := if Rlt_dec a b then true else false.
Definition Rleb (a b : R) : bool := if Rle_dec a b then true else false.
Definition Reqb (a b : R) : bool := if Req_dec_T a b then true else false.

(** A JavaScript object used as an ordered dictionary: [obj[k]] and
    [obj[k] = v].  A new key goes to the end, an existing key keeps its
    place, which is the order [Object.entries] enumerates.  An object has
    each key once; a list that repeats a key is more than the code can
    receive, and the statements below hold for such lists too. *)
Section Objects.
Context {V : Type}.

Fixpoint obj_get (k : string) (o : list (string * V)) : option V :=
  match o with
  | [] => None
  | (k', v) :: o' => if String.eqb k k' then Some v else obj_get k o'
  end.

Fixpoint obj_set (k : string) (v : V) (o : list (string * V)) : list (string * V) :=
  match o with
  | [] => [(k, v)]
  | (k', v') :: o' =>
      if String.eqb k k' then (k', v) :: o' else (k', v') :: obj_set k v o'
  end.

End Objects.

(** A stable sort, as [Array.prototype.sort] is: an element is inserted
    in front of the first element it does not come after, so that of two
    elements that compare equal the earlier one stays first. *)
Section Sorting.
Context {A : Type} (le : A -> A -> bool).

Fixpoint insert_sorted (x : A) (l : list A) : list A :=
  match l with
  | [] => [x]
  | y :: l' => if le x y then x :: l else y :: insert_sorted x l'
  end.

Fixpoint stable_sort (l : list A) : list A :=
  match l with
  | [] => []
  | x :: l' => insert_sorted x (stable_sort l')
  end.

End Sorting.

(** [(a, b) => a - b] *)
Definition numeric_le (a b : R) : bool := Rleb a b.

(** ** bufferModel.js *)
Module BufferModel.

(** Gas constant (J/mol/K); the source calls it [R]. *)
Definition R_gas : R := 8.314462618.
Definition LN10 : R := ln 10.
Definition DAVIES_A : R := 0.5085.

(** A database value: a number or a [[value, uncertainty]] array. *)
Inductive Value :=
| Num (v : R)
| WithUncertainty (v : R) (u : option R).

Definition getValue (x : Value) : R :=
  match x with
  | Num v => v
  | WithUncertainty v _ => v
  end.

Definition getUncertainty (x : Value) : R :=
  match x with
  | Num _ => 0
  | WithUncertainty _ u => default 0 u
  end.

Record PKaParams := {
  pKa : Value;
  dH_kJ_mol : option Value;
  dCp_J_mol_K : option Value;
  protonated_charge : option R;
  ion_size_angstrom : option R;
  ionic_strength_coefficient_per_M : option Value;
  ionic_strength_model : option string
}.

Record LimitingShift := {
  ionisation_state : nat;
  shift_ppm : Value;
  temperature_coefficient_ppm_per_K : option Value;
  ionic_strength_coefficient_ppm_per_M : option Value
}.

Record Resonance := {
  resonance_id : string;
  description : string;
  limiting_shifts : list LimitingShift
}.

Record Sample := {
  reference_temperature_K : option R;
  reference_ionic_strength_M : option R
}.

Record Buffer := {
  buffer_id : string;
  buffer_name : string;
  sample_id : string;
  pKa_parameters : list PKaParams;
  chemical_shifts : list (string * list Resonance)
}.

Definition calculatePKaTemperature (pKaParams : PKaParams)
    (temperature referenceTemperature : R) : R :=
  let pKaRef := getValue (pKa pKaParams) in
  let dH := getValue (default (Num 0) (dH_kJ_mol pKaParams)) * 1000 in
  let dCp := getValue (default (Num 0) (dCp_J_mol_K pKaParams)) in
  let T := temperature in
  let Tref := referenceTemperature in
  let pKa0 := pKaRef in
  let pKa1 :=
    if negb (Reqb dH 0)
    then pKa0 + (dH / (R_gas * LN10)) * (1 / T - 1 / Tref)
    else pKa0 in
  let pKa2 :=
    if negb (Reqb dCp 0)
    then pKa1 + (dCp / (R_gas * LN10)) * (Tref / T - 1 + ln (T / Tref))
    else pKa1 in
  pKa2.

Definition calculatePKaIonicStrengthDavies (pKaParams : PKaParams)
    (ionicStrength : R) : R :=
  if Rleb ionicStrength 0 then 0 else
  let protonatedCharge := default 0 (protonated_charge pKaParams) in
  let deprotonatedCharge := protonatedCharge - 1 in
  let deltaZSquared :=
    1 + deprotonatedCharge * deprotonatedCharge
      - protonatedCharge * protonatedCharge in
  let sqrtI := sqrt ionicStrength in
  let daviesTerm := sqrtI / (1 + sqrtI) - 0.3 * ionicStrength in
  DAVIES_A * deltaZSquared * daviesTerm.

Definition calculatePKaIonicStrengthExtendedDH (pKaParams : PKaParams)
    (ionicStrength : R) : R :=
  if Rleb ionicStrength 0 then 0 else
  let protonatedCharge := default 0 (protonated_charge pKaParams) in
  let deprotonatedCharge := protonatedCharge - 1 in
  let ionSize := default 4.5 (ion_size_angstrom pKaParams) in
  let deltaZSquared :=
    1 + deprotonatedCharge * deprotonatedCharge
      - protonatedCharge * protonatedCharge in
  let sqrtI := sqrt ionicStrength in
  let B := 0.328 in
  let dhTerm := sqrtI / (1 + B * ionSize * sqrtI) in
  DAVIES_A * deltaZSquared * dhTerm.

Definition calculatePKaIonicStrengthEmpirical (pKaParams : PKaParams)
    (ionicStrength : R) : R :=
  let coefficient :=
    getValue (default (Num 0) (ionic_strength_coefficient_per_M pKaParams)) in
  coefficient * ionicStrength.

Definition calculatePKa (pKaParams : PKaParams)
    (temperature ionicStrength referenceTemperature : R) : R :=
  let pKa0 := calculatePKaTemperature pKaParams temperature referenceTemperature in
  let model := default "davies"%string (ionic_strength_model pKaParams) in
  if String.eqb model "davies" then
    pKa0 + calculatePKaIonicStrengthDavies pKaParams ionicStrength
  else if String.eqb model "extended_debye_huckel" then
    pKa0 + calculatePKaIonicStrengthExtendedDH pKaParams ionicStrength
  else if String.eqb model "empirical" then
    pKa0 + calculatePKaIonicStrengthEmpirical pKaParams ionicStrength
  else pKa0.

(** [Math.pow(10, x)] *)
Definition pow10 (x : R) : R := Rpower 10 x.

(** The inner loop [for (j = i; j < pKaValues.length; j++)], started
    from the [1] the array was filled with. *)
Definition relativePopulation (pH : R) (pKaValues : list R) (i : nat) : R :=
  fold_left (fun r pKa_j => r * pow10 (pKa_j - pH)) (drop i pKaValues) 1.

Definition ionisationFractions (pH : R) (pKaValues : list R) : list R :=
  let n := (length pKaValues + 1)%nat in
  if Nat.eqb n 1 then [1] else
  let relatives := map (relativePopulation pH pKaValues) (seq 0 n) in
  let total := fold_left (fun sum r => sum + r) relatives 0 in
  map (fun r => r / total) relatives.

Definition calculateLimitingShift (limitingShift : LimitingShift)
    (temperature ionicStrength referenceTemperature referenceIonicStrength : R) : R :=
  let shift0 := getValue (shift_ppm limitingShift) in
  let tempCoeff :=
    getValue (default (Num 0) (temperature_coefficient_ppm_per_K limitingShift)) in
  let shift1 := shift0 + tempCoeff * (temperature - referenceTemperature) in
  let ionicCoeff :=
    getValue (default (Num 0) (ionic_strength_coefficient_ppm_per_M limitingShift)) in
  let shift2 := shift1 + ionicCoeff * (ionicStrength - referenceIonicStrength) in
  shift2.

Definition predictShift (resonance : Resonance) (pKaValues : list R)
    (pH temperature ionicStrength referenceTemperature referenceIonicStrength : R) : R :=
  let fractions := ionisationFractions pH pKaValues in
  fold_left
    (fun observedShift limitingShift =>
       let stateIndex := ionisation_state limitingShift in
       let fraction := default 0 (fractions !! stateIndex) in
       let shift :=
         calculateLimitingShift limitingShift temperature ionicStrength
           referenceTemperature referenceIonicStrength in
       observedShift + fraction * shift)
    (limiting_shifts resonance) 0.

Definition getBufferPKaValues (buffer : Buffer)
    (temperature ionicStrength referenceTemperature : R) : list R :=
  stable_sort numeric_le
    (map (fun p => calculatePKa p temperature ionicStrength referenceTemperature)
         (pKa_parameters buffer)).

Record ResonancePrediction := {
  rp_resonance_id : string;
  rp_description : string;
  rp_shift : R
}.

Definition predictBufferShifts (buffer : Buffer)
    (pH temperature ionicStrength : R) (sample : option Sample)
    : list (string * list ResonancePrediction) :=
  let refTemp := default 298.15 (sample ≫= reference_temperature_K) in
  let refIonic := default 0 (sample ≫= reference_ionic_strength_M) in
  let pKaValues := getBufferPKaValues buffer temperature ionicStrength refTemp in
  fold_left
    (fun predictions '(nucleus, resonances) =>
       obj_set nucleus
         (map (fun resonance =>
                 {| rp_resonance_id := resonance_id resonance;
                    rp_description := description resonance;
                    rp_shift :=
                      predictShift resonance pKaValues pH temperature
                        ionicStrength refTemp refIonic |})
              resonances)
         predictions)
    (chemical_shifts buffer) [].

(** One curve of [generateShiftCurves]. *)
Record ShiftCurve := {
  sc_buffer_id : string;
  sc_buffer_name : string;
  sc_resonance_id : string;
  sc_description : string;
  sc_nucleus : string;
  pHValues : list R;
  shifts : list R
}.

(** The loop [for (let pH = pHMin; pH <= pHMax; pH += pHStep)], which
    pushes [pH] and [shiftAt pH].  The loop need not end; [fuel] bounds
    the number of tests of its condition and [None] is a loop that has
    not ended within it. *)
Fixpoint sampleCurve (fuel : nat) (shiftAt : R -> R) (pH pHMax pHStep : R)
    : option (list R * list R) :=
  match fuel with
  | O => None
  | S fuel' =>
    if Rleb pH pHMax then
      match sampleCurve fuel' shiftAt (pH + pHStep) pHMax pHStep with
      | Some (pHValues, shifts) => Some (pH :: pHValues, shiftAt pH :: shifts)
      | None => None
      end
    else Some ([], [])
  end.

Definition generateShiftCurves (fuel : nat) (buffer : Buffer) (nucleus : string)
    (temperature ionicStrength : R) (sample : option Sample)
    (pHMin pHMax pHStep : R) : option (list ShiftCurve) :=
  let refTemp := default 298.15 (sample ≫= reference_temperature_K) in
  let refIonic := default 0 (sample ≫= reference_ionic_strength_M) in
  let pKaValues := getBufferPKaValues buffer temperature ionicStrength refTemp in
  let resonances := default [] (obj_get nucleus (chemical_shifts buffer)) in
  mapM (fun resonance =>
          '(pHValues, shifts) ←
            sampleCurve fuel
              (fun pH => predictShift resonance pKaValues pH temperature
                           ionicStrength refTemp refIonic)
              pHMin pHMax pHStep;
          Some {| sc_buffer_id := buffer_id buffer;
                  sc_buffer_name := buffer_name buffer;
                  sc_resonance_id := resonance_id resonance;
                  sc_description := description resonance;
                  sc_nucleus := nucleus;
                  pHValues := pHValues;
                  shifts := shifts |})
       resonances.

End BufferModel.

(** ** bufferModel.js in double precision

    [ionisationFractions] with the numbers as IEEE 754 doubles, operation
    by operation as in the source.  [Math.pow] is the engine's: the
    function takes [x => Math.pow(10, x)] as [pow10]. *)
Module Doubles.
Import PrimFloat.

Section IonisationFractions.
Variable pow10 : float -> float.

(** The inner loop [for (j = i; j < pKaValues.length; j++)], started
    from the [1] the array was filled with. *)
Definition relativePopulation (pH : float) (pKaValues : list float) (i : nat) : float :=
  fold_left (fun r pKa_j => (r * pow10 (pKa_j - pH))%float) (drop i pKaValues) 1%float.

Definition ionisationFractions (pH : float) (pKaValues : list float) : list float :=
  let n := (length pKaValues + 1)%nat in
  if Nat.eqb n 1 then [1%float] else
  let relatives := map (relativePopulation pH pKaValues) (seq 0 n) in
  let total := fold_left (fun sum r => (sum + r)%float) relatives 0%float in
  map (fun r => (r / total)%float) relatives.

End IonisationFractions.

(** [Math.pow(10, x)] at six exponents: the doubles nearest to 1e52,
    1e54, 1e56, 1e58, 1e60 and 1e62. *)
Definition decades : list (float * float) :=
  [ (52, 0x1.aba4714957d3p+172); (54, 0x1.4e1878814c9cep+179);
    (56, 0x1.05031e2503da9p+186); (58, 0x1.97d4df19d6057p+192);
    (60, 0x1.3e9e4e4c2f344p+199); (62, 0x1.f1d75a5709c1bp+205) ]%float.

(** A [pow10] that is right at these exponents, and not a number
    elsewhere. *)
Definition pow10At (x : float) : float :=
  match List.find (fun d => (d.1 =? x)%float) decades with
  | Some d => d.2
  | None => nan
  end.



End Doubles.

(** ** peakAssignment.js

    Where objects of different kinds have a property of the same name
    ([buffer_id], [resonance_id], ...), the fields of the records carry a
    prefix: [p_] for a prediction, [c_] for a candidate, [a_] for an
    assignment, [peak_] for a peak handed to the fitter. *)
Module PeakAssignment.

(** Default tolerance for considering a peak match (ppm). *)
Definition DEFAULT_TOLERANCES : gmap string R :=
  <["1H" := 0.5]> (<["13C" := 2.0]> (<["15N" := 2.0]>
    (<["19F" := 3.0]> (<["31P" := 2.0]> ∅)))).

Inductive Confidence := high | medium | low | none.

(** A distance that may be [Infinity]. *)
Inductive Distance :=
| Finite (d : R)
| Infinity.

(** [d > x] *)
Definition distance_gtb (d : Distance) (x : R) : bool :=
  match d with
  | Finite v => Rltb x v
  | Infinity => true
  end.

Definition calculateConfidence (distance tolerance : R)
    (nextBestDistance : Distance) : Confidence :=
  let absDistance := Rabs distance in
  if Rltb tolerance absDistance then none
  else if Rltb absDistance (tolerance * 0.3)
          && distance_gtb nextBestDistance (tolerance * 0.6) then high
  else if Rltb absDistance (tolerance * 0.6) then medium
  else low.

(** An entry of [allPredictions[nucleus]]. *)
Record Prediction := {
  p_buffer_id : string;
  p_buffer_name : string;
  p_resonance_id : string;
  p_description : string;
  predicted_shift : R
}.

Definition generatePredictions (buffers : list BufferModel.Buffer)
    (samplesMap : gmap string BufferModel.Sample)
    (pH temperature ionicStrength : R) : list (string * list Prediction) :=
  fold_left
    (fun allPredictions buffer =>
       let sample := samplesMap !! BufferModel.sample_id buffer in
       let predictions :=
         BufferModel.predictBufferShifts buffer pH temperature ionicStrength sample in
       fold_left
         (fun allPredictions '(nucleus, resonancePredictions) =>
            let existing := default [] (obj_get nucleus allPredictions) in
            obj_set nucleus
              (existing ++
               map (fun pred =>
                      {| p_buffer_id := BufferModel.buffer_id buffer;
                         p_buffer_name := BufferModel.buffer_name buffer;
                         p_resonance_id := BufferModel.rp_resonance_id pred;
                         p_description := BufferModel.rp_description pred;
                         predicted_shift := BufferModel.rp_shift pred |})
                   resonancePredictions)
              allPredictions)
         predictions allPredictions)
    buffers [].

(** A prediction together with its signed and absolute distance to the
    observed shift. *)
Record WithDistance := {
  wd_prediction : Prediction;
  distance : R;
  absDistance : R
}.

(** The [nearest] record and the entries of [alternatives]. *)
Record Candidate := {
  c_buffer_id : string;
  c_buffer_name : string;
  c_resonance_id : string;
  c_predicted_shift : R;
  c_distance : R
}.

Definition candidate (w : WithDistance) : Candidate :=
  {| c_buffer_id := p_buffer_id (wd_prediction w);
     c_buffer_name := p_buffer_name (wd_prediction w);
     c_resonance_id := p_resonance_id (wd_prediction w);
     c_predicted_shift := predicted_shift (wd_prediction w);
     c_distance := distance w |}.

(** The two message texts: ['No predictions available'] and
    [`No prediction within tolerance (nearest: ${buffer_name}
    ${resonance_id} at ${predicted_shift.toFixed(3)} ppm)`]. *)
Inductive Message :=
| NoPredictionsAvailable
| NoPredictionWithinTolerance (buffer_name resonance_id : string) (predicted : R).

(** An assignment object; a property the object does not have is [None]. *)
Record Assignment := {
  observed_shift : R;
  assigned : bool;
  confidence : Confidence;
  a_buffer_id : option string;
  a_buffer_name : option string;
  a_resonance_id : option string;
  a_description : option string;
  a_predicted_shift : option R;
  residual : option R;
  alternatives : option (list Candidate);
  nearest : option Candidate;
  message : option Message;
  a_nucleus : option string
}.

Definition noPredictions (observedShift : R) : Assignment :=
  {| observed_shift := observedShift; assigned := false; confidence := none;
     a_buffer_id := None; a_buffer_name := None; a_resonance_id := None;
     a_description := None; a_predicted_shift := None; residual := None;
     alternatives := None; nearest := None;
     message := Some NoPredictionsAvailable; a_nucleus := None |}.

Definition byAbsDistance (a b : WithDistance) : bool :=
  Rleb (absDistance a) (absDistance b).

Definition assignSingleShift (observedShift : R) (predictions : list Prediction)
    (tolerance : R) : Assignment :=
  match predictions with
  | [] => noPredictions observedShift
  | _ :: _ =>
    let withDistances :=
      map (fun pred =>
             {| wd_prediction := pred;
                distance := observedShift - predicted_shift pred;
                absDistance := Rabs (observedShift - predicted_shift pred) |})
          predictions in
    match stable_sort byAbsDistance withDistances with
    | [] => noPredictions observedShift (* not reached: the list is not empty *)
    | best :: rest =>
      let nextBest := head rest in
      let nextBestDistance :=
        match nextBest with
        | Some nb => Finite (absDistance nb)
        | None => Infinity
        end in
      let confidence := calculateConfidence (absDistance best) tolerance nextBestDistance in
      match confidence with
      | none =>
        {| observed_shift := observedShift; assigned := false; confidence := none;
           a_buffer_id := None; a_buffer_name := None; a_resonance_id := None;
           a_description := None; a_predicted_shift := None; residual := None;
           alternatives := None;
           nearest := Some (candidate best);
           message :=
             Some (NoPredictionWithinTolerance
                     (p_buffer_name (wd_prediction best))
                     (p_resonance_id (wd_prediction best))
                     (predicted_shift (wd_prediction best)));
           a_nucleus := None |}
      | _ =>
        {| observed_shift := observedShift; assigned := true; confidence := confidence;
           a_buffer_id := Some (p_buffer_id (wd_prediction best));
           a_buffer_name := Some (p_buffer_name (wd_prediction best));
           a_resonance_id := Some (p_resonance_id (wd_prediction best));
           a_description := Some (p_description (wd_prediction best));
           a_predicted_shift := Some (predicted_shift (wd_prediction best));
           residual := Some (distance best);
           alternatives :=
             Some (match confidence, nextBest with
                   | high, _ => []
                   | _, Some nb =>
                       if Rltb (absDistance nb) tolerance then [candidate nb] else []
                   | _, None => []
                   end);
           nearest := None; message := None; a_nucleus := None |}
      end
    end
  end.

(** [`${buffer_id}:${resonance_id}`]; a missing property prints as
    [undefined]. *)
Definition predictionKey (buffer_id resonance_id : string) : string :=
  buffer_id +:+ ":" +:+ resonance_id.

Definition keyOfPrediction (p : Prediction) : string :=
  predictionKey (p_buffer_id p) (p_resonance_id p).

Definition keyOfAssignment (a : Assignment) : string :=
  predictionKey (default "undefined"%string (a_buffer_id a))
                (default "undefined"%string (a_resonance_id a)).

Definition withNucleus (nucleus : string) (a : Assignment) : Assignment :=
  {| observed_shift := observed_shift a; assigned := assigned a;
     confidence := confidence a;
     a_buffer_id := a_buffer_id a; a_buffer_name := a_buffer_name a;
     a_resonance_id := a_resonance_id a; a_description := a_description a;
     a_predicted_shift := a_predicted_shift a; residual := residual a;
     alternatives := alternatives a; nearest := nearest a;
     message := message a; a_nucleus := Some nucleus |}.

(** The predictions the filter lets through. *)
Definition availablePredictions (usedPredictions : gset string)
    (nucleusPredictions : list Prediction) : list Prediction :=
  filter (fun p => keyOfPrediction p ∉ usedPredictions) nucleusPredictions.

(** One turn of the loop over [sortedShifts]: the state is the list
    pushed to [assignments[nucleus]] so far and the set
    [usedPredictions]. *)
Definition assignShift (nucleus : string) (nucleusPredictions : list Prediction)
    (tolerance : R) (st : list Assignment * gset string) (observedShift : R)
    : list Assignment * gset string :=
  let '(pushed, usedPredictions) := st in
  let assignment :=
    assignSingleShift observedShift
      (availablePredictions usedPredictions nucleusPredictions) tolerance in
  let usedPredictions' :=
    if assigned assignment
    then {[ keyOfAssignment assignment ]} ∪ usedPredictions
    else usedPredictions in
  (pushed ++ [withNucleus nucleus assignment], usedPredictions').

(** The members a plain object inherits from [Object.prototype]: a
    property read [object[key]] finds them when the object has no own
    property [key]. *)
Definition objectPrototypeMembers : list string :=
  ["constructor"; "__defineGetter__"; "__defineSetter__"; "hasOwnProperty";
   "__lookupGetter__"; "__lookupSetter__"; "isPrototypeOf";
   "propertyIsEnumerable"; "toString"; "valueOf"; "__proto__";
   "toLocaleString"]%string.

(** What a property read on an object of tolerances yields: a number of
    its own, or an inherited member (a function, or the prototype itself
    for ['__proto__']), neither [null] nor [undefined]. *)
Inductive PropertyValue :=
| NumberValue (t : R)
| InheritedMember (name : string).

(** [object[key]] on a plain object; [None] is [undefined]. *)
Definition readProperty (object : gmap string R) (key : string)
    : option PropertyValue :=
  match object !! key with
  | Some t => Some (NumberValue t)
  | None =>
    if decide (key ∈ objectPrototypeMembers)
    then Some (InheritedMember key)
    else None
  end.

(** [tolerances[nucleus] ?? DEFAULT_TOLERANCES[nucleus] ?? 1.0], both
    objects plain: [??] passes over [undefined] only, so an inherited
    member is the value taken. *)
Definition toleranceRead (tolerances : gmap string R) (nucleus : string)
    : PropertyValue :=
  match readProperty tolerances nucleus with
  | Some v => v
  | None =>
    match readProperty DEFAULT_TOLERANCES nucleus with
    | Some v => v
    | None => NumberValue 1.0
    end
  end.

(** [tolerances[nucleus] ?? DEFAULT_TOLERANCES[nucleus] ?? 1.0] for a
    nucleus that names no inherited member, where the reads find own
    properties only and the value is a number ([toleranceRead] has the
    other labels). *)
Definition toleranceFor (tolerances : gmap string R) (nucleus : string) : R :=
  match tolerances !! nucleus with
  | Some t => t
  | None =>
    match DEFAULT_TOLERANCES !! nucleus with
    | Some t => t
    | None => 1.0
    end
  end.

(** One turn of the loop over [Object.entries(observedShifts)]. *)
Definition assignNucleus (predictions : list (string * list Prediction))
    (tolerances : gmap string R)
    (st : list (string * list Assignment) * gset string)
    (entry : string * list R)
    : list (string * list Assignment) * gset string :=
  let '(assignments, usedPredictions) := st in
  let '(nucleus, shifts) := entry in
  let nucleusPredictions := default [] (obj_get nucleus predictions) in
  let tolerance := toleranceFor tolerances nucleus in
  let sortedShifts := stable_sort numeric_le shifts in
  let '(pushed, usedPredictions') :=
    fold_left (assignShift nucleus nucleusPredictions tolerance)
              sortedShifts ([], usedPredictions) in
  (obj_set nucleus pushed assignments, usedPredictions').

(** The loop of [assignPeaks] over given predictions. *)
Definition assignAll (predictions : list (string * list Prediction))
    (tolerances : gmap string R) (observedShifts : list (string * list R))
    : list (string * list Assignment) * gset string :=
  fold_left (assignNucleus predictions tolerances) observedShifts ([], ∅).

Definition assignPeaks (observedShifts : list (string * list R))
    (buffers : list BufferModel.Buffer)
    (samplesMap : gmap string BufferModel.Sample)
    (pH temperature ionicStrength : R) (tolerances : gmap string R)
    : list (string * list Assignment) :=
  let predictions :=
    generatePredictions buffers samplesMap pH temperature ionicStrength in
  fst (assignAll predictions tolerances observedShifts).

(** An entry of the flat array handed to the fitter. *)
Record Peak := {
  peak_nucleus : string;
  peak_observed_shift : R;
  peak_buffer_id : option string;
  peak_resonance_id : option string;
  peak_predicted_shift : option R
}.

Definition getAssignedPeaksForFitting
    (assignments : list (string * list Assignment)) : list Peak :=
  flat_map
    (fun '(nucleus, nucleusAssignments) =>
       flat_map
         (fun assignment =>
            if assigned assignment
            then [ {| peak_nucleus := nucleus;
                      peak_observed_shift := observed_shift assignment;
                      peak_buffer_id := a_buffer_id assignment;
                      peak_resonance_id := a_resonance_id assignment;
                      peak_predicted_shift := a_predicted_shift assignment |} ]
            else [])
         nucleusAssignments)
    assignments.

(** What [calculateAssignmentQuality] returns.  A sum or a root that has
    met the residual of an entry without one is NaN: [None]. *)
Record AssignmentQuality := {
  totalObserved : nat;
  totalAssigned : nat;
  totalUnassigned : nat;
  highConfidence : nat;
  mediumConfidence : nat;
  lowConfidence : nat;
  q_rmsd : option R;
  q_residuals : list (option R)
}.

Definition calculateAssignmentQuality
    (assignments : list (string * list Assignment)) : AssignmentQuality :=
  let '(totalAssigned, totalUnassigned, highConfidence, mediumConfidence,
        lowConfidence, totalResidualSquared, residuals) :=
    fold_left
      (fun st '(_, nucleusAssignments) =>
         fold_left
           (fun '(totalAssigned, totalUnassigned, highConfidence, mediumConfidence,
                  lowConfidence, totalResidualSquared, residuals) assignment =>
              if assigned assignment then
                let totalResidualSquared :=
                  t ← totalResidualSquared; r ← residual assignment; Some (t + r * r) in
                let residuals := residuals ++ [residual assignment] in
                match confidence assignment with
                | high =>
                  (S totalAssigned, totalUnassigned, S highConfidence, mediumConfidence,
                   lowConfidence, totalResidualSquared, residuals)
                | medium =>
                  (S totalAssigned, totalUnassigned, highConfidence, S mediumConfidence,
                   lowConfidence, totalResidualSquared, residuals)
                | low =>
                  (S totalAssigned, totalUnassigned, highConfidence, mediumConfidence,
                   S lowConfidence, totalResidualSquared, residuals)
                | none =>
                  (S totalAssigned, totalUnassigned, highConfidence, mediumConfidence,
                   lowConfidence, totalResidualSquared, residuals)
                end
              else
                (totalAssigned, S totalUnassigned, highConfidence, mediumConfidence,
                 lowConfidence, totalResidualSquared, residuals))
           nucleusAssignments st)
      assignments (O, O, O, O, O, Some 0, []) in
  let n := length residuals in
  let rmsd :=
    if (0 <? n)%nat
    then t ← totalResidualSquared; Some (sqrt (t / INR n))
    else Some 0 in
  {| totalObserved := totalAssigned + totalUnassigned;
     totalAssigned := totalAssigned;
     totalUnassigned := totalUnassigned;
     highConfidence := highConfidence;
     mediumConfidence := mediumConfidence;
     lowConfidence := lowConfidence;
     q_rmsd := rmsd;
     q_residuals := residuals |}.

End PeakAssignment.

(** ** Exceptions

    A function that can throw returns [Throws A]: the value, or what was
    thrown.  [TypeError] is what the engine raises when a property of
    [undefined] is read; [Error] is [new Error(message)]. *)
Inductive Thrown :=
| TypeError
| Error (message : string).

Inductive Throws (A : Type) :=
| Returns (a : A)
| Throw (e : Thrown).
Arguments Returns {A} a.
Arguments Throw {A} e.

#[global] Instance Throws_ret : MRet Throws := fun A a => Returns a.
#[global] Instance Throws_bind : MBind Throws := fun A B f m =>
  match m with
  | Returns a => f a
  | Throw e => Throw e
  end.

(** A loop whose body can throw. *)
Fixpoint foldM {A B : Type} (f : B -> A -> Throws B) (l : list A) (b : B) : Throws B :=
  match l with
  | [] => Returns b
  | a :: l' => b' ← f b a; foldM f l' b'
  end.

(** ** uncertainty.js *)
Module Uncertainty.

Definition Matrix : Type := list (list R).

(** [v[i]]; every read of the module is in range for the rectangular
    arrays it builds, and the model reads [0] (JavaScript: [undefined])
    elsewhere. *)
Definition vget (v : list R) (i : nat) : R := default 0 (v !! i).

(** [A[i][j]] and [A[i][j] = x] *)
Definition mget (A : Matrix) (i j : nat) : R :=
  default 0 (row ← A !! i; row !! j).
Definition mset (A : Matrix) (i j : nat) (x : R) : Matrix :=
  alter (fun row => <[j := x]> row) i A.

(** [n] rows of [new Array(m).fill(0)] *)
Definition zeros (n m : nat) : Matrix := replicate n (replicate m 0).

Definition calculateJacobian (residualFn : list R -> Throws (list R))
    (params : list R) (step : R) : Throws Matrix :=
  let nParams := length params in
  baseResiduals ← residualFn params;
  let nResiduals := length baseResiduals in
  let jacobian := zeros nResiduals nParams in
  foldM
    (fun jacobian j =>
       let paramsPlus := alter (fun p => p + step) j params in
       residualsPlus ← residualFn paramsPlus;
       let paramsMinus := alter (fun p => p - step) j params in
       residualsMinus ← residualFn paramsMinus;
       mret (fold_left
               (fun jacobian i =>
                  mset jacobian i j
                    ((vget residualsPlus i - vget residualsMinus i) / (2 * step)))
               (seq 0 nResiduals) jacobian))
    (seq 0 nParams) jacobian.

(** [A[0].length] throws when [A] has no row. *)
Definition matrixTransposeProduct (A : Matrix) : Throws Matrix :=
  match A with
  | [] => Throw TypeError
  | row0 :: _ =>
    let nRows := length A in
    let nCols := length row0 in
    mret (map (fun i =>
                 map (fun j =>
                        fold_left (fun sum k => sum + mget A k i * mget A k j)
                                  (seq 0 nRows) 0)
                     (seq 0 nCols))
              (seq 0 nCols))
  end.

(** The Cholesky factor [L] with [A = L * L^T]; a pivot that is not
    positive is replaced by [1e-10]. *)
Definition cholesky (A : Matrix) : Matrix :=
  let n := length A in
  fold_left
    (fun L i =>
       fold_left
         (fun L j =>
            let sum :=
              fold_left (fun sum k => sum - mget L i k * mget L j k)
                        (seq 0 j) (mget A i j) in
            if Nat.eqb i j then
              let sum := if Rleb sum 0 then 1e-10 else sum in
              mset L i j (sqrt sum)
            else
              mset L i j (sum / mget L j j))
         (seq 0 (S i)) L)
    (seq 0 n) (zeros n n).

(** The inverse of the lower-triangular [L]. *)
Definition invertLower (n : nat) (L : Matrix) : Matrix :=
  fold_left
    (fun Linv i =>
       let Linv := mset Linv i i (1 / mget L i i) in
       fold_left
         (fun Linv j =>
            let sum :=
              fold_left (fun sum k => sum - mget L j k * mget Linv k i)
                        (seq i (j - i)) 0 in
            mset Linv j i (sum / mget L j j))
         (seq (S i) (n - S i)) Linv)
    (seq 0 n) (zeros n n).

Definition invertSymmetricMatrix (A : Matrix) : Matrix :=
  let n := length A in
  let L := cholesky A in
  let Linv := invertLower n L in
  map (fun i =>
         map (fun j =>
                fold_left (fun sum k => sum + mget Linv k i * mget Linv k j)
                          (seq (Nat.max i j) (n - Nat.max i j)) 0)
             (seq 0 n))
      (seq 0 n).

(** The body of the [try] block.  [covarianceUnscaled[i]] of a missing
    row throws; a missing entry is [undefined], the variance is then NaN,
    fails [variance > 0] and the entry is [0]. *)
Definition uncertaintiesOrThrow (params : list R)
    (residualFn : list R -> Throws (list R)) (residualVariance step : R)
    : Throws (list R) :=
  jacobian ← calculateJacobian residualFn params step;
  JTJ ← matrixTransposeProduct jacobian;
  let covarianceUnscaled := invertSymmetricMatrix JTJ in
  mapM (fun i =>
          match covarianceUnscaled !! i with
          | None => Throw TypeError
          | Some row =>
            match row !! i with
            | None => mret 0
            | Some c =>
              let variance := c * residualVariance in
              mret (if Rltb 0 variance then sqrt variance else 0)
            end
          end)
       (seq 0 (length params)).

Definition calculateParameterUncertainties (params : list R)
    (residualFn : list R -> Throws (list R)) (residualVariance step : R)
    : list R :=
  match uncertaintiesOrThrow params residualFn residualVariance step with
  | Returns uncertainties => uncertainties
  | Throw _ => map (fun _ => 0) params
  end.

(** [stddevs[i] > 0 && stddevs[j] > 0 ? covariance[i][j] / (stddevs[i] *
    stddevs[j]) : (i === j ? 1 : 0)].  The root of a negative or missing
    diagonal entry is NaN, which fails [> 0] as the [0] of the model does. *)
Definition correlationFromCovariance (covariance : Matrix) : Matrix :=
  let n := length covariance in
  let stddevs := imap (fun i row => sqrt (vget row i)) covariance in
  map (fun i =>
         map (fun j =>
                if Rltb 0 (vget stddevs i) && Rltb 0 (vget stddevs j)
                then mget covariance i j / (vget stddevs i * vget stddevs j)
                else if Nat.eqb i j then 1 else 0)
             (seq 0 n))
      (seq 0 n).

(** What [calculateFullUncertainties] returns; [None] is [null]. *)
Record FullUncertainties := {
  fu_covariance : option Matrix;
  fu_correlation : option Matrix;
  fu_uncertainties : list R
}.

Definition calculateFullUncertainties (params : list R)
    (residualFn : list R -> Throws (list R)) (residualVariance step : R)
    : FullUncertainties :=
  match
    jacobian ← calculateJacobian residualFn params step;
    JTJ ← matrixTransposeProduct jacobian;
    mret (invertSymmetricMatrix JTJ)
  with
  | Returns covarianceUnscaled =>
    let covariance :=
      map (fun row => map (fun val => val * residualVariance) row) covarianceUnscaled in
    let correlation := correlationFromCovariance covariance in
    let uncertainties :=
      imap (fun i row =>
              match row !! i with
              | Some c => if Rltb 0 c then sqrt c else 0
              | None => 0
              end)
           covariance in
    {| fu_covariance := Some covariance;
       fu_correlation := Some correlation;
       fu_uncertainties := uncertainties |}
  | Throw _ =>
    {| fu_covariance := None;
       fu_correlation := None;
       fu_uncertainties := map (fun _ => 0) params |}
  end.

End Uncertainty.

(** ** fitting.js *)
Module Fitting.

(** The merged options [{ ...DEFAULT_OPTIONS, ...options }]. *)
Record Options := {
  refineTemperature : bool;
  refineIonicStrength : bool;
  refineReferences : list (string * bool);
  maxIterations : nat;
  tolerance : R;
  initialPH : option R
}.

Definition DEFAULT_OPTIONS : Options :=
  {| refineTemperature := false;
     refineIonicStrength := false;
     refineReferences := [];
     maxIterations := 100;
     tolerance := 1e-8;
     initialPH := Some 7.0 |}.

(** The caller's options object: [None] is a property the caller left
    out.  [opt_initialPH] can also be present and [undefined]
    ([Some None]), which the [??] chain of [fitParameters] looks at. *)
Record CallerOptions := {
  opt_refineTemperature : option bool;
  opt_refineIonicStrength : option bool;
  opt_refineReferences : option (list (string * bool));
  opt_maxIterations : option nat;
  opt_tolerance : option R;
  opt_initialPH : option (option R)
}.

Definition mergeOptions (options : CallerOptions) : Options :=
  {| refineTemperature :=
       default (refineTemperature DEFAULT_OPTIONS) (opt_refineTemperature options);
     refineIonicStrength :=
       default (refineIonicStrength DEFAULT_OPTIONS) (opt_refineIonicStrength options);
     refineReferences :=
       default (refineReferences DEFAULT_OPTIONS) (opt_refineReferences options);
     maxIterations := default (maxIterations DEFAULT_OPTIONS) (opt_maxIterations options);
     tolerance := default (tolerance DEFAULT_OPTIONS) (opt_tolerance options);
     initialPH := default (initialPH DEFAULT_OPTIONS) (opt_initialPH options) |}.

(** The conditions the caller passes in. *)
Record InitialConditions := {
  ic_pH : option R;
  ic_temperature : R;
  ic_ionicStrength : R;
  ic_referenceOffsets : option (list (string * R))
}.

Record Conditions := {
  pH : R;
  temperature : R;
  ionicStrength : R;
  referenceOffsets : list (string * R)
}.

Record Mapping := {
  index : nat;
  name : string
}.

Definition buildParameterVector (conditions : Conditions) (options : Options)
    : list R * list (string * Mapping) :=
  let params := [pH conditions] in
  let parameterMap := [("pH"%string, {| index := 0; name := "pH" |})] in
  let index := 1%nat in
  let '(params, parameterMap, index) :=
    if refineTemperature options
    then (params ++ [temperature conditions],
          obj_set "temperature" {| index := index; name := "Temperature (K)" |}
                  parameterMap,
          S index)
    else (params, parameterMap, index) in
  let '(params, parameterMap, index) :=
    if refineIonicStrength options
    then (params ++ [ionicStrength conditions],
          obj_set "ionicStrength" {| index := index; name := "Ionic strength (M)" |}
                  parameterMap,
          S index)
    else (params, parameterMap, index) in
  let '(params, parameterMap, _) :=
    fold_left
      (fun '(params, parameterMap, index) '(nucleus, refine) =>
         if refine : bool
         then (params ++ [default 0 (obj_get nucleus (referenceOffsets conditions))],
               obj_set ("ref_" +:+ nucleus)
                       {| index := index;
                          name := nucleus +:+ " reference offset (ppm)" |}
                       parameterMap,
               S index)
         else (params, parameterMap, index))
      (refineReferences options) (params, parameterMap, index) in
  (params, parameterMap).

(** [params[i]]; the model reads [0] where JavaScript reads
    [undefined]. *)
Definition pget (params : list R) (i : nat) : R := default 0 (params !! i).

(** [parameterMap.pH.index] throws when the map has no [pH]. *)
Definition extractConditions (params : list R)
    (parameterMap : list (string * Mapping)) (baseConditions : Conditions)
    : Throws Conditions :=
  match obj_get "pH" parameterMap with
  | None => Throw TypeError
  | Some mpH =>
    mret
      {| pH := pget params (index mpH);
         temperature :=
           match obj_get "temperature" parameterMap with
           | Some m => pget params (index m)
           | None => temperature baseConditions
           end;
         ionicStrength :=
           match obj_get "ionicStrength" parameterMap with
           | Some m => pget params (index m)
           | None => ionicStrength baseConditions
           end;
         referenceOffsets :=
           fold_left
             (fun offsets '(key, mapping) =>
                if String.prefix "ref_" key
                then let nucleus := String.substring 4 (String.length key - 4) key in
                     obj_set nucleus (pget params (index mapping)) offsets
                else offsets)
             parameterMap (referenceOffsets baseConditions) |}
  end.

(** The shift a peak is predicted at, or [notFound] thrown when its
    resonance is missing.  [buffer.sample_id] is read before the buffer
    is tested, so a missing buffer is a [TypeError] in both callers. *)
Definition predictPeak (buffersMap : gmap string BufferModel.Buffer)
    (samplesMap : gmap string BufferModel.Sample) (conditions : Conditions)
    (notFound : PeakAssignment.Peak -> Thrown) (peak : PeakAssignment.Peak)
    : Throws R :=
  match PeakAssignment.peak_buffer_id peak ≫= (fun id => buffersMap !! id) with
  | None => Throw TypeError
  | Some buffer =>
    let sample := samplesMap !! BufferModel.sample_id buffer in
    let resonances :=
      default [] (obj_get (PeakAssignment.peak_nucleus peak)
                          (BufferModel.chemical_shifts buffer)) in
    match List.find
            (fun r => bool_decide (Some (BufferModel.resonance_id r)
                                   = PeakAssignment.peak_resonance_id peak))
            resonances with
    | None => Throw (notFound peak)
    | Some resonance =>
      let refTemp := default 298.15 (sample ≫= BufferModel.reference_temperature_K) in
      let refIonic := default 0 (sample ≫= BufferModel.reference_ionic_strength_M) in
      let pKaValues :=
        BufferModel.getBufferPKaValues buffer (temperature conditions)
          (ionicStrength conditions) refTemp in
      let predictedShift :=
        BufferModel.predictShift resonance pKaValues (pH conditions)
          (temperature conditions) (ionicStrength conditions) refTemp refIonic in
      let refOffset :=
        default 0 (obj_get (PeakAssignment.peak_nucleus peak)
                           (referenceOffsets conditions)) in
      mret (predictedShift + refOffset)
    end
  end.

(** [`Resonance not found: ${peak.resonance_id} in ${peak.buffer_id}`] *)
Definition resonanceNotFound (peak : PeakAssignment.Peak) : Thrown :=
  Error ("Resonance not found: "
         +:+ default "undefined"%string (PeakAssignment.peak_resonance_id peak)
         +:+ " in "
         +:+ default "undefined"%string (PeakAssignment.peak_buffer_id peak)).

Definition createResidualFunction (assignedPeaks : list PeakAssignment.Peak)
    (buffersMap : gmap string BufferModel.Buffer)
    (samplesMap : gmap string BufferModel.Sample)
    (parameterMap : list (string * Mapping)) (baseConditions : Conditions)
    : list R -> Throws (list R) :=
  fun params =>
    conditions ← extractConditions params parameterMap baseConditions;
    mapM (fun peak =>
            predictedShift ←
              predictPeak buffersMap samplesMap conditions resonanceNotFound peak;
            mret (PeakAssignment.peak_observed_shift peak - predictedShift))
         assignedPeaks.

(** Here the missing resonance is found out inside [predictShift], when
    [resonance.limiting_shifts] is read. *)
Definition createModelFunction (assignedPeaks : list PeakAssignment.Peak)
    (buffersMap : gmap string BufferModel.Buffer)
    (samplesMap : gmap string BufferModel.Sample)
    (parameterMap : list (string * Mapping)) (baseConditions : Conditions)
    : list R -> Throws (list R) :=
  fun params =>
    conditions ← extractConditions params parameterMap baseConditions;
    mapM (predictPeak buffersMap samplesMap conditions (fun _ => TypeError))
         assignedPeaks.

(** *** The optimizer

    [levenbergMarquardt] of the package [ml-levenberg-marquardt] is not
    part of the repository.  A call to it is an event of the
    computation: [Optimize call k] hands [call] to the optimizer and goes
    on with [k] applied to what the optimizer returned or threw. *)
Record LMData := {
  x : list nat;
  y : list R
}.

Record LMOptions := {
  initialValues : list R;
  minValues : list R;
  maxValues : list R;
  lm_maxIterations : nat;
  errorTolerance : R;
  damping : R;
  dampingStepUp : R;
  dampingStepDown : R
}.

Record LMCall := {
  data : LMData;
  parameterizedFunction : list R -> nat -> Throws R;
  lm_options : LMOptions
}.

Record LMResult := {
  parameterValues : list R;
  iterations : nat
}.

Inductive Fit (A : Type) :=
| Done (a : A)
| Optimize (call : LMCall) (k : Throws LMResult -> Fit A).
Arguments Done {A} a.
Arguments Optimize {A} call k.

(** Runs a computation against an optimizer: the result and the calls
    made, oldest first. *)
Fixpoint run {A : Type} (optimizer : LMCall -> Throws LMResult) (m : Fit A)
    : A * list LMCall :=
  match m with
  | Done a => (a, [])
  | Optimize call k =>
    let '(a, calls) := run optimizer (k (optimizer call)) in
    (a, call :: calls)
  end.

(** *** Results *)

(** The three error texts:
    ['No peaks could be assigned to buffer resonances'],
    [`Underdetermined system: ${nObs} observations, ${nParams}
    parameters (DoF = ${dof})`] and [`Fitting failed: ${error.message}`]. *)
Inductive FitError :=
| NoPeaksAssigned
| Underdetermined (nObs nParams : nat) (dof : Z)
| FittingFailed (thrown : Thrown).

Record ParameterResult := {
  value : R;
  uncertainty : R;
  pr_name : string
}.

Record Statistics := {
  st_nObservations : nat;
  st_nParameters : nat;
  st_degreesOfFreedom : Z;
  sumSquares : R;
  rmsd : R;
  chiSquared : R;
  reducedChiSquared : R;
  st_iterations : nat
}.

Record Convergence := {
  converged : bool;
  cv_iterations : nat
}.

(** A result object with [success: false]; [None] is a property the
    object does not have. *)
Record FitFailure := {
  error : FitError;
  ff_assignments : list (string * list PeakAssignment.Assignment);
  nObservations : option nat;
  nParameters : option nat;
  degreesOfFreedom : option Z
}.

(** A result object with [success: true]. *)
Record FitSuccess := {
  parameters : list (string * ParameterResult);
  conditions : Conditions;
  assignments : list (string * list PeakAssignment.Assignment);
  residuals : list R;
  statistics : Statistics;
  convergence : Convergence
}.

Inductive FitResult :=
| Failed (failure : FitFailure)
| Succeeded (fit : FitSuccess).

Definition success (r : FitResult) : bool :=
  match r with
  | Failed _ => false
  | Succeeded _ => true
  end.

(** *** fitParameters *)

(** [opts.initialPH ?? initialConditions.pH ?? 7.0] *)
Definition startPH (opts : Options) (initialConditions : InitialConditions) : R :=
  match initialPH opts with
  | Some p => p
  | None => default 7.0 (ic_pH initialConditions)
  end.

Definition baseConditionsOf (opts : Options) (initialConditions : InitialConditions)
    : Conditions :=
  {| temperature := ic_temperature initialConditions;
     ionicStrength := ic_ionicStrength initialConditions;
     referenceOffsets := default [] (ic_referenceOffsets initialConditions);
     pH := startPH opts initialConditions |}.

(** [new Map(buffers.map(b => [b.buffer_id, b]))]: of two buffers with
    one id the later one stays. *)
Definition buffersMapOf (buffers : list BufferModel.Buffer)
    : gmap string BufferModel.Buffer :=
  fold_left (fun m b => <[BufferModel.buffer_id b := b]> m) buffers ∅.

(** One bound per parameter: [ofPH] for the pH, [ofTemperature] and
    [ofIonicStrength] for the two optional parameters, [ofOffset] for a
    reference offset. *)
Definition bounds (parameterMap : list (string * Mapping)) (initialParams : list R)
    (ofPH ofTemperature ofIonicStrength ofOffset : R) : list R :=
  let indexOf key := index <$> obj_get key parameterMap in
  imap (fun i _ =>
          if bool_decide (indexOf "pH"%string = Some i) then ofPH
          else if bool_decide (indexOf "temperature"%string = Some i) then ofTemperature
          else if bool_decide (indexOf "ionicStrength"%string = Some i) then ofIonicStrength
          else ofOffset)
       initialParams.

(** The part of the [try] block after the optimizer has returned. *)
Definition afterOptimizer (observedShifts : list (string * list R))
    (buffers : list BufferModel.Buffer)
    (samplesMap : gmap string BufferModel.Sample)
    (opts : Options) (assignedPeaks : list PeakAssignment.Peak)
    (buffersMap : gmap string BufferModel.Buffer)
    (parameterMap : list (string * Mapping)) (baseConditions : Conditions)
    (nObs nParams : nat) (dof : Z) (result : LMResult) : Throws FitSuccess :=
  let fittedParams := parameterValues result in
  fittedConditions ← extractConditions fittedParams parameterMap baseConditions;
  let finalAssignments :=
    PeakAssignment.assignPeaks observedShifts buffers samplesMap
      (pH fittedConditions) (temperature fittedConditions)
      (ionicStrength fittedConditions) ∅ in
  let residualFn :=
    createResidualFunction assignedPeaks buffersMap samplesMap parameterMap
      baseConditions in
  residuals ← residualFn fittedParams;
  let sumSquares := fold_left (fun sum r => sum + r * r) residuals 0 in
  let rmsd := sqrt (sumSquares / INR (length residuals)) in
  let chiSquared := sumSquares in
  let reducedChiSquared :=
    if (0 <? dof)%Z then chiSquared / IZR dof else chiSquared in
  let uncertainties :=
    Uncertainty.calculateParameterUncertainties fittedParams residualFn
      reducedChiSquared 1e-6 in
  let parameterResults :=
    fold_left
      (fun parameterResults '(key, mapping) =>
         obj_set key
           {| value := pget fittedParams (index mapping);
              uncertainty := pget uncertainties (index mapping);
              pr_name := name mapping |}
           parameterResults)
      parameterMap [] in
  mret
    {| parameters := parameterResults;
       conditions := fittedConditions;
       assignments := finalAssignments;
       residuals := residuals;
       statistics :=
         {| st_nObservations := nObs;
            st_nParameters := nParams;
            st_degreesOfFreedom := dof;
            sumSquares := sumSquares;
            rmsd := rmsd;
            chiSquared := chiSquared;
            reducedChiSquared := reducedChiSquared;
            st_iterations := iterations result |};
       convergence :=
         {| converged := (iterations result <? maxIterations opts)%nat;
            cv_iterations := iterations result |} |}.

Definition fitParameters (observedShifts : list (string * list R))
    (buffers : list BufferModel.Buffer)
    (samplesMap : gmap string BufferModel.Sample)
    (initialConditions : InitialConditions) (options : CallerOptions)
    : Fit FitResult :=
  let opts := mergeOptions options in
  let assignments :=
    PeakAssignment.assignPeaks observedShifts buffers samplesMap
      (startPH opts initialConditions)
      (ic_temperature initialConditions) (ic_ionicStrength initialConditions) ∅ in
  let assignedPeaks := PeakAssignment.getAssignedPeaksForFitting assignments in
  if (length assignedPeaks =? 0)%nat then
    Done (Failed {| error := NoPeaksAssigned;
                    ff_assignments := assignments;
                    nObservations := None;
                    nParameters := None;
                    degreesOfFreedom := None |})
  else
  let buffersMap := buffersMapOf buffers in
  let baseConditions := baseConditionsOf opts initialConditions in
  let '(initialParams, parameterMap) := buildParameterVector baseConditions opts in
  let nParams := length initialParams in
  let nObs := length assignedPeaks in
  let dof := (Z.of_nat nObs - Z.of_nat nParams)%Z in
  if (dof <? 0)%Z then
    Done (Failed {| error := Underdetermined nObs nParams dof;
                    ff_assignments := assignments;
                    nObservations := Some nObs;
                    nParameters := Some nParams;
                    degreesOfFreedom := Some dof |})
  else
  let modelFn :=
    createModelFunction assignedPeaks buffersMap samplesMap parameterMap
      baseConditions in
  let xData := imap (fun i _ => i) assignedPeaks in
  let yData := map PeakAssignment.peak_observed_shift assignedPeaks in
  let wrappedModel := fun params x =>
    predicted ← modelFn params; mret (pget predicted x) in
  let minValues := bounds parameterMap initialParams 0 273 0 (-10) in
  let maxValues := bounds parameterMap initialParams 14 373 1 10 in
  Optimize
    {| data := {| x := xData; y := yData |};
       parameterizedFunction := wrappedModel;
       lm_options :=
         {| initialValues := initialParams;
            minValues := minValues;
            maxValues := maxValues;
            lm_maxIterations := maxIterations opts;
            errorTolerance := tolerance opts;
            damping := 1.5;
            dampingStepUp := 11;
            dampingStepDown := 9 |} |}
    (fun outcome =>
       match
         result ← outcome;
         afterOptimizer observedShifts buffers samplesMap opts assignedPeaks
           buffersMap parameterMap baseConditions nObs nParams dof result
       with
       | Returns fit => Done (Succeeded fit)
       | Throw thrown =>
         Done (Failed {| error := FittingFailed thrown;
                         ff_assignments := assignments;
                         nObservations := None;
                         nParameters := None;
                         degreesOfFreedom := None |})
       end).

(** *** fitWithReassignment *)

(** Goes on with [f] after [m]. *)
Fixpoint fit_bind {A B : Type} (m : Fit A) (f : A -> Fit B) : Fit B :=
  match m with
  | Done a => f a
  | Optimize call k => Optimize call (fun outcome => fit_bind (k outcome) f)
  end.

(** [{ ...options, initialPH: pH }] *)
Definition withInitialPH (options : CallerOptions) (pH : R) : CallerOptions :=
  {| opt_refineTemperature := opt_refineTemperature options;
     opt_refineIonicStrength := opt_refineIonicStrength options;
     opt_refineReferences := opt_refineReferences options;
     opt_maxIterations := opt_maxIterations options;
     opt_tolerance := opt_tolerance options;
     opt_initialPH := Some (Some pH) |}.

(** The conditions of a result, where the next round reads its initial
    conditions. *)
Definition asInitialConditions (conditions : Conditions) : InitialConditions :=
  {| ic_pH := Some (pH conditions);
     ic_temperature := temperature conditions;
     ic_ionicStrength := ionicStrength conditions;
     ic_referenceOffsets := Some (referenceOffsets conditions) |}.

(** The rounds of the loop that are left, with the conditions and the
    result the loop has reached; [None] is the [null] the result starts
    as.  Without a pH in the conditions the change of pH is NaN, which is
    not below 0.1. *)
Fixpoint reassignmentRounds (observedShifts : list (string * list R))
    (buffers : list BufferModel.Buffer)
    (samplesMap : gmap string BufferModel.Sample) (options : CallerOptions)
    (rounds : nat) (conditions : InitialConditions) (result : option FitResult)
    : Fit (option FitResult) :=
  match rounds with
  | O => Done result
  | S rounds' =>
    fit_bind
      (fitParameters observedShifts buffers samplesMap conditions
         (withInitialPH options
            (default (default 7.0 (mjoin (opt_initialPH options))) (ic_pH conditions))))
      (fun result =>
         match result with
         | Failed _ => Done (Some result)
         | Succeeded fit =>
           let stable :=
             match ic_pH conditions with
             | Some before => Rltb (Rabs (pH (Fitting.conditions fit) - before)) 0.1
             | None => false
             end in
           if stable then Done (Some result)
           else reassignmentRounds observedShifts buffers samplesMap options rounds'
                  (asInitialConditions (Fitting.conditions fit)) (Some result)
         end)
  end.

Definition fitWithReassignment (observedShifts : list (string * list R))
    (buffers : list BufferModel.Buffer)
    (samplesMap : gmap string BufferModel.Sample)
    (initialConditions : InitialConditions) (options : CallerOptions)
    (maxRounds : nat) : Fit (option FitResult) :=
  reassignmentRounds observedShifts buffers samplesMap options maxRounds
    initialConditions None.

End Fitting.

(** ** validation.js *)
Module Validation.

(** The three message texts of [checkDegreesOfFreedom]. *)
Inductive DoFMessage :=
| UnderdeterminedSystem (needed nParameters : Z)
| MarginalDegreesOfFreedom
| DegreesOfFreedom (dof : Z).

Record DoFCheck := {
  valid : bool;
  warning : bool;
  nObservations : Z;
  nParameters : Z;
  degreesOfFreedom : Z;
  message : DoFMessage
}.

Definition checkDegreesOfFreedom (nObservations nParameters : Z) : DoFCheck :=
  let dof := (nObservations - nParameters)%Z in
  {| valid := (0 <? dof)%Z;
     warning := (dof =? 1)%Z;
     nObservations := nObservations;
     nParameters := nParameters;
     degreesOfFreedom := dof;
     message :=
       if (dof <=? 0)%Z then UnderdeterminedSystem (nParameters + 1) nParameters
       else if (dof =? 1)%Z then MarginalDegreesOfFreedom
       else DegreesOfFreedom dof |}.

(** The number of fitted parameters and their names. *)
Record ParameterCount := {
  count : nat;
  details : list string
}.

Definition countParameters (options : Fitting.Options) : ParameterCount :=
  let count := 1%nat in
  let details := ["pH"%string] in
  let '(count, details) :=
    if Fitting.refineTemperature options
    then (S count, details ++ ["Temperature"%string])
    else (count, details) in
  let '(count, details) :=
    if Fitting.refineIonicStrength options
    then (S count, details ++ ["Ionic strength"%string])
    else (count, details) in
  let '(count, details) :=
    fold_left
      (fun '(count, details) '(nucleus, refine) =>
         if refine : bool
         then (S count, details ++ [nucleus +:+ " reference"])
         else (count, details))
      (Fitting.refineReferences options) (count, details) in
  {| count := count; details := details |}.

(** *** checkExtrapolation *)

Record Range := {
  min : R;
  max : R
}.

Record MeasurementRanges := {
  range_pH : option Range;
  range_temperature_K : option Range;
  range_ionic_strength_M : option Range
}.

(** A sample, with the properties the validation reads. *)
Record MeasuredSample := {
  ms_sample_id : string;
  measurement_ranges : option MeasurementRanges
}.

Inductive Quantity := QuantityPH | QuantityTemperature | QuantityIonicStrength.

(** [`pH ${value} is below measured range (min: ${min})`] and the like. *)
Inductive RangeWarning :=
| BelowMeasuredRange (quantity : Quantity) (value bound : R)
| AboveMeasuredRange (quantity : Quantity) (value bound : R).

Record SampleWarnings := {
  sw_sample_id : string;
  sw_warnings : list RangeWarning
}.

Record ExtrapolationCheck := {
  hasWarnings : bool;
  ec_warnings : list SampleWarnings
}.

(** The [if ... else if ...] on one range. *)
Definition rangeWarnings (quantity : Quantity) (value : R) (range : option Range)
    : list RangeWarning :=
  match range with
  | None => []
  | Some r =>
    if Rltb value (min r) then [BelowMeasuredRange quantity value (min r)]
    else if Rltb (max r) value then [AboveMeasuredRange quantity value (max r)]
    else []
  end.

Definition checkExtrapolation (conditions : Fitting.Conditions)
    (samples : list MeasuredSample) : ExtrapolationCheck :=
  let warnings :=
    fold_left
      (fun warnings sample =>
         match measurement_ranges sample with
         | None => warnings
         | Some ranges =>
           let sampleWarnings :=
             rangeWarnings QuantityPH (Fitting.pH conditions) (range_pH ranges)
             ++ rangeWarnings QuantityTemperature (Fitting.temperature conditions)
                  (range_temperature_K ranges)
             ++ rangeWarnings QuantityIonicStrength (Fitting.ionicStrength conditions)
                  (range_ionic_strength_M ranges) in
           if (0 <? length sampleWarnings)%nat
           then warnings ++ [ {| sw_sample_id := ms_sample_id sample;
                                 sw_warnings := sampleWarnings |} ]
           else warnings
         end)
      samples [] in
  {| hasWarnings := (0 <? length warnings)%nat;
     ec_warnings := warnings |}.

(** *** validateAssignments *)

Inductive IssueType := low_confidence | ambiguous | unassigned.

(** The message of an issue: the two texts of the function, the message
    the assignment brings, or [`Unassigned peak at ${observed} ppm`]. *)
Inductive AssignmentIssueMessage :=
| LowConfidenceAssignment (observed : R) (buffer_name resonance_id : option string)
| AmbiguousAssignment (observed : R)
| MessageOfAssignment (m : PeakAssignment.Message)
| UnassignedPeakAt (observed : R).

Record AssignmentIssue := {
  ai_type : IssueType;
  ai_nucleus : string;
  ai_observed_shift : R;
  ai_message : AssignmentIssueMessage
}.

(** [`${totalAssigned} peaks assigned, ${totalUnassigned} unassigned`] or
    [`All ${totalAssigned} peaks assigned`] *)
Inductive Summary :=
| SomeUnassigned (totalAssigned totalUnassigned : nat)
| AllAssigned (totalAssigned : nat).

Record AssignmentValidation := {
  av_valid : bool;
  av_totalAssigned : nat;
  av_totalUnassigned : nat;
  lowConfidenceCount : nat;
  ambiguousCount : nat;
  av_issues : list AssignmentIssue;
  av_summary : Summary
}.

Definition validateAssignments
    (assignments : list (string * list PeakAssignment.Assignment))
    : AssignmentValidation :=
  let '(issues, totalAssigned, totalUnassigned, lowConfidenceCount, ambiguousCount) :=
    fold_left
      (fun st '(nucleus, nucleusAssignments) =>
         fold_left
           (fun '(issues, totalAssigned, totalUnassigned, lowConfidenceCount,
                  ambiguousCount) assignment =>
              let observed := PeakAssignment.observed_shift assignment in
              if PeakAssignment.assigned assignment then
                let '(issues, lowConfidenceCount) :=
                  match PeakAssignment.confidence assignment with
                  | PeakAssignment.low =>
                    (issues ++
                     [ {| ai_type := low_confidence;
                          ai_nucleus := nucleus;
                          ai_observed_shift := observed;
                          ai_message :=
                            LowConfidenceAssignment observed
                              (PeakAssignment.a_buffer_name assignment)
                              (PeakAssignment.a_resonance_id assignment) |} ],
                     S lowConfidenceCount)
                  | _ => (issues, lowConfidenceCount)
                  end in
                let '(issues, ambiguousCount) :=
                  match PeakAssignment.alternatives assignment with
                  | Some (_ :: _) =>
                    (issues ++
                     [ {| ai_type := ambiguous;
                          ai_nucleus := nucleus;
                          ai_observed_shift := observed;
                          ai_message := AmbiguousAssignment observed |} ],
                     S ambiguousCount)
                  | _ => (issues, ambiguousCount)
                  end in
                (issues, S totalAssigned, totalUnassigned, lowConfidenceCount,
                 ambiguousCount)
              else
                (issues ++
                 [ {| ai_type := unassigned;
                      ai_nucleus := nucleus;
                      ai_observed_shift := observed;
                      ai_message :=
                        match PeakAssignment.message assignment with
                        | Some m => MessageOfAssignment m
                        | None => UnassignedPeakAt observed
                        end |} ],
                 totalAssigned, S totalUnassigned, lowConfidenceCount, ambiguousCount))
           nucleusAssignments st)
      assignments ([], O, O, O, O) in
  {| av_valid := (0 <? totalAssigned)%nat;
     av_totalAssigned := totalAssigned;
     av_totalUnassigned := totalUnassigned;
     lowConfidenceCount := lowConfidenceCount;
     ambiguousCount := ambiguousCount;
     av_issues := issues;
     av_summary :=
       if (0 <? totalUnassigned)%nat
       then SomeUnassigned totalAssigned totalUnassigned
       else AllAssigned totalAssigned |}.

(** *** validateResiduals *)

(** [min] starts as [Infinity] and [max] as [-Infinity]: [None]. *)
Record ResidualStatistics := {
  rs_min : option R;
  rs_max : option R;
  rs_mean : R;
  rs_count : nat
}.

Record Outlier := {
  o_nucleus : string;
  o_observed_shift : R;
  o_buffer_name : option string;
  o_resonance_id : option string;
  o_residual : R;
  zScore : R
}.

Record ResidualCheck := {
  hasOutliers : bool;
  outliers : list Outlier;
  rc_statistics : ResidualStatistics;
  rc_rmsd : R
}.

(** The entries of [flatAssignments]: the assigned entries that have a
    residual, each with the nucleus it is listed under. *)
Definition flatAssignmentsOf
    (assignments : list (string * list PeakAssignment.Assignment))
    : list (string * PeakAssignment.Assignment * R) :=
  flat_map
    (fun '(nucleus, nucleusAssignments) =>
       flat_map
         (fun assignment =>
            match PeakAssignment.assigned assignment,
                  PeakAssignment.residual assignment with
            | true, Some r => [(nucleus, assignment, r)]
            | _, _ => []
            end)
         nucleusAssignments)
    assignments.

Definition validateResiduals
    (assignments : list (string * list PeakAssignment.Assignment))
    (rmsd threshold : R) : ResidualCheck :=
  let flatAssignments := flatAssignmentsOf assignments in
  let residualStats :=
    fold_left
      (fun stats '(_, _, r) =>
         {| rs_count := S (rs_count stats);
            rs_mean := rs_mean stats + r;
            rs_min := Some (match rs_min stats with
                            | None => r
                            | Some m => Rmin m r
                            end);
            rs_max := Some (match rs_max stats with
                            | None => r
                            | Some m => Rmax m r
                            end) |})
      flatAssignments
      {| rs_min := None; rs_max := None; rs_mean := 0; rs_count := O |} in
  let residualStats :=
    if (0 <? rs_count residualStats)%nat
    then {| rs_min := rs_min residualStats;
            rs_max := rs_max residualStats;
            rs_mean := rs_mean residualStats / INR (rs_count residualStats);
            rs_count := rs_count residualStats |}
    else residualStats in
  let outliers :=
    if Rltb 0 rmsd then
      flat_map
        (fun '(nucleus, assignment, r) =>
           let zScore := Rabs r / rmsd in
           if Rltb threshold zScore
           then [ {| o_nucleus := nucleus;
                     o_observed_shift := PeakAssignment.observed_shift assignment;
                     o_buffer_name := PeakAssignment.a_buffer_name assignment;
                     o_resonance_id := PeakAssignment.a_resonance_id assignment;
                     o_residual := r;
                     zScore := zScore |} ]
           else [])
        flatAssignments
    else [] in
  {| hasOutliers := (0 <? length outliers)%nat;
     outliers := outliers;
     rc_statistics := residualStats;
     rc_rmsd := rmsd |}.

(** *** validateParameters *)

(** The five message texts of [validateParameters]. *)
Inductive ParameterMessage :=
| PHOutsidePhysicalRange (pH : R)
| TemperatureBelowFreezing (T : R)
| TemperatureAboveBoiling (T : R)
| IonicStrengthNegative (I : R)
| IonicStrengthVeryHigh (I : R).

Record ParameterIssue := {
  parameter : string;
  pi_value : R;
  pi_message : ParameterMessage
}.

Record ParameterCheck := {
  pc_valid : bool;
  pc_issues : list ParameterIssue
}.

Definition validateParameters (parameters : list (string * Fitting.ParameterResult))
    : ParameterCheck :=
  let issues := [] in
  let issues :=
    match obj_get "pH" parameters with
    | Some p =>
      let pH := Fitting.value p in
      if Rltb pH 0 || Rltb 14 pH
      then issues ++ [ {| parameter := "pH"; pi_value := pH;
                          pi_message := PHOutsidePhysicalRange pH |} ]
      else issues
    | None => issues
    end in
  let issues :=
    match obj_get "temperature" parameters with
    | Some p =>
      let T := Fitting.value p in
      if Rltb T 273
      then issues ++ [ {| parameter := "temperature"; pi_value := T;
                          pi_message := TemperatureBelowFreezing T |} ]
      else if Rltb 373 T
      then issues ++ [ {| parameter := "temperature"; pi_value := T;
                          pi_message := TemperatureAboveBoiling T |} ]
      else issues
    | None => issues
    end in
  let issues :=
    match obj_get "ionicStrength" parameters with
    | Some p =>
      let I := Fitting.value p in
      if Rltb I 0
      then issues ++ [ {| parameter := "ionicStrength"; pi_value := I;
                          pi_message := IonicStrengthNegative I |} ]
      else if Rltb 1 I
      then issues ++ [ {| parameter := "ionicStrength"; pi_value := I;
                          pi_message := IonicStrengthVeryHigh I |} ]
      else issues
    | None => issues
    end in
  {| pc_valid := (length issues =? 0)%nat;
     pc_issues := issues |}.

(** *** checkDeviations *)

(** The nominal conditions, with the properties the check reads; [None]
    is a property that is [undefined]. *)
Record NominalConditions := {
  nominal_temperature : option R;
  nominal_ionicStrength : option R
}.

(** [`Refined temperature differs from nominal by ${diff} K`] and
    [`Refined ionic strength differs from nominal by ${diff} M`] *)
Inductive DeviationMessage :=
| TemperatureDiffers (difference : R)
| IonicStrengthDiffers (difference : R).

Record Deviation := {
  dv_parameter : string;
  dv_nominal : R;
  dv_fitted : R;
  difference : R;
  dv_message : DeviationMessage
}.

Record DeviationCheck := {
  hasDeviations : bool;
  deviations : list Deviation
}.

(** A number in a condition: zero does not pass. *)
Definition truthy (x : R) : bool := negb (Reqb x 0).

Definition checkDeviations (fitted : Fitting.Conditions) (nominal : NominalConditions)
    : DeviationCheck :=
  let deviations := [] in
  let deviations :=
    match nominal_temperature nominal with
    | Some nominalT =>
      if truthy nominalT && truthy (Fitting.temperature fitted) then
        let diff := Rabs (Fitting.temperature fitted - nominalT) in
        if Rltb 2 diff
        then deviations ++
             [ {| dv_parameter := "temperature"; dv_nominal := nominalT;
                  dv_fitted := Fitting.temperature fitted; difference := diff;
                  dv_message := TemperatureDiffers diff |} ]
        else deviations
      else deviations
    | None => deviations
    end in
  let deviations :=
    match nominal_ionicStrength nominal with
    | Some nominalI =>
      let diff := Rabs (Fitting.ionicStrength fitted - nominalI) in
      if Rltb 0.05 diff
      then deviations ++
           [ {| dv_parameter := "ionicStrength"; dv_nominal := nominalI;
                dv_fitted := Fitting.ionicStrength fitted; difference := diff;
                dv_message := IonicStrengthDiffers diff |} ]
      else deviations
    | None => deviations
    end in
  {| hasDeviations := (0 <? length deviations)%nat;
     deviations := deviations |}.

(** *** validateFitResult *)

(** A warning of the report: the message of a deviation, a warning of the
    extrapolation check, or [`Outlier: ${buffer_name} ${resonance_id} has
    z-score ${zScore}`]. *)
Inductive Warning :=
| DeviationWarning (m : DeviationMessage)
| ExtrapolationWarning (w : RangeWarning)
| OutlierWarning (buffer_name resonance_id : option string) (zScore : R).

(** The report; [None] is a property the report of a failed fit does not
    have. *)
Record ValidationReport := {
  vr_valid : bool;
  vr_error : option Fitting.FitError;
  vr_warnings : list Warning;
  vr_issues : list ParameterIssue;
  vr_statistics : option Fitting.Statistics;
  vr_residualCheck : option ResidualCheck;
  vr_parameterCheck : option ParameterCheck;
  vr_extrapolationCheck : option ExtrapolationCheck;
  vr_deviationCheck : option DeviationCheck
}.

Definition validateFitResult (result : Fitting.FitResult)
    (nominalConditions : NominalConditions) (samples : list MeasuredSample)
    : ValidationReport :=
  match result with
  | Fitting.Failed failure =>
    {| vr_valid := false;
       vr_error := Some (Fitting.error failure);
       vr_warnings := [];
       vr_issues := [];
       vr_statistics := None; vr_residualCheck := None; vr_parameterCheck := None;
       vr_extrapolationCheck := None; vr_deviationCheck := None |}
  | Fitting.Succeeded fit =>
    let warnings := [] in
    let issues := [] in
    let paramValidation := validateParameters (Fitting.parameters fit) in
    let issues :=
      if negb (pc_valid paramValidation) then issues ++ pc_issues paramValidation
      else issues in
    let deviationCheck := checkDeviations (Fitting.conditions fit) nominalConditions in
    let warnings :=
      if hasDeviations deviationCheck
      then warnings ++ map (fun d => DeviationWarning (dv_message d))
                           (deviations deviationCheck)
      else warnings in
    let extrapolationCheck := checkExtrapolation (Fitting.conditions fit) samples in
    let warnings :=
      if hasWarnings extrapolationCheck
      then fold_left
             (fun warnings warning =>
                warnings ++ map ExtrapolationWarning (sw_warnings warning))
             (ec_warnings extrapolationCheck) warnings
      else warnings in
    let residualCheck :=
      validateResiduals (Fitting.assignments fit)
        (Fitting.rmsd (Fitting.statistics fit)) 2 in
    let warnings :=
      if hasOutliers residualCheck
      then fold_left
             (fun warnings outlier =>
                warnings ++ [OutlierWarning (o_buffer_name outlier)
                                            (o_resonance_id outlier) (zScore outlier)])
             (outliers residualCheck) warnings
      else warnings in
    {| vr_valid := (length issues =? 0)%nat;
       vr_error := None;
       vr_warnings := warnings;
       vr_issues := issues;
       vr_statistics := Some (Fitting.statistics fit);
       vr_residualCheck := Some residualCheck;
       vr_parameterCheck := Some paramValidation;
       vr_extrapolationCheck := Some extrapolationCheck;
       vr_deviationCheck := Some deviationCheck |}
  end.

End Validation.

(** * Vocabulary of the properties

    Names for what the statements below talk about, and the concrete data
    they are tried on. *)

(** The sum of a list, which [reduce((sum, r) => sum + r, 0)] computes. *)
Definition Rsum (l : list R) : R := foldr Rplus 0 l.

Section AssignmentVocabulary.
Import PeakAssignment.

(** [d > x] as a proposition *)
Definition distance_gt (d : Distance) (x : R) : Prop :=
  match d with
  | Finite v => x < v
  | Infinity => True
  end.

(** An element of [withDistances]. *)
Definition withDistance (observedShift : R) (pred : Prediction) : WithDistance :=
  {| wd_prediction := pred;
     distance := observedShift - predicted_shift pred;
     absDistance := Rabs (observedShift - predicted_shift pred) |}.

(** The sorted candidates of [assignSingleShift]. *)
Definition sortedCandidates (observedShift : R) (predictions : list Prediction)
    : list WithDistance :=
  stable_sort byAbsDistance (map (withDistance observedShift) predictions).

(** [nextBest ? nextBest.absDistance : Infinity] *)
Definition nextBestDistanceOf (rest : list WithDistance) : Distance :=
  match head rest with
  | Some nb => Finite (absDistance nb)
  | None => Infinity
  end.

(** The nuclei [DEFAULT_TOLERANCES] lists. *)
Definition listedNuclei : list string := ["1H"; "13C"; "15N"; "19F"; "31P"]%string.

(** The assigned entries of a list have pairwise different keys, all in
    the set of used predictions. *)
Definition distinctKeys (st : list Assignment * gset string) : Prop :=
  (forall a, a ∈ st.1 -> assigned a = true -> keyOfAssignment a ∈ st.2)
  /\ (forall i j a b,
        st.1 !! i = Some a -> st.1 !! j = Some b ->
        assigned a = true -> assigned b = true ->
        keyOfAssignment a = keyOfAssignment b -> i = j).


Definition prediction (buffer_id buffer_name resonance_id : string) (shift : R)
    : Prediction :=
  {| p_buffer_id := buffer_id; p_buffer_name := buffer_name;
     p_resonance_id := resonance_id; p_description := "resonance";
     predicted_shift := shift |}.

End AssignmentVocabulary.
Arguments prediction _ _ _ _ /.

Section FittingVocabulary.
Import Fitting.

(** The values [fitParameters] computes before the guard. *)
Definition initialAssignments (observedShifts : list (string * list R))
    (buffers : list BufferModel.Buffer) (samplesMap : gmap string BufferModel.Sample)
    (initialConditions : InitialConditions) (options : CallerOptions)
    : list (string * list PeakAssignment.Assignment) :=
  PeakAssignment.assignPeaks observedShifts buffers samplesMap
    (startPH (mergeOptions options) initialConditions)
    (ic_temperature initialConditions) (ic_ionicStrength initialConditions) ∅.

Definition assignedPeaksOf (observedShifts : list (string * list R))
    (buffers : list BufferModel.Buffer) (samplesMap : gmap string BufferModel.Sample)
    (initialConditions : InitialConditions) (options : CallerOptions)
    : list PeakAssignment.Peak :=
  PeakAssignment.getAssignedPeaksForFitting
    (initialAssignments observedShifts buffers samplesMap initialConditions options).

Definition initialParamsOf (initialConditions : InitialConditions)
    (options : CallerOptions) : list R :=
  (buildParameterVector
     (baseConditionsOf (mergeOptions options) initialConditions)
     (mergeOptions options)).1.

(** An optimizer that stops at once and returns the values it was
    started from. *)
Definition keepInitialValues (call : LMCall) : Throws LMResult :=
  Returns {| parameterValues := initialValues (lm_options call); iterations := 0 |}.

End FittingVocabulary.

(** Molecules without ionisation in the range of interest: one state
    each.  Trifluoroacetate has the same resonance id for its 19F and its
    13C resonance; DSS has two proton resonances. *)
Module Scenario.
Import BufferModel.

Definition resonance (id : string) (shift : R) : Resonance :=
  {| resonance_id := id;
     description := "resonance";
     limiting_shifts :=
       [ {| ionisation_state := 0;
            shift_ppm := Num shift;
            temperature_coefficient_ppm_per_K := None;
            ionic_strength_coefficient_ppm_per_M := None |} ] |}.

Definition tfa : Buffer :=
  {| buffer_id := "tfa";
     buffer_name := "TFA";
     sample_id := "s1";
     pKa_parameters := [];
     chemical_shifts :=
       [ ("19F"%string, [resonance "CF3" (-75)]);
         ("13C"%string, [resonance "CF3" 116]) ] |}.

Definition dss : Buffer :=
  {| buffer_id := "dss";
     buffer_name := "DSS";
     sample_id := "s1";
     pKa_parameters := [];
     chemical_shifts :=
       [ ("1H"%string, [resonance "CH3" 0; resonance "CH2" 0.6]) ] |}.

End Scenario.

Section ScenarioData.
Import PeakAssignment Fitting.

(** The two proton peaks of DSS, as they come out assigned. *)
Definition peakCH3 : Assignment :=
  {| observed_shift := 0.05; assigned := true; confidence := high;
     a_buffer_id := Some "dss"%string; a_buffer_name := Some "DSS"%string;
     a_resonance_id := Some "CH3"%string; a_description := Some "resonance"%string;
     a_predicted_shift := Some 0;
     residual := Some (0.05 - 0);
     alternatives := Some []; nearest := None; message := None;
     a_nucleus := Some "1H"%string |}.

Definition peakCH2 : Assignment :=
  {| observed_shift := 0.55; assigned := true; confidence := high;
     a_buffer_id := Some "dss"%string; a_buffer_name := Some "DSS"%string;
     a_resonance_id := Some "CH2"%string; a_description := Some "resonance"%string;
     a_predicted_shift := Some 0.6;
     residual := Some (0.55 - 0.6);
     alternatives := Some []; nearest := None; message := None;
     a_nucleus := Some "1H"%string |}.

(** One 19F peak of trifluoroacetate, next to its predicted shift. *)
Definition oneFluorinePeak : list (string * list R) := [("19F"%string, [-75.2])].

Definition fluorinePeak : Peak :=
  {| peak_nucleus := "19F";
     peak_observed_shift := -75.2;
     peak_buffer_id := Some "tfa"%string;
     peak_resonance_id := Some "CF3"%string;
     peak_predicted_shift := Some (-75) |}.

Definition nominalConditions : InitialConditions :=
  {| ic_pH := Some 7; ic_temperature := 298.15; ic_ionicStrength := 0.1;
     ic_referenceOffsets := None |}.

Definition noOptions : CallerOptions :=
  {| opt_refineTemperature := None; opt_refineIonicStrength := None;
     opt_refineReferences := None; opt_maxIterations := None;
     opt_tolerance := None; opt_initialPH := None |}.

Definition refiningTemperature : CallerOptions :=
  {| opt_refineTemperature := Some true; opt_refineIonicStrength := None;
     opt_refineReferences := None; opt_maxIterations := None;
     opt_tolerance := None; opt_initialPH := None |}.

End ScenarioData.

Section BufferVocabulary.
Import BufferModel.

(** One turn of the loop of [predictShift]. *)
Definition addLimitingShift (fractions : list R)
    (temperature ionicStrength referenceTemperature referenceIonicStrength : R)
    (observedShift : R) (limitingShift : LimitingShift) : R :=
  observedShift
  + default 0 (fractions !! ionisation_state limitingShift)
    * calculateLimitingShift limitingShift temperature ionicStrength
        referenceTemperature referenceIonicStrength.

End BufferVocabulary.

Section RecordVocabulary.
Import PeakAssignment.

(** What the loop over the sorted shifts of a nucleus pushes: a record
    for each shift, in the order of the shifts, tagged with the nucleus;
    an assigned one refers to a prediction of the nucleus within the
    tolerance. *)
Definition recordOf (nucleus : string) (nucleusPredictions : list Prediction)
    (tolerance : R) (a : Assignment) : Prop :=
  a_nucleus a = Some nucleus
  /\ (assigned a = true ->
      confidence a <> none
      /\ exists p,
           p ∈ nucleusPredictions
           /\ a_buffer_id a = Some (p_buffer_id p)
           /\ a_resonance_id a = Some (p_resonance_id p)
           /\ a_predicted_shift a = Some (predicted_shift p)
           /\ residual a = Some (observed_shift a - predicted_shift p)
           /\ Rabs (observed_shift a - predicted_shift p) <= tolerance).

(** All records of the lists of an assignments object. *)
Definition recordsOf (assignments : list (string * list Assignment)) : list Assignment :=
  flat_map snd assignments.

Definition hasConfidence (c : Confidence) (a : Assignment) : bool :=
  assigned a && match c, confidence a with
                | high, high | medium, medium | low, low | none, none => true
                | _, _ => false
                end.

Definition countOf (f : Assignment -> bool) (l : list Assignment) : nat :=
  length (filter (fun a => f a = true) l).

End RecordVocabulary.

Section ParameterVocabulary.
Import Fitting.

(** The keys of the parameter map that are not reference offsets. *)
Definition fixedKeys : list string := ["pH"; "temperature"; "ionicStrength"]%string.

(** The state of the loops of [buildParameterVector]: the next index is
    the length of the vector, and every entry of the map points at the
    value of its condition in the vector. *)
Definition wellMapped (conditions : Conditions) (options : Options)
    (st : list R * list (string * Mapping) * nat) : Prop :=
  let '(params, parameterMap, next) := st in
  next = length params
  /\ (exists m, obj_get "pH" parameterMap = Some m /\ index m = 0%nat
                /\ params !! 0%nat = Some (pH conditions))
  /\ (is_Some (obj_get "temperature" parameterMap) <-> refineTemperature options = true)
  /\ (forall m, obj_get "temperature" parameterMap = Some m ->
                params !! index m = Some (temperature conditions))
  /\ (is_Some (obj_get "ionicStrength" parameterMap)
      <-> refineIonicStrength options = true)
  /\ (forall m, obj_get "ionicStrength" parameterMap = Some m ->
                params !! index m = Some (ionicStrength conditions))
  /\ Forall (fun entry =>
               entry.1 ∈ fixedKeys
               \/ exists nucleus,
                    entry.1 = ("ref_" +:+ nucleus)%string
                    /\ params !! index entry.2
                       = Some (default 0 (obj_get nucleus (referenceOffsets conditions))))
            parameterMap.

(** The parameter map [fitParameters] builds. *)
Definition parameterMapOf (initialConditions : InitialConditions)
    (options : CallerOptions) : list (string * Mapping) :=
  (buildParameterVector
     (baseConditionsOf (mergeOptions options) initialConditions)
     (mergeOptions options)).2.

(** What [fitParameters] goes on with after the optimizer. *)
Definition afterCall (observedShifts : list (string * list R))
    (buffers : list BufferModel.Buffer) (samplesMap : gmap string BufferModel.Sample)
    (initialConditions : InitialConditions) (options : CallerOptions)
    (outcome : Throws LMResult) : Throws FitSuccess :=
  let assignedPeaks :=
    assignedPeaksOf observedShifts buffers samplesMap initialConditions options in
  let nObs := length assignedPeaks in
  let nParams := length (initialParamsOf initialConditions options) in
  result ← outcome;
  afterOptimizer observedShifts buffers samplesMap (mergeOptions options)
    assignedPeaks (buffersMapOf buffers) (parameterMapOf initialConditions options)
    (baseConditionsOf (mergeOptions options) initialConditions)
    nObs nParams (Z.of_nat nObs - Z.of_nat nParams)%Z result.

End ParameterVocabulary.

Section MatrixVocabulary.
Import Uncertainty.

(** The matrix with [n] rows and [m] columns whose entries are [f i j]:
    what the loops [for i ... for j ... result[i][j] = ...] build. *)
Definition table (n m : nat) (f : nat -> nat -> R) : list (list R) :=
  map (fun i => map (fun j => f i j) (seq 0 m)) (seq 0 n).

Definition rectangular (n m : nat) (A : Matrix) : Prop :=
  length A = n /\ Forall (fun row => length row = m) A.

Definition symmetric (A : Matrix) : Prop :=
  forall i j, mget A i j = mget A j i.

(** [x] is the central difference of residual [i] in parameter [j]:
    the residual function returns at the step forward and at the step
    backward, and [x] is the difference of the entries [i] of the two
    arrays over twice the step. *)
Definition isCentralDifference (residualFn : list R -> Throws (list R))
    (params : list R) (step : R) (i j : nat) (x : R) : Prop :=
  exists residualsPlus residualsMinus,
    residualFn (alter (fun p => p + step) j params) = Returns residualsPlus
    /\ residualFn (alter (fun p => p - step) j params) = Returns residualsMinus
    /\ forall plus minus,
         residualsPlus !! i = Some plus -> residualsMinus !! i = Some minus ->
         x = (plus - minus) / (2 * step).

End MatrixVocabulary.

Section ValidationVocabulary.
Import Fitting Validation.

(** The fitted parameters are within the physical ranges: the pH within
    0 and 14, the temperature within 273 and 373 K, the ionic strength
    within 0 and 1 M, each where the parameter is there. *)
Definition withinPhysicalRanges (parameters : list (string * ParameterResult)) : Prop :=
  (forall p, obj_get "pH" parameters = Some p -> 0 <= value p <= 14)
  /\ (forall p, obj_get "temperature" parameters = Some p -> 273 <= value p <= 373)
  /\ (forall p, obj_get "ionicStrength" parameters = Some p -> 0 <= value p <= 1).

(** A value is within a measured range, where there is one. *)
Definition withinRange (value : R) (range : option Range) : Prop :=
  match range with
  | Some r => min r <= value <= max r
  | None => True
  end.

Definition withinMeasuredRanges (conditions : Conditions) (sample : MeasuredSample)
    : Prop :=
  match measurement_ranges sample with
  | Some ranges =>
    withinRange (pH conditions) (range_pH ranges)
    /\ withinRange (temperature conditions) (range_temperature_K ranges)
    /\ withinRange (ionicStrength conditions) (range_ionic_strength_M ranges)
  | None => True
  end.

(** The warnings of one sample. *)
Definition sampleWarningsOf (conditions : Conditions) (sample : MeasuredSample)
    : list SampleWarnings :=
  match measurement_ranges sample with
  | None => []
  | Some ranges =>
    let sampleWarnings :=
      rangeWarnings QuantityPH (pH conditions) (range_pH ranges)
      ++ rangeWarnings QuantityTemperature (temperature conditions)
           (range_temperature_K ranges)
      ++ rangeWarnings QuantityIonicStrength (ionicStrength conditions)
           (range_ionic_strength_M ranges) in
    if (0 <? length sampleWarnings)%nat
    then [ {| sw_sample_id := ms_sample_id sample; sw_warnings := sampleWarnings |} ]
    else []
  end.

(** The statistics after the loop over the residuals [rs]: their
    number, their sum, and their least and greatest value. *)
Definition summarises (rs : list R) (stats : ResidualStatistics) : Prop :=
  rs_count stats = length rs
  /\ rs_mean stats = Rsum rs
  /\ match rs with
     | [] => rs_min stats = None /\ rs_max stats = None
     | _ :: _ =>
       exists lo hi,
         rs_min stats = Some lo /\ rs_max stats = Some hi
         /\ Forall (fun r => lo <= r <= hi) rs
         /\ lo ∈ rs /\ hi ∈ rs
     end.

(** The residuals of the entries of [flatAssignments]. *)
Definition residualsOf
    (assignments : list (string * list PeakAssignment.Assignment)) : list R :=
  map snd (flatAssignmentsOf assignments).

End ValidationVocabulary.

(** * Properties *)

(** ** Comparisons, objects and sorting *)

Lemma Rltb_true a b : Rltb a b = true <-> a < b.
Proof. unfold Rltb. destruct (Rlt_dec a b); split; (done || lra). Qed.

Lemma Rltb_false a b : Rltb a b = false <-> b <= a.
Proof. unfold Rltb. destruct (Rlt_dec a b); split; (done || lra). Qed.

Lemma Rleb_true a b : Rleb a b = true <-> a <= b.
Proof. unfold Rleb. destruct (Rle_dec a b); split; (done || lra). Qed.

Lemma Rleb_false a b : Rleb a b = false <-> b < a.
Proof. unfold Rleb. destruct (Rle_dec a b); split; (done || lra). Qed.

Lemma Reqb_true a b : Reqb a b = true <-> a = b.
Proof. unfold Reqb. destruct (Req_dec_T a b); split; (done || lra). Qed.

Lemma Reqb_false a b : Reqb a b = false <-> a <> b.
Proof. unfold Reqb. destruct (Req_dec_T a b); split; (done || lra). Qed.

(** Decides the comparisons of closed arithmetic that an evaluation leaves
    behind. *)
Ltac Rcompare :=
  repeat match goal with
  | |- context [Rltb ?a ?b] =>
      first [ rewrite (proj2 (Rltb_true a b)) by lra
            | rewrite (proj2 (Rltb_false a b)) by lra ]
  | |- context [Rleb ?a ?b] =>
      first [ rewrite (proj2 (Rleb_true a b)) by lra
            | rewrite (proj2 (Rleb_false a b)) by lra ]
  | |- context [Reqb ?a ?b] =>
      first [ rewrite (proj2 (Reqb_true a b)) by lra
            | rewrite (proj2 (Reqb_false a b)) by lra ]
  end.

Lemma fold_left_Rplus (l : list R) (a : R) :
  fold_left (fun sum r => sum + r) l a = a + Rsum l.
Proof.
  revert a. induction l as [|r l IH]; intros a; simpl.
  - lra.
  - rewrite IH. lra.
Qed.

Lemma Rsum_pos (l : list R) : Forall (fun r => 0 < r) l -> l <> [] -> 0 < Rsum l.
Proof.
  intros Hl. induction Hl as [|r l Hr Hl IH]; [done|]. intros _. simpl.
  destruct l as [|r' l]; simpl in *; [lra|].
  assert (0 < r' + Rsum l) by (apply IH; done). lra.
Qed.

Lemma Rsum_scale (l : list R) (t : R) : Rsum (map (fun r => r / t) l) = Rsum l / t.
Proof.
  induction l as [|r l IH]; simpl.
  - unfold Rdiv. lra.
  - rewrite IH. unfold Rdiv. lra.
Qed.

(** ** bufferModel.js: ionisation fractions *)
Section IonisationFractions.
Import BufferModel.

Lemma pow10_pos x : 0 < pow10 x.
Proof. unfold pow10, Rpower. apply exp_pos. Qed.

Lemma relative_fold_pos pH (l : list R) (acc : R) :
  0 < acc -> 0 < fold_left (fun r pKa_j => r * pow10 (pKa_j - pH)) l acc.
Proof.
  revert acc. induction l as [|pk l IH]; intros acc Hacc; simpl; [done|].
  apply IH. apply Rmult_lt_0_compat; [done | apply pow10_pos].
Qed.

Lemma relativePopulation_pos pH pKaValues i : 0 < relativePopulation pH pKaValues i.
Proof. apply relative_fold_pos. lra. Qed.

(** The most deprotonated state has relative weight 1. *)
Lemma relativePopulation_last pH pKaValues :
  relativePopulation pH pKaValues (length pKaValues) = 1.
Proof. unfold relativePopulation. by rewrite drop_all. Qed.

Lemma relatives_pos pH pKaValues n :
  Forall (fun r => 0 < r) (map (relativePopulation pH pKaValues) (seq 0 n)).
Proof.
  apply Forall_forall. intros r Hr. apply list_elem_of_In in Hr.
  apply in_map_iff in Hr as (i & <- & _).
  apply relativePopulation_pos.
Qed.

(** For every pH and every list of pKa values, the fractions are one per
    state, positive, and sum to 1. *)
Lemma ionisationFractions_distribution pH pKaValues :
  length (ionisationFractions pH pKaValues) = S (length pKaValues)
  /\ Forall (fun f => 0 < f) (ionisationFractions pH pKaValues)
  /\ Rsum (ionisationFractions pH pKaValues) = 1.
Proof.
  unfold ionisationFractions.
  destruct pKaValues as [|pk0 pKaValues].
  { simpl. repeat split; [|lra]. repeat constructor. lra. }
  replace (length (pk0 :: pKaValues) + 1)%nat
    with (S (S (length pKaValues))) by (simpl; lia).
  change (Nat.eqb (S (S (length pKaValues))) 1) with false. cbv iota zeta.
  set (n := S (S (length pKaValues))).
  set (relatives := map (relativePopulation pH (pk0 :: pKaValues)) (seq 0 n)).
  assert (Hpos : Forall (fun r => 0 < r) relatives) by apply relatives_pos.
  assert (Htotal : 0 < fold_left (fun sum r => sum + r) relatives 0).
  { rewrite fold_left_Rplus. rewrite Rplus_0_l. apply Rsum_pos; [done|].
    subst relatives n. simpl. discriminate. }
  set (total := fold_left (fun sum r => sum + r) relatives 0) in *.
  split; [|split].
  - rewrite length_map. subst relatives. rewrite length_map, length_seq. done.
  - apply Forall_forall. intros f Hf. apply list_elem_of_In in Hf.
    apply in_map_iff in Hf as (r & <- & Hr).
    apply list_elem_of_In in Hr.
    rewrite Forall_forall in Hpos. specialize (Hpos r Hr).
    apply Rdiv_lt_0_compat; done.
  - rewrite Rsum_scale.
    assert (Rsum relatives = total) as ->.
    { subst total. rewrite fold_left_Rplus. lra. }
    apply Rdiv_diag. lra.
Qed.



End IonisationFractions.

(** ** bufferModel.js: ionisation fractions in double precision *)
Section DoubleFractions.
Import PrimFloat.

(** At pH -50 with the pKa values 2, 4, ..., 12 the only powers of ten
    taken are those of [decades]: with any [pow10] that is right there the
    fractions are those computed with [pow10At]. *)
Lemma ionisationFractions_at_decades (pow10 : float -> float) :
  Forall (fun d => pow10 d.1 = d.2) Doubles.decades ->
  Doubles.ionisationFractions pow10 (-50)%float [2; 4; 6; 8; 10; 12]%float
  = Doubles.ionisationFractions Doubles.pow10At (-50)%float [2; 4; 6; 8; 10; 12]%float.
Proof.
  intros H. unfold Doubles.decades in H.
  repeat (apply Forall_cons in H as [? H]). simpl in *.
  cbv [Doubles.ionisationFractions Doubles.relativePopulation length Nat.add Nat.eqb
       seq map drop fold_left].
  cbn.
  repeat match goal with E : pow10 _ = _ |- _ => rewrite E; clear E end.
  vm_compute. reflexivity.
Qed.


End DoubleFractions.

(** ** bufferModel.js: pKa at the reference conditions *)
Section ReferencePKa.
Import BufferModel.

Lemma calculatePKaTemperature_at_reference (p : PKaParams) (Tref : R) :
  Tref <> 0 -> calculatePKaTemperature p Tref Tref = getValue (pKa p).
Proof.
  intros HT. unfold calculatePKaTemperature. cbv zeta.
  assert (H1 : 1 / Tref - 1 / Tref = 0) by lra.
  assert (H2 : Tref / Tref - 1 + ln (Tref / Tref) = 0).
  { rewrite Rdiv_diag by done. rewrite ln_1. lra. }
  rewrite H1, H2.
  destruct (negb (Reqb _ 0)); destruct (negb (Reqb _ 0)); lra.
Qed.

Lemma ionicStrength_zero_Davies p : calculatePKaIonicStrengthDavies p 0 = 0.
Proof.
  unfold calculatePKaIonicStrengthDavies.
  by rewrite (proj2 (Rleb_true 0 0)) by lra.
Qed.

Lemma ionicStrength_zero_ExtendedDH p : calculatePKaIonicStrengthExtendedDH p 0 = 0.
Proof.
  unfold calculatePKaIonicStrengthExtendedDH.
  by rewrite (proj2 (Rleb_true 0 0)) by lra.
Qed.

Lemma ionicStrength_zero_Empirical p : calculatePKaIonicStrengthEmpirical p 0 = 0.
Proof. unfold calculatePKaIonicStrengthEmpirical. cbv zeta. lra. Qed.

(** C7.  For every pKa parameter record, whatever its enthalpy,
    heat-capacity, charge and ionic-strength-model fields,
    [calculatePKa] at a temperature equal to the reference temperature
    (a temperature in kelvin, so not zero) and at ionic strength 0
    returns the reference pKa of the record unchanged. *)
Theorem calculatePKa_at_reference (p : PKaParams) (Tref : R) :
  Tref <> 0 -> calculatePKa p Tref 0 Tref = getValue (pKa p).
Proof.
  intros HT. unfold calculatePKa. cbv zeta.
  rewrite (calculatePKaTemperature_at_reference p Tref HT).
  rewrite ionicStrength_zero_Davies, ionicStrength_zero_ExtendedDH,
          ionicStrength_zero_Empirical.
  repeat destruct (String.eqb _ _); lra.
Qed.

Lemma calculatePKa_at_reference_witness :
  calculatePKa
    {| pKa := WithUncertainty 6.8 (Some 0.02);
       dH_kJ_mol := Some (Num 3.6);
       dCp_J_mol_K := Some (Num (-230));
       protonated_charge := Some (-1);
       ion_size_angstrom := None;
       ionic_strength_coefficient_per_M := None;
       ionic_strength_model := Some "extended_debye_huckel"%string |}
    298.15 0 298.15 = 6.8.
Proof.
  apply (calculatePKa_at_reference
           {| pKa := WithUncertainty 6.8 (Some 0.02);
              dH_kJ_mol := Some (Num 3.6);
              dCp_J_mol_K := Some (Num (-230));
              protonated_charge := Some (-1);
              ion_size_angstrom := None;
              ionic_strength_coefficient_per_M := None;
              ionic_strength_model := Some "extended_debye_huckel"%string |}
           298.15).
  lra.
Defined.

End ReferencePKa.

(** ** Sorting *)
Section SortingFacts.
Context {A : Type} (le : A -> A -> bool).

Lemma insert_sorted_perm x l : insert_sorted le x l ≡ₚ x :: l.
Proof.
  induction l as [|y l IH]; simpl; [done|].
  destruct (le x y); [done|]. rewrite IH. apply Permutation_swap.
Qed.

Lemma stable_sort_perm l : stable_sort le l ≡ₚ l.
Proof.
  induction l as [|x l IH]; simpl; [done|].
  by rewrite insert_sorted_perm, IH.
Qed.

Lemma stable_sort_length l : length (stable_sort le l) = length l.
Proof. apply Permutation_length, stable_sort_perm. Qed.

Lemma stable_sort_elem_of x l : x ∈ stable_sort le l <-> x ∈ l.
Proof. by rewrite stable_sort_perm. Qed.

Lemma stable_sort_nil l : stable_sort le l = [] <-> l = [].
Proof.
  split; [|by intros ->].
  intros H. apply (f_equal length) in H.
  rewrite stable_sort_length in H. by destruct l.
Qed.
End SortingFacts.

(** Sorting by a numeric key puts a smallest element first. *)
Section SortByKey.
Context {A : Type} (key : A -> R).
Let le (a b : A) : bool := Rleb (key a) (key b).
Let below (a b : A) : Prop := key a <= key b.

Lemma insert_sorted_strongly x l :
  StronglySorted below l -> StronglySorted below (insert_sorted le x l).
Proof.
  induction 1 as [|y l Hl IH Hy]; simpl.
  - repeat constructor.
  - subst le. simpl. destruct (Rleb (key x) (key y)) eqn:E.
    + apply Rleb_true in E. constructor; [by constructor|].
      constructor; [done|].
      eapply Forall_impl; [exact Hy|]. unfold below. simpl. intros; lra.
    + apply Rleb_false in E. constructor; [done|].
      rewrite insert_sorted_perm. constructor; [unfold below; lra | done].
Qed.

Lemma stable_sort_strongly l : StronglySorted below (stable_sort le l).
Proof.
  induction l as [|x l IH]; simpl; [constructor|].
  by apply insert_sorted_strongly.
Qed.

Lemma stable_sort_head_least l best rest :
  stable_sort le l = best :: rest ->
  best ∈ l /\ Forall (fun a => key best <= key a) l.
Proof.
  intros Hs. split.
  - apply (stable_sort_elem_of le). rewrite Hs. left.
  - pose proof (stable_sort_strongly l) as Hss. rewrite Hs in Hss.
    apply StronglySorted_inv in Hss as [_ Hall].
    rewrite <- (stable_sort_perm le l), Hs.
    constructor; [lra | done].
Qed.
End SortByKey.

(** ** peakAssignment.js: confidence *)
Section Confidence.
Import PeakAssignment.

Lemma distance_gtb_true d x : distance_gtb d x = true <-> distance_gt d x.
Proof. destruct d; simpl; [apply Rltb_true | done]. Qed.

Lemma sortedCandidates_elem observedShift predictions w :
  w ∈ sortedCandidates observedShift predictions ->
  exists p, p ∈ predictions /\ w = withDistance observedShift p.
Proof.
  unfold sortedCandidates. rewrite stable_sort_elem_of.
  intros Hw. apply list_elem_of_fmap in Hw as (p & -> & Hp). eauto.
Qed.

Lemma sortedCandidates_best observedShift predictions best rest :
  sortedCandidates observedShift predictions = best :: rest ->
  (exists p, p ∈ predictions /\ best = withDistance observedShift p)
  /\ Forall (fun p => absDistance best <= Rabs (observedShift - predicted_shift p))
            predictions.
Proof.
  intros Hs. split.
  - apply sortedCandidates_elem. rewrite Hs. left.
  - apply (stable_sort_head_least absDistance) in Hs as [_ Hall].
    rewrite Forall_fmap in Hall. exact Hall.
Qed.

Lemma sortedCandidates_nil observedShift predictions :
  sortedCandidates observedShift predictions = [] <-> predictions = [].
Proof.
  unfold sortedCandidates. rewrite stable_sort_nil. split.
  - intros H. by apply fmap_nil_inv in H.
  - by intros ->.
Qed.

(** What [assignSingleShift] returns, by the outcome of the confidence
    test on the best candidate. *)
Lemma assignSingleShift_nil observedShift tolerance :
  assignSingleShift observedShift [] tolerance = noPredictions observedShift.
Proof. done. Qed.

Lemma assignSingleShift_cons observedShift predictions tolerance best rest :
  sortedCandidates observedShift predictions = best :: rest ->
  let a := assignSingleShift observedShift predictions tolerance in
  let c := calculateConfidence (absDistance best) tolerance (nextBestDistanceOf rest) in
  observed_shift a = observedShift
  /\ confidence a = c
  /\ assigned a = (if c is none then false else true)
  /\ (assigned a = true ->
      a_buffer_id a = Some (p_buffer_id (wd_prediction best))
      /\ a_resonance_id a = Some (p_resonance_id (wd_prediction best))
      /\ a_predicted_shift a = Some (predicted_shift (wd_prediction best))
      /\ residual a = Some (distance best)).
Proof.
  intros Hs. unfold assignSingleShift.
  destruct predictions as [|p0 predictions].
  { discriminate Hs. }
  unfold sortedCandidates, withDistance in Hs. rewrite Hs.
  fold (nextBestDistanceOf rest).
  destruct (calculateConfidence (absDistance best) tolerance (nextBestDistanceOf rest));
    simpl; repeat split; done.
Qed.

Lemma calculateConfidence_none d t d2 :
  calculateConfidence d t d2 = none <-> t < Rabs d.
Proof.
  unfold calculateConfidence. cbv zeta.
  destruct (Rltb t (Rabs d)) eqn:E1.
  - apply Rltb_true in E1. done.
  - apply Rltb_false in E1.
    destruct (_ && _); [|destruct (Rltb _ _)]; split; (discriminate || lra).
Qed.

(** C5.  [calculateConfidence] returns ['none'] exactly when |d| > t;
    otherwise ['high'] exactly when |d| < 0.3 t and d2 > 0.6 t; otherwise
    ['medium'] exactly when |d| < 0.6 t; otherwise ['low'].  And
    [assignSingleShift] leaves the peak unassigned with confidence
    ['none'] exactly when every candidate, however many there are, is
    farther than the tolerance, that is when the best one is. *)
Theorem confidence_levels :
  (forall d t d2,
     let c := calculateConfidence d t d2 in
     (c = none <-> t < Rabs d)
     /\ (c = high <->
         ~ t < Rabs d /\ Rabs d < 0.3 * t /\ distance_gt d2 (0.6 * t))
     /\ (c = medium <->
         ~ t < Rabs d /\ ~ (Rabs d < 0.3 * t /\ distance_gt d2 (0.6 * t))
         /\ Rabs d < 0.6 * t)
     /\ (c = low <->
         ~ t < Rabs d /\ ~ (Rabs d < 0.3 * t /\ distance_gt d2 (0.6 * t))
         /\ ~ Rabs d < 0.6 * t))
  /\ (forall observedShift predictions tolerance,
        let a := assignSingleShift observedShift predictions tolerance in
        let tooFar :=
          Forall (fun p => tolerance < Rabs (observedShift - predicted_shift p))
                 predictions in
        (confidence a = none <-> tooFar) /\ (assigned a = false <-> tooFar)).
Proof.
  split.
  - intros d t d2 c. subst c. unfold calculateConfidence. cbv zeta.
    rewrite <- (distance_gtb_true d2 (0.6 * t)).
    replace (t * 0.3) with (0.3 * t) by lra.
    replace (t * 0.6) with (0.6 * t) by lra.
    destruct (Rltb t (Rabs d)) eqn:E1;
      [apply Rltb_true in E1 | apply Rltb_false in E1].
    { repeat split; intros; try discriminate; try done; try lra;
        destruct_and?; lra. }
    destruct (Rltb (Rabs d) (0.3 * t)) eqn:E2;
      [apply Rltb_true in E2 | apply Rltb_false in E2];
      destruct (distance_gtb d2 (0.6 * t)) eqn:E3; simpl;
      destruct (Rltb (Rabs d) (0.6 * t)) eqn:E4;
      try (apply Rltb_true in E4); try (apply Rltb_false in E4);
      repeat split; intros; try discriminate; try done; try lra;
      destruct_and?; try lra; try done;
      try (intros [? ?]; (lra || done)); try (intros ?; lra).
  - intros observedShift predictions tolerance a tooFar. subst a tooFar.
    destruct (sortedCandidates observedShift predictions) as [|best rest] eqn:Hs.
    { apply sortedCandidates_nil in Hs. subst predictions.
      rewrite assignSingleShift_nil. simpl. split; split; done. }
    destruct (assignSingleShift_cons _ _ tolerance _ _ Hs) as (_ & Hc & Ha & _).
    destruct (sortedCandidates_best _ _ _ _ Hs) as ((p & Hp & Hbest) & Hleast).
    rewrite Ha, Hc.
    assert (Habs : Rabs (absDistance best) = absDistance best).
    { subst best. simpl. apply Rabs_Rabsolu. }
    assert (Hfar : tolerance < Rabs (absDistance best) <->
                   Forall (fun p => tolerance < Rabs (observedShift - predicted_shift p))
                          predictions).
    { rewrite Habs. split.
      - intros Hlt. eapply Forall_impl; [exact Hleast|]. simpl. intros; lra.
      - intros Hall. rewrite Forall_forall in Hall. specialize (Hall p Hp).
        subst best. simpl. exact Hall. }
    rewrite <- Hfar, <- calculateConfidence_none.
    split; [done|].
    destruct (calculateConfidence _ _ _); split; (done || discriminate).
Qed.

End Confidence.

(** ** Objects *)
Section ObjectFacts.
Context {V : Type}.
Implicit Types (o : list (string * V)) (k : string) (v : V).

Lemma obj_get_set_eq k v o : obj_get k (obj_set k v o) = Some v.
Proof.
  induction o as [|[k' v'] o IH]; simpl.
  - by rewrite String.eqb_refl.
  - destruct (String.eqb k k') eqn:E; simpl; rewrite E; auto.
Qed.

Lemma obj_get_set_ne k k' v o :
  k <> k' -> obj_get k' (obj_set k v o) = obj_get k' o.
Proof.
  intros Hne. induction o as [|[k0 v0] o IH]; simpl.
  - destruct (String.eqb k' k) eqn:E; [apply String.eqb_eq in E; congruence | done].
  - destruct (String.eqb k k0) eqn:E; simpl.
    + apply String.eqb_eq in E. subst k0.
      destruct (String.eqb k' k) eqn:E'; [apply String.eqb_eq in E'; congruence | done].
    + destruct (String.eqb k' k0); auto.
Qed.

(** A value stored in an object after [obj[k] = v] is [v] or was there
    before. *)
Lemma obj_set_elem k v o k' v' :
  (k', v') ∈ obj_set k v o -> v' = v \/ (k', v') ∈ o.
Proof.
  induction o as [|[k0 v0] o IH]; simpl.
  - rewrite list_elem_of_singleton. intros [= _ ->]. by left.
  - destruct (String.eqb k k0); rewrite !elem_of_cons.
    + intros [[= _ ->] | H]; auto.
    + intros [H | H]; auto. destruct (IH H); auto.
Qed.

End ObjectFacts.

(** An invariant of a loop holds after the loop. *)
Lemma fold_left_invariant {A B : Type} (P : B -> Prop) (f : B -> A -> B)
    (l : list A) (b : B) :
  P b -> (forall b a, P b -> P (f b a)) -> P (fold_left f l b).
Proof.
  intros Hb Hstep. revert b Hb.
  induction l as [|a l IH]; intros b Hb; simpl; auto.
Qed.

(** ** peakAssignment.js: the tolerance of a nucleus *)
Section Tolerance.
Import PeakAssignment.

Lemma DEFAULT_TOLERANCES_lookup nucleus :
  is_Some (DEFAULT_TOLERANCES !! nucleus) <-> nucleus ∈ listedNuclei.
Proof.
  unfold DEFAULT_TOLERANCES, listedNuclei.
  rewrite !lookup_insert_is_Some, lookup_empty, is_Some_alt.
  rewrite !elem_of_cons, elem_of_nil. intuition congruence.
Qed.

(** Away from the inherited members the read is that of the own
    properties. *)
Lemma toleranceRead_own tolerances nucleus :
  nucleus ∉ objectPrototypeMembers ->
  toleranceRead tolerances nucleus = NumberValue (toleranceFor tolerances nucleus).
Proof.
  intros Hnot. unfold toleranceRead, toleranceFor, readProperty.
  destruct (tolerances !! nucleus); [done|].
  rewrite decide_False by done.
  by destruct (DEFAULT_TOLERANCES !! nucleus).
Qed.

(** The label ['toString'] is none of the listed nuclei, and with no
    tolerance given for it the tolerance [assignPeaks] takes is the member
    [toString] every object inherits, not 1.0. *)
Lemma inherited_member_taken_as_tolerance :
  ("toString"%string ∉ listedNuclei)
  /\ (∅ : gmap string R) !! "toString"%string = None
  /\ toleranceRead ∅ "toString" = InheritedMember "toString"
  /\ toleranceRead ∅ "toString" <> NumberValue 1.0.
Proof.
  split; [|split; [reflexivity|split; [reflexivity|discriminate]]].
  unfold listedNuclei. rewrite !elem_of_cons, elem_of_nil.
  intros [H|[H|[H|[H|[H|[]]]]]]; discriminate H.
Qed.

(** C10.  For a nucleus label that is none of 1H, 13C, 15N, 19F, 31P,
    that names no member a plain object inherits ([toString],
    [constructor] and the like) and for which the caller gives no
    tolerance, [assignPeaks] works with a tolerance of 1.0 ppm: that is
    what the property reads yield, and the turn of the loop for this
    nucleus is the assignment of its sorted shifts with tolerance 1. *)
Theorem unlisted_nucleus_tolerance (tolerances : gmap string R) (nucleus : string)
    (predictions : list (string * list Prediction))
    (assignments : list (string * list Assignment)) (usedPredictions : gset string)
    (shifts : list R) :
  nucleus ∉ listedNuclei ->
  nucleus ∉ objectPrototypeMembers ->
  tolerances !! nucleus = None ->
  toleranceRead tolerances nucleus = NumberValue 1
  /\ toleranceFor tolerances nucleus = 1
  /\ assignNucleus predictions tolerances (assignments, usedPredictions) (nucleus, shifts)
     = (let '(pushed, usedPredictions') :=
          fold_left (assignShift nucleus (default [] (obj_get nucleus predictions)) 1)
                    (stable_sort numeric_le shifts) ([], usedPredictions) in
        (obj_set nucleus pushed assignments, usedPredictions')).
Proof.
  intros Hnot Hplain Hnone.
  assert (Htol : toleranceFor tolerances nucleus = 1).
  { unfold toleranceFor. rewrite Hnone.
    destruct (DEFAULT_TOLERANCES !! nucleus) as [t|] eqn:E; [|lra].
    exfalso. apply Hnot, DEFAULT_TOLERANCES_lookup. eauto. }
  split; [by rewrite toleranceRead_own, Htol|].
  split; [done|].
  unfold assignNucleus. by rewrite Htol.
Qed.

Lemma unlisted_nucleus_tolerance_witness :
  toleranceRead ∅ "2H" = NumberValue 1
  /\ toleranceFor ∅ "2H" = 1
  /\ assignNucleus [] ∅ ([], ∅) ("2H"%string, [4.7])
     = (let '(pushed, usedPredictions') :=
          fold_left (assignShift "2H" (default [] (obj_get "2H"%string [])) 1)
                    (stable_sort numeric_le [4.7]) ([], ∅) in
        (obj_set "2H" pushed [], usedPredictions')).
Proof.
  apply (unlisted_nucleus_tolerance ∅ "2H" [] [] ∅ [4.7]).
  - unfold listedNuclei. rewrite !elem_of_cons, elem_of_nil.
    intros [H|[H|[H|[H|[H|[]]]]]]; discriminate H.
  - unfold objectPrototypeMembers. rewrite !elem_of_cons, elem_of_nil.
    intros H. repeat (destruct H as [H|H]; [discriminate H|]). destruct H.
  - reflexivity.
Defined.

End Tolerance.

(** ** peakAssignment.js: one resonance, one peak *)
Section Injectivity.
Import PeakAssignment.

(** An assigned peak carries the ids of one of the predictions it was
    offered. *)
Lemma assignSingleShift_assigned observedShift predictions tolerance :
  let a := assignSingleShift observedShift predictions tolerance in
  assigned a = true ->
  exists p, p ∈ predictions
            /\ a_buffer_id a = Some (p_buffer_id p)
            /\ a_resonance_id a = Some (p_resonance_id p).
Proof.
  intros a Ha. subst a.
  destruct (sortedCandidates observedShift predictions) as [|best rest] eqn:Hs.
  { apply sortedCandidates_nil in Hs. subst predictions. discriminate Ha. }
  destruct (assignSingleShift_cons _ _ tolerance _ _ Hs) as (_ & _ & _ & Hids).
  destruct (Hids Ha) as (Hb & Hr & _).
  destruct (sortedCandidates_best _ _ _ _ Hs) as ((p & Hp & Hbest) & _).
  exists p. subst best. auto.
Qed.

Lemma availablePredictions_elem usedPredictions nucleusPredictions p :
  p ∈ availablePredictions usedPredictions nucleusPredictions <->
  (keyOfPrediction p ∉ usedPredictions) /\ (p ∈ nucleusPredictions).
Proof. unfold availablePredictions. by rewrite list_elem_of_filter. Qed.

Lemma assignShift_distinctKeys nucleus nucleusPredictions tolerance st observedShift :
  distinctKeys st ->
  distinctKeys (assignShift nucleus nucleusPredictions tolerance st observedShift).
Proof.
  destruct st as [pushed used]. intros [Hused Hdistinct]. unfold assignShift.
  set (a := assignSingleShift observedShift
              (availablePredictions used nucleusPredictions) tolerance).
  assert (Hfresh : assigned a = true -> keyOfAssignment a ∉ used).
  { intros Ha.
    destruct (assignSingleShift_assigned _ _ _ Ha) as (p & Hp & Hb & Hr).
    apply availablePredictions_elem in Hp as [Hp _].
    fold a in Hb, Hr. unfold keyOfAssignment. rewrite Hb, Hr. exact Hp. }
  set (a' := withNucleus nucleus a).
  assert (Ha' : assigned a' = assigned a) by done.
  assert (Hk' : keyOfAssignment a' = keyOfAssignment a) by done.
  clearbody a'. unfold distinctKeys. cbn [fst snd] in *.
  split.
  - intros b Hb Hassigned. apply elem_of_app in Hb as [Hb|Hb].
    + specialize (Hused b Hb Hassigned). destruct (assigned a); set_solver.
    + apply list_elem_of_singleton in Hb. subst b.
      rewrite <- Ha', Hassigned, Hk'. set_solver.
  - intros i j b c Hi Hj Hb Hc Hkey.
    apply lookup_snoc_Some in Hi as [[_ Hi] | [-> <-]];
      apply lookup_snoc_Some in Hj as [[_ Hj] | [-> <-]].
    + eauto.
    + exfalso. rewrite Ha' in Hc. apply (Hfresh Hc). rewrite <- Hk', <- Hkey.
      apply Hused; [|done]. by eapply list_elem_of_lookup_2.
    + exfalso. rewrite Ha' in Hb. apply (Hfresh Hb). rewrite <- Hk', Hkey.
      apply Hused; [|done]. by eapply list_elem_of_lookup_2.
    + done.
Qed.

Lemma assignShifts_distinctKeys nucleus nucleusPredictions tolerance shifts used :
  distinctKeys
    (fold_left (assignShift nucleus nucleusPredictions tolerance) shifts ([], used)).
Proof.
  apply fold_left_invariant.
  - split; simpl; [intros a Ha; by apply elem_of_nil in Ha | intros i j a b Hi; done].
  - intros. by apply assignShift_distinctKeys.
Qed.

(** The ids determine the key. *)
Lemma same_ids_same_key a b :
  a_buffer_id a = a_buffer_id b -> a_resonance_id a = a_resonance_id b ->
  keyOfAssignment a = keyOfAssignment b.
Proof. unfold keyOfAssignment. by intros -> ->. Qed.

Lemma assignAll_distinctKeys predictions tolerances observedShifts nucleus l :
  (nucleus, l) ∈ (assignAll predictions tolerances observedShifts).1 ->
  exists used, distinctKeys (l, used).
Proof.
  unfold assignAll.
  apply (fold_left_invariant
           (fun st => forall nucleus l, (nucleus, l) ∈ st.1 ->
                                        exists used, distinctKeys (l, used))).
  - simpl. intros ? ? H. by apply elem_of_nil in H.
  - clear nucleus l. intros [assignments used] [nucleus shifts] IH nucleus' l.
    unfold assignNucleus.
    pose proof (assignShifts_distinctKeys nucleus
                  (default [] (obj_get nucleus predictions))
                  (toleranceFor tolerances nucleus)
                  (stable_sort numeric_le shifts) used) as Hinner.
    destruct (fold_left _ _ _) as [pushed used'] eqn:E. simpl.
    intros Hin. apply obj_set_elem in Hin as [-> | Hin]; eauto.
Qed.

(** C4.  In the result of one call of [assignPeaks], within the list of
    any nucleus, two different entries that are both assigned never carry
    the same (buffer_id, resonance_id) pair: no pair is given to two
    observed shifts of a nucleus. *)
Theorem assignPeaks_injective (observedShifts : list (string * list R))
    (buffers : list BufferModel.Buffer) (samplesMap : gmap string BufferModel.Sample)
    (pH temperature ionicStrength : R) (tolerances : gmap string R)
    (nucleus : string) (l : list Assignment) (i j : nat) (a b : Assignment) :
  (nucleus, l) ∈ assignPeaks observedShifts buffers samplesMap pH temperature
                   ionicStrength tolerances ->
  l !! i = Some a -> l !! j = Some b -> i <> j ->
  assigned a = true -> assigned b = true ->
  (a_buffer_id a, a_resonance_id a) <> (a_buffer_id b, a_resonance_id b).
Proof.
  unfold assignPeaks. intros Hl Hi Hj Hij Ha Hb [= Hbuf Hres].
  apply assignAll_distinctKeys in Hl as [used [_ Hdistinct]].
  apply Hij. eapply Hdistinct; eauto using same_ids_same_key.
Qed.

End Injectivity.

(** ** Evaluation on concrete data *)

(** Resolves the absolute values of closed arithmetic. *)
Ltac Rabs_eval :=
  repeat match goal with
  | |- context [Rabs ?x] =>
      first [ rewrite (Rabs_pos_eq x) by lra | rewrite (Rabs_left1 x) by lra ]
  end.

Lemma DEFAULT_TOLERANCES_1H : PeakAssignment.DEFAULT_TOLERANCES !! "1H"%string = Some 0.5.
Proof. reflexivity. Qed.

Lemma DEFAULT_TOLERANCES_13C : PeakAssignment.DEFAULT_TOLERANCES !! "13C"%string = Some 2.0.
Proof. reflexivity. Qed.

Lemma DEFAULT_TOLERANCES_19F : PeakAssignment.DEFAULT_TOLERANCES !! "19F"%string = Some 3.0.
Proof. reflexivity. Qed.

(** Settles what the evaluation of a small closed term leaves behind:
    lookups in the tables, membership in the set of used predictions,
    absolute values and comparisons. *)
Ltac settle :=
  repeat first
    [ progress cbv delta [PeakAssignment.byAbsDistance
                          PeakAssignment.calculateConfidence
                          PeakAssignment.keyOfPrediction
                          PeakAssignment.keyOfAssignment
                          PeakAssignment.predictionKey
                          PeakAssignment.availablePredictions
                          PeakAssignment.toleranceFor numeric_le]
    | progress Rabs_eval
    | progress Rcompare
    | progress cbn
    | rewrite lookup_empty
    | rewrite DEFAULT_TOLERANCES_1H
    | rewrite DEFAULT_TOLERANCES_13C
    | rewrite DEFAULT_TOLERANCES_19F
    | rewrite decide_True by (set_unfold; intuition discriminate)
    | rewrite decide_False by (set_unfold; intuition discriminate) ].

(** Evaluates the innermost turn of the loop over the sorted shifts: the
    one whose state is already a pair of values. *)
Ltac eval_assignShift :=
  match goal with
  | |- context [PeakAssignment.assignShift ?n ?p ?t (?l, ?u) ?o] =>
      let H := fresh in
      eassert (H : PeakAssignment.assignShift n p t (l, u) o = _)
        by (unfold PeakAssignment.assignShift, PeakAssignment.assignSingleShift;
            settle; reflexivity);
      rewrite H; clear H
  end.

(** Evaluates the innermost turn of the loop over the nuclei. *)
Ltac eval_assignNucleus :=
  match goal with
  | |- context [PeakAssignment.assignNucleus ?p ?t (?a, ?u) (?n, ?s)] =>
      let H := fresh in
      eassert (H : PeakAssignment.assignNucleus p t (a, u) (n, s) = _)
        by (unfold PeakAssignment.assignNucleus, PeakAssignment.toleranceFor, numeric_le;
            repeat first
              [ progress Rcompare
              | progress cbn [stable_sort insert_sorted obj_get String.eqb Ascii.eqb
                              Bool.eqb default from_option id]
              | rewrite lookup_empty
              | rewrite DEFAULT_TOLERANCES_1H
              | rewrite DEFAULT_TOLERANCES_13C
              | rewrite DEFAULT_TOLERANCES_19F ];
            repeat (cbn [fold_left]; eval_assignShift);
            cbn; reflexivity);
      rewrite H; clear H
  end.

(** Evaluates [assignAll] on predictions that are already known. *)
Ltac eval_assignAll :=
  unfold PeakAssignment.assignAll;
  repeat (cbn [fold_left]; eval_assignNucleus);
  cbn [fst snd].

(** ** peakAssignment.js: the predictions of the scenarios *)
Section ScenarioPredictions.
Import PeakAssignment.

(** Without a pKa there is one state, of fraction 1: each resonance is
    predicted at its limiting shift, at every pH, temperature and ionic
    strength. *)
Lemma tfa_predictions pH temperature ionicStrength :
  generatePredictions [Scenario.tfa] ∅ pH temperature ionicStrength
  = [ ("19F"%string, [prediction "tfa" "TFA" "CF3" (-75)]);
      ("13C"%string, [prediction "tfa" "TFA" "CF3" 116]) ].
Proof.
  cbn. unfold BufferModel.calculateLimitingShift. rewrite !lookup_empty. cbn.
  unfold prediction. repeat f_equal; lra.
Qed.

Lemma dss_predictions pH temperature ionicStrength :
  generatePredictions [Scenario.dss] ∅ pH temperature ionicStrength
  = [ ("1H"%string, [prediction "dss" "DSS" "CH3" 0;
                      prediction "dss" "DSS" "CH2" 0.6]) ].
Proof.
  cbn. unfold BufferModel.calculateLimitingShift. rewrite !lookup_empty. cbn.
  unfold prediction. repeat f_equal; lra.
Qed.

End ScenarioPredictions.

(** ** peakAssignment.js: two peaks of one nucleus *)
Section TwoPeaks.
Import PeakAssignment.

(** The peaks are taken in ascending order, whatever order they are given
    in, and each gets its own resonance. *)
Lemma two_peaks_assigned :
  assignPeaks [("1H"%string, [0.55; 0.05])] [Scenario.dss] ∅ 7 298.15 0.1 ∅
  = [("1H"%string, [peakCH3; peakCH2])].
Proof.
  unfold assignPeaks. rewrite dss_predictions.
  eval_assignAll. reflexivity.
Qed.

Lemma assignPeaks_injective_witness :
  (a_buffer_id peakCH3, a_resonance_id peakCH3)
  <> (a_buffer_id peakCH2, a_resonance_id peakCH2).
Proof.
  apply (assignPeaks_injective [("1H"%string, [0.55; 0.05])] [Scenario.dss] ∅
           7 298.15 0.1 ∅ "1H" [peakCH3; peakCH2] 0 1 peakCH3 peakCH2).
  - rewrite two_peaks_assigned. left.
  - reflexivity.
  - reflexivity.
  - lia.
  - reflexivity.
  - reflexivity.
Defined.

End TwoPeaks.

(** ** peakAssignment.js: predictions claimed under another nucleus *)
Section SharedUsedSet.
Import PeakAssignment.

(** The set of used predictions is one for the whole call, and its keys
    do not name the nucleus: a key claimed under one nucleus hides every
    prediction with that key from the nuclei that follow. *)
Lemma assignShift_excludes_used nucleus nucleusPredictions tolerance pushed used
    observedShift :
  Forall (fun p => keyOfPrediction p ∈ used) nucleusPredictions ->
  assignShift nucleus nucleusPredictions tolerance (pushed, used) observedShift
  = (pushed ++ [withNucleus nucleus (noPredictions observedShift)], used).
Proof.
  intros Hall. unfold assignShift.
  assert (availablePredictions used nucleusPredictions = []) as ->.
  { unfold availablePredictions.
    induction Hall as [|p l Hp Hall IH]; [done|].
    by rewrite filter_cons_False by (intros Hn; done). }
  done.
Qed.

(** C6, at a failing input.  The 19F peak claims the key [tfa:CF3]; the
    13C peak at 116.3 ppm then finds no candidate at all, although the 13C
    prediction at 116 ppm is within its tolerance of 2 ppm and was never
    claimed.  Assigned on its own, the same 13C peak is matched. *)
Theorem claimed_under_other_nucleus_is_excluded :
  assignPeaks [("19F"%string, [-75.2]); ("13C"%string, [116.3])]
              [Scenario.tfa] ∅ 7 298.15 0.1 ∅
  = [ ("19F"%string,
       [ {| observed_shift := -75.2; assigned := true; confidence := high;
            a_buffer_id := Some "tfa"%string; a_buffer_name := Some "TFA"%string;
            a_resonance_id := Some "CF3"%string; a_description := Some "resonance"%string;
            a_predicted_shift := Some (-75);
            residual := Some (-75.2 - -75);
            alternatives := Some []; nearest := None; message := None;
            a_nucleus := Some "19F"%string |} ]);
      ("13C"%string, [withNucleus "13C" (noPredictions 116.3)]) ]
  /\ obj_get "13C"%string
       (generatePredictions [Scenario.tfa] ∅ 7 298.15 0.1)
     = Some [prediction "tfa" "TFA" "CF3" 116]
  /\ (exists a,
        assignPeaks [("13C"%string, [116.3])] [Scenario.tfa] ∅ 7 298.15 0.1 ∅
        = [("13C"%string, [a])]
        /\ assigned a = true /\ a_resonance_id a = Some "CF3"%string).
Proof.
  unfold assignPeaks. rewrite !tfa_predictions.
  split; [|split].
  - eval_assignAll. reflexivity.
  - reflexivity.
  - eexists. split; [eval_assignAll; reflexivity|]. done.
Qed.

End SharedUsedSet.

(** ** Zero observations *)
Section NoObservations.
Import PeakAssignment.








End NoObservations.

(** ** fitting.js: the guard on the degrees of freedom *)
Section DegreesOfFreedom.
Import Fitting.

Lemma buildParameterVector_references conditions refs params parameterMap index :
  length
    (fold_left
       (fun '(params, parameterMap, index) '(nucleus, refine) =>
          if refine : bool
          then (params ++ [default 0 (obj_get nucleus (referenceOffsets conditions))],
                obj_set ("ref_" +:+ nucleus)
                        {| index := index;
                           name := nucleus +:+ " reference offset (ppm)" |}
                        parameterMap,
                S index)
          else (params, parameterMap, index))
       refs (params, parameterMap, index)).1.1
  = (length params + length (List.filter snd refs))%nat.
Proof.
  revert params parameterMap index.
  induction refs as [|[nucleus refine] refs IH]; intros params parameterMap index;
    simpl; [lia|].
  destruct refine; rewrite IH; simpl; [rewrite length_app; simpl|]; lia.
Qed.

Lemma countParameters_references refs count details :
  (fold_left
     (fun '(count, details) '(nucleus, refine) =>
        if refine : bool
        then (S count, details ++ [nucleus +:+ " reference"])
        else (count, details))
     refs (count, details)).1
  = (count + length (List.filter snd refs))%nat.
Proof.
  revert count details.
  induction refs as [|[nucleus refine] refs IH]; intros count details; simpl; [lia|].
  destruct refine; rewrite IH; simpl; lia.
Qed.

(** The parameter vector has one entry per free parameter, as
    [countParameters] of the validation counts them. *)
Lemma buildParameterVector_length conditions options :
  length (buildParameterVector conditions options).1
  = Validation.count (Validation.countParameters options).
Proof.
  unfold buildParameterVector, Validation.countParameters. cbv zeta.
  destruct (refineTemperature options), (refineIonicStrength options);
    match goal with
    | |- context [fold_left ?f ?refs (?p, ?m, ?i)] =>
        pose proof (buildParameterVector_references conditions refs p m i) as H;
        destruct (fold_left f refs (p, m, i)) as [[params pm] idx]
    end;
    match goal with
    | |- context [fold_left ?f ?refs (?c, ?d)] =>
        pose proof (countParameters_references refs c d) as H';
        destruct (fold_left f refs (c, d)) as [cnt dts]
    end; simpl in *; rewrite H, H'; lia.
Qed.

(** What the guard does, for every input with an assigned peak: below
    zero degrees of freedom the result is the failure, with the counts;
    from zero on the optimizer is called, on the initial parameters. *)
Lemma fitParameters_guard observedShifts buffers samplesMap initialConditions options :
  let assignments :=
    initialAssignments observedShifts buffers samplesMap initialConditions options in
  let nObs :=
    length (assignedPeaksOf observedShifts buffers samplesMap initialConditions options) in
  let nParams := length (initialParamsOf initialConditions options) in
  let dof := (Z.of_nat nObs - Z.of_nat nParams)%Z in
  nObs <> 0%nat ->
  ((dof < 0)%Z ->
   fitParameters observedShifts buffers samplesMap initialConditions options
   = Done (Failed {| error := Underdetermined nObs nParams dof;
                     ff_assignments := assignments;
                     nObservations := Some nObs;
                     nParameters := Some nParams;
                     degreesOfFreedom := Some dof |}))
  /\ ((0 <= dof)%Z ->
      exists call k,
        fitParameters observedShifts buffers samplesMap initialConditions options
        = Optimize call k
        /\ initialValues (lm_options call) = initialParamsOf initialConditions options
        /\ forall outcome, exists result, k outcome = Done result).
Proof.
  intros assignments nObs nParams dof HnObs.
  unfold fitParameters. cbv zeta.
  fold (initialAssignments observedShifts buffers samplesMap initialConditions options).
  fold (assignedPeaksOf observedShifts buffers samplesMap initialConditions options).
  fold nObs.
  destruct (Nat.eqb_spec nObs 0) as [|_]; [done|].
  subst nParams. unfold initialParamsOf in *.
  destruct (buildParameterVector _ _) as [initialParams parameterMap]. simpl in *.
  fold dof. split; intros Hdof.
  - destruct (Z.ltb_spec dof 0); [done | lia].
  - destruct (Z.ltb_spec dof 0); [lia|].
    eexists _, _. split; [reflexivity|]. split; [done|].
    intros outcome. cbv beta. destruct (_ ≫= _); eauto.
Qed.

(** C2.  When [fitParameters] gets as far as the degrees of freedom (some
    peak was assigned) and they are negative, the result is
    [success: false] with exactly the number of assigned peaks, the number
    of free parameters and their difference, and the optimizer is not
    called: the computation ends without an optimizer event, so whatever
    the optimizer is, the list of calls made to it is empty. *)
Theorem negative_degrees_of_freedom (observedShifts : list (string * list R))
    (buffers : list BufferModel.Buffer) (samplesMap : gmap string BufferModel.Sample)
    (initialConditions : InitialConditions) (options : CallerOptions) :
  let nObs :=
    length (assignedPeaksOf observedShifts buffers samplesMap initialConditions options) in
  let nParams := length (initialParamsOf initialConditions options) in
  let dof := (Z.of_nat nObs - Z.of_nat nParams)%Z in
  let failure :=
    Failed {| error := Underdetermined nObs nParams dof;
              ff_assignments :=
                initialAssignments observedShifts buffers samplesMap
                  initialConditions options;
              nObservations := Some nObs;
              nParameters := Some nParams;
              degreesOfFreedom := Some dof |} in
  nObs <> 0%nat ->
  (dof < 0)%Z ->
  nParams = Validation.count (Validation.countParameters (mergeOptions options))
  /\ success failure = false
  /\ fitParameters observedShifts buffers samplesMap initialConditions options
     = Done failure
  /\ (forall optimizer,
        run optimizer
          (fitParameters observedShifts buffers samplesMap initialConditions options)
        = (failure, [])).
Proof.
  intros nObs nParams dof failure HnObs Hdof.
  destruct (fitParameters_guard observedShifts buffers samplesMap initialConditions
              options HnObs) as [Hfail _].
  specialize (Hfail Hdof). fold nObs nParams dof failure in Hfail.
  repeat split.
  - apply buildParameterVector_length.
  - exact Hfail.
  - intros optimizer. by rewrite Hfail.
Qed.

Lemma one_fluorine_peak_assigned options :
  assignedPeaksOf oneFluorinePeak [Scenario.tfa] ∅ nominalConditions options
  = [fluorinePeak].
Proof.
  unfold assignedPeaksOf, initialAssignments, PeakAssignment.assignPeaks.
  rewrite tfa_predictions. unfold oneFluorinePeak.
  eval_assignAll. reflexivity.
Qed.

Lemma negative_degrees_of_freedom_witness :
  exists failure,
    fitParameters oneFluorinePeak [Scenario.tfa] ∅ nominalConditions refiningTemperature
    = Done (Failed failure)
    /\ nObservations failure = Some 1%nat
    /\ nParameters failure = Some 2%nat
    /\ degreesOfFreedom failure = Some (-1)%Z.
Proof.
  assert (HnObs : length (assignedPeaksOf oneFluorinePeak [Scenario.tfa] ∅
                            nominalConditions refiningTemperature) = 1%nat)
    by (by rewrite one_fluorine_peak_assigned).
  destruct (negative_degrees_of_freedom oneFluorinePeak [Scenario.tfa] ∅
              nominalConditions refiningTemperature) as (_ & _ & Hfit & _).
  - rewrite HnObs. lia.
  - rewrite HnObs. simpl. lia.
  - eexists. split; [exact Hfit|]. rewrite HnObs. simpl. done.
Defined.

(** With at least one assigned peak and degrees of freedom that are not
    negative, the optimizer is called exactly once. *)
Lemma fitParameters_calls_optimizer observedShifts buffers samplesMap
    initialConditions options optimizer :
  let nObs :=
    length (assignedPeaksOf observedShifts buffers samplesMap initialConditions options) in
  let nParams := length (initialParamsOf initialConditions options) in
  nObs <> 0%nat ->
  (0 <= Z.of_nat nObs - Z.of_nat nParams)%Z ->
  exists result call,
    run optimizer
      (fitParameters observedShifts buffers samplesMap initialConditions options)
    = (result, [call])
    /\ initialValues (lm_options call) = initialParamsOf initialConditions options.
Proof.
  intros nObs nParams HnObs Hdof.
  destruct (fitParameters_guard observedShifts buffers samplesMap initialConditions
              options HnObs) as [_ Hcall].
  destruct (Hcall Hdof) as (call & k & Hfit & Hinit & Hk).
  destruct (Hk (optimizer call)) as [result Hresult].
  exists result, call. split; [|done].
  rewrite Hfit. simpl. by rewrite Hresult.
Qed.

(** C3, a counterexample.  One assigned peak and the pH as the only free
    parameter: the degrees of freedom are exactly 0,
    [checkDegreesOfFreedom] calls that not valid, and yet [fitParameters]
    calls the optimizer, whatever the optimizer is, and with an optimizer
    that returns the start values the result is [success: true]. *)
Lemma zero_degrees_of_freedom_reach_optimizer :
  (Z.of_nat (length (assignedPeaksOf oneFluorinePeak [Scenario.tfa] ∅
                       nominalConditions noOptions))
   - Z.of_nat (length (initialParamsOf nominalConditions noOptions)) = 0)%Z
  /\ Validation.valid (Validation.checkDegreesOfFreedom 1 1) = false
  /\ (forall optimizer,
        length (run optimizer
                  (fitParameters oneFluorinePeak [Scenario.tfa] ∅
                     nominalConditions noOptions)).2 = 1%nat)
  /\ success (run keepInitialValues
                (fitParameters oneFluorinePeak [Scenario.tfa] ∅
                   nominalConditions noOptions)).1 = true.
Proof.
  assert (HnObs : length (assignedPeaksOf oneFluorinePeak [Scenario.tfa] ∅
                            nominalConditions noOptions) = 1%nat)
    by (by rewrite one_fluorine_peak_assigned).
  split; [|split; [|split]].
  - rewrite HnObs. reflexivity.
  - reflexivity.
  - intros optimizer.
    destruct (fitParameters_calls_optimizer oneFluorinePeak [Scenario.tfa] ∅
                nominalConditions noOptions optimizer) as (result & call & -> & _).
    + rewrite HnObs. lia.
    + rewrite HnObs. simpl. lia.
    + reflexivity.
  - unfold fitParameters. cbv zeta.
    fold (initialAssignments oneFluorinePeak [Scenario.tfa] ∅ nominalConditions
            noOptions).
    fold (assignedPeaksOf oneFluorinePeak [Scenario.tfa] ∅ nominalConditions
            noOptions).
    rewrite one_fluorine_peak_assigned. reflexivity.
Qed.

(** There is always a free parameter, the pH. *)
Lemma initialParams_not_empty initialConditions options :
  (1 <= length (initialParamsOf initialConditions options))%nat.
Proof.
  unfold initialParamsOf. rewrite buildParameterVector_length.
  unfold Validation.countParameters. cbv zeta.
  destruct (refineTemperature _), (refineIonicStrength _);
    match goal with
    | |- context [fold_left ?f ?refs (?c, ?d)] =>
        pose proof (countParameters_references refs c d) as H;
        destruct (fold_left f refs (c, d)) as [cnt dts]
    end; simpl in *; lia.
Qed.

(** Without an assigned peak the fitter ends before the guard. *)
Lemma fitParameters_no_peaks observedShifts buffers samplesMap initialConditions
    options :
  assignedPeaksOf observedShifts buffers samplesMap initialConditions options = [] ->
  fitParameters observedShifts buffers samplesMap initialConditions options
  = Done (Failed {| error := NoPeaksAssigned;
                    ff_assignments :=
                      initialAssignments observedShifts buffers samplesMap
                        initialConditions options;
                    nObservations := None;
                    nParameters := None;
                    degreesOfFreedom := None |}).
Proof.
  intros Hnone. unfold fitParameters. cbv zeta.
  fold (initialAssignments observedShifts buffers samplesMap initialConditions options).
  fold (assignedPeaksOf observedShifts buffers samplesMap initialConditions options).
  by rewrite Hnone.
Qed.

(** C3, as the code has it.  When the degrees of freedom, assigned peaks
    minus free parameters, are negative, the fitter reports a failure
    before any call of the optimizer: the underdetermined system, with
    the counts, when a peak was assigned, and that no peak could be
    assigned otherwise.  When they are zero or more, zero included, it
    calls the optimizer, once.  That zero degrees of freedom are not
    enough is what [checkDegreesOfFreedom] of the validation says, which
    the fitter does not consult. *)
Theorem underdetermined_guard_is_strict (observedShifts : list (string * list R))
    (buffers : list BufferModel.Buffer) (samplesMap : gmap string BufferModel.Sample)
    (initialConditions : InitialConditions) (options : CallerOptions) :
  let nObs :=
    length (assignedPeaksOf observedShifts buffers samplesMap initialConditions options) in
  let nParams := length (initialParamsOf initialConditions options) in
  let dof := (Z.of_nat nObs - Z.of_nat nParams)%Z in
  ((dof < 0)%Z ->
   forall optimizer, exists failure,
     run optimizer
       (fitParameters observedShifts buffers samplesMap initialConditions options)
     = (Failed failure, [])
     /\ error failure
        = if (nObs =? 0)%nat then NoPeaksAssigned
          else Underdetermined nObs nParams dof)
  /\ ((0 <= dof)%Z ->
      forall optimizer, exists result call,
        run optimizer
          (fitParameters observedShifts buffers samplesMap initialConditions options)
        = (result, [call])
        /\ initialValues (lm_options call) = initialParamsOf initialConditions options)
  /\ (Validation.valid
        (Validation.checkDegreesOfFreedom (Z.of_nat nObs) (Z.of_nat nParams)) = false
      <-> (dof <= 0)%Z).
Proof.
  intros nObs nParams dof.
  pose proof (initialParams_not_empty initialConditions options) as Hparams.
  fold nParams in Hparams.
  split; [|split].
  - intros Hdof optimizer. destruct (Nat.eqb_spec nObs 0) as [Hzero|HnObs].
    + apply length_zero_iff_nil in Hzero.
      rewrite (fitParameters_no_peaks _ _ _ _ _ Hzero).
      eexists. split; reflexivity.
    + destruct (fitParameters_guard observedShifts buffers samplesMap
                  initialConditions options HnObs) as [Hfail _].
      rewrite (Hfail Hdof). eexists. split; reflexivity.
  - intros Hdof optimizer.
    apply fitParameters_calls_optimizer; [|done].
    fold nObs. lia.
  - unfold Validation.checkDegreesOfFreedom. simpl. fold dof.
    destruct (Z.ltb_spec 0 dof); split; (done || lia).
Qed.

Lemma underdetermined_guard_is_strict_witness :
  exists result call,
    run keepInitialValues
      (fitParameters oneFluorinePeak [Scenario.tfa] ∅ nominalConditions noOptions)
    = (result, [call])
    /\ initialValues (lm_options call) = initialParamsOf nominalConditions noOptions.
Proof.
  assert (HnObs : length (assignedPeaksOf oneFluorinePeak [Scenario.tfa] ∅
                            nominalConditions noOptions) = 1%nat)
    by (by rewrite one_fluorine_peak_assigned).
  destruct (underdetermined_guard_is_strict oneFluorinePeak [Scenario.tfa] ∅
              nominalConditions noOptions) as (_ & Hcall & _).
  apply Hcall. rewrite HnObs. simpl. lia.
Defined.

End DegreesOfFreedom.

(** ** uncertainty.js: parameter uncertainties *)
Section Uncertainties.
Import Uncertainty.

(** A loop over a list that returns has returned at every element. *)
Lemma mapM_Returns {A B : Type} (f : A -> Throws B) (l : list A) (r : list B) :
  mapM f l = Returns r -> Forall2 (fun a b => f a = Returns b) l r.
Proof.
  revert r. induction l as [|a l IH]; intros r; simpl.
  - intros [= <-]. constructor.
  - destruct (f a) as [b|e] eqn:Hfa; simpl; [|discriminate].
    destruct (mapM f l) as [r'|e] eqn:Hl; simpl; [|discriminate].
    intros [= <-]. constructor; auto.
Qed.

Lemma uncertaintiesOrThrow_returns params residualFn residualVariance step us :
  uncertaintiesOrThrow params residualFn residualVariance step = Returns us ->
  length us = length params /\ Forall (fun u => 0 <= u) us.
Proof.
  unfold uncertaintiesOrThrow.
  destruct (calculateJacobian residualFn params step) as [jacobian|e]; simpl;
    [|discriminate].
  destruct (matrixTransposeProduct jacobian) as [JTJ|e]; simpl; [|discriminate].
  intros Hmap. apply mapM_Returns in Hmap. split.
  - apply Forall2_length in Hmap. by rewrite length_seq in Hmap.
  - eapply Forall2_Forall_r; [exact Hmap|].
    apply Forall_forall. intros i _ u.
    destruct (invertSymmetricMatrix JTJ !! i) as [row|]; [|discriminate].
    destruct (row !! i) as [c|]; intros [= <-]; [|lra].
    destruct (Rltb 0 (c * residualVariance)); [apply sqrt_pos | lra].
Qed.

(** C8, as the code has it.  [calculateParameterUncertainties] returns,
    for every residual function, one entry per parameter, none of them
    negative, and it never raises: whenever anything in the chain of
    Jacobian, product and inversion throws, the result is the all-zero
    vector.  A singular matrix does not make the chain throw: its pivot
    is raised to 1e-10 and the entries come out of the inversion that
    follows. *)
Theorem uncertainties_not_negative (params : list R)
    (residualFn : list R -> Throws (list R)) (residualVariance step : R) :
  let uncertainties :=
    calculateParameterUncertainties params residualFn residualVariance step in
  length uncertainties = length params
  /\ Forall (fun u => 0 <= u) uncertainties
  /\ (forall e,
        uncertaintiesOrThrow params residualFn residualVariance step = Throw e ->
        uncertainties = replicate (length params) 0).
Proof.
  intros uncertainties. subst uncertainties. unfold calculateParameterUncertainties.
  destruct (uncertaintiesOrThrow params residualFn residualVariance step)
    as [us|e] eqn:Hchain.
  - apply uncertaintiesOrThrow_returns in Hchain as [Hlen Hpos].
    repeat split; try done.
  - assert (Hzeros : map (fun _ : R => 0) params = replicate (length params) 0).
    { clear. induction params as [|p params IH]; simpl; [done | by rewrite IH]. }
    rewrite Hzeros. repeat split.
    + apply length_replicate.
    + apply Forall_replicate. lra.
Qed.

(** A residual function that throws: the result is zero for each
    parameter. *)
Lemma uncertainties_not_negative_witness :
  calculateParameterUncertainties [7; 298.15]
    (fun _ => Throw (Error "Resonance not found: CF3 in tfa")) 1 1e-6
  = [0; 0].
Proof.
  apply (uncertainties_not_negative [7; 298.15]
           (fun _ => Throw (Error "Resonance not found: CF3 in tfa")) 1 1e-6)
    with (e := Error "Resonance not found: CF3 in tfa").
  reflexivity.
Defined.

(** C8, a counterexample.  A residual that does not depend on the
    parameter: the Jacobian is zero, the 1 x 1 matrix JtJ is the zero
    matrix, which is singular, and the uncertainty that is returned is
    positive, not zero. *)
Lemma singular_matrix_uncertainty_not_zero :
  (exists jacobian,
     calculateJacobian (fun _ => Returns [0.1]) [7] 1e-6 = Returns jacobian
     /\ exists z, matrixTransposeProduct jacobian = Returns [[z]] /\ z = 0)
  /\ exists u,
       calculateParameterUncertainties [7] (fun _ => Returns [0.1]) 0.04 1e-6 = [u]
       /\ 0 < u.
Proof.
  assert (Hsqrt : 0 < sqrt 1e-10) by (apply sqrt_lt_R0; lra).
  split.
  - eexists. split; [reflexivity|]. cbn. eexists. split; [reflexivity|].
    unfold vget. cbn. lra.
  - unfold calculateParameterUncertainties, uncertaintiesOrThrow.
    cbn. unfold vget, mget. cbn.
    rewrite (proj2 (Rleb_true _ 0)) by lra. cbn.
    match goal with
    | |- context [Rltb 0 ?v] =>
        assert (Hv : 0 < v);
        [| rewrite (proj2 (Rltb_true 0 v) Hv);
           eexists; split; [reflexivity | by apply sqrt_lt_R0] ]
    end.
    apply Rmult_lt_0_compat; [|lra].
    rewrite Rplus_0_l.
    assert (0 < 1 / sqrt 1e-10) by (apply Rdiv_lt_0_compat; lra).
    by apply Rmult_lt_0_compat.
Qed.

End Uncertainties.

(** ** bufferModel.js: neighbouring ionisation states *)
Section HendersonHasselbalch.
Import BufferModel.

Lemma relative_fold_scale pH (l : list R) (acc : R) :
  fold_left (fun r pKa_j => r * pow10 (pKa_j - pH)) l acc
  = acc * fold_left (fun r pKa_j => r * pow10 (pKa_j - pH)) l 1.
Proof.
  revert acc. induction l as [|pk l IH]; intros acc; simpl; [lra|].
  rewrite IH, (IH (1 * _)). lra.
Qed.

Lemma relativePopulation_step pH pKaValues i pk :
  pKaValues !! i = Some pk ->
  relativePopulation pH pKaValues i
  = pow10 (pk - pH) * relativePopulation pH pKaValues (S i).
Proof.
  intros Hi. unfold relativePopulation.
  rewrite (drop_S _ _ _ Hi). simpl.
  rewrite relative_fold_scale. lra.
Qed.

(** Every fraction is the relative population of its state over the sum
    of them all. *)
Lemma ionisationFractions_lookup pH pKaValues i :
  (i <= length pKaValues)%nat ->
  ionisationFractions pH pKaValues !! i
  = Some (relativePopulation pH pKaValues i
          / Rsum (map (relativePopulation pH pKaValues)
                      (seq 0 (S (length pKaValues))))).
Proof.
  intros Hi. unfold ionisationFractions.
  destruct pKaValues as [|pk0 pKaValues].
  { simpl in *. assert (i = 0%nat) as -> by lia. simpl.
    unfold relativePopulation. simpl. f_equal. lra. }
  replace (length (pk0 :: pKaValues) + 1)%nat
    with (S (length (pk0 :: pKaValues))) by lia.
  change (Nat.eqb (S (length (pk0 :: pKaValues))) 1) with false. cbv iota zeta.
  rewrite fold_left_Rplus, Rplus_0_l.
  rewrite list_lookup_fmap, list_lookup_fmap.
  rewrite lookup_seq_lt by (simpl in *; lia). done.
Qed.

(** X1.  Henderson-Hasselbalch: the fractions of two neighbouring states
    are in the ratio 10^(pKa - pH) of the pKa between them, the more
    protonated state to the less protonated one; at a pH equal to that
    pKa the two states are equally populated. *)
Theorem neighbouring_states_ratio (pH : R) (pKaValues : list R) (i : nat) (pk : R) :
  pKaValues !! i = Some pk ->
  exists fi fj,
    ionisationFractions pH pKaValues !! i = Some fi
    /\ ionisationFractions pH pKaValues !! S i = Some fj
    /\ fi = fj * Rpower 10 (pk - pH)
    /\ (pH = pk -> fi = fj).
Proof.
  intros Hi.
  assert (Hlt : (i < length pKaValues)%nat) by (by eapply lookup_lt_Some).
  eexists _, _. split; [apply ionisationFractions_lookup; lia|].
  split; [apply ionisationFractions_lookup; lia|].
  rewrite (relativePopulation_step pH pKaValues i pk Hi). unfold pow10.
  split; [unfold Rdiv; lra|].
  intros ->. replace (pk - pk) with 0 by lra.
  rewrite Rpower_O by lra. unfold Rdiv. lra.
Qed.

Lemma neighbouring_states_ratio_witness :
  exists fi fj,
    ionisationFractions 6.8 [2.1; 6.8; 12.3] !! 1%nat = Some fi
    /\ ionisationFractions 6.8 [2.1; 6.8; 12.3] !! 2%nat = Some fj
    /\ fi = fj * Rpower 10 (6.8 - 6.8)
    /\ (6.8 = 6.8 -> fi = fj).
Proof.
  apply (neighbouring_states_ratio 6.8 [2.1; 6.8; 12.3] 1 6.8).
  reflexivity.
Defined.

End HendersonHasselbalch.

(** ** bufferModel.js: the predicted shift *)
Section PredictedShift.
Import BufferModel.

Lemma predictShift_fold resonance pKaValues pH T ionic Tref Iref :
  predictShift resonance pKaValues pH T ionic Tref Iref
  = fold_left (addLimitingShift (ionisationFractions pH pKaValues) T ionic Tref Iref)
              (limiting_shifts resonance) 0.
Proof. reflexivity. Qed.

(** The limiting shifts of the states [k, k+1, ...], weighted with the
    fractions [fs] of these states, add an amount between the weight
    times [lo] and the weight times [hi]. *)
Lemma weighted_shifts_between fractions T ionic Tref Iref lo hi :
  forall (lss : list LimitingShift) (fs : list R) (k : nat) (acc : R),
    map ionisation_state lss = seq k (length fs) ->
    (forall j, fs !! j = fractions !! (k + j)%nat) ->
    Forall (fun f => 0 <= f) fs ->
    Forall (fun ls => lo <= calculateLimitingShift ls T ionic Tref Iref <= hi) lss ->
    acc + Rsum fs * lo
    <= fold_left (addLimitingShift fractions T ionic Tref Iref) lss acc
    <= acc + Rsum fs * hi.
Proof.
  induction lss as [|ls lss IH]; intros fs k acc Hstates Hfs Hpos Hbounds.
  - destruct fs; [|discriminate]. unfold Rsum. simpl. lra.
  - destruct fs as [|f fs]; [discriminate|].
    simpl in Hstates. injection Hstates as Hstate Hstates.
    apply Forall_cons in Hpos as [Hf Hpos].
    apply Forall_cons in Hbounds as [Hls Hbounds].
    pose proof (Hfs 0%nat) as H0. simpl in H0. rewrite Nat.add_0_r in H0.
    assert (Hstep : addLimitingShift fractions T ionic Tref Iref acc ls
                    = acc + f * calculateLimitingShift ls T ionic Tref Iref).
    { unfold addLimitingShift. by rewrite Hstate, <- H0. }
    simpl. rewrite Hstep.
    specialize (IH fs (S k)
                  (acc + f * calculateLimitingShift ls T ionic Tref Iref)
                  Hstates).
    destruct IH as [IHlo IHhi]; [|done|done|].
    { intros j. specialize (Hfs (S j)). simpl in Hfs.
      by rewrite Nat.add_succ_r in Hfs. }
    assert (f * lo <= f * calculateLimitingShift ls T ionic Tref Iref)
      by (apply Rmult_le_compat_l; lra).
    assert (f * calculateLimitingShift ls T ionic Tref Iref <= f * hi)
      by (apply Rmult_le_compat_l; lra).
    change (Rsum (f :: fs)) with (f + Rsum fs).
    rewrite !Rmult_plus_distr_r. lra.
Qed.

(** X2.  Over the reals, the predicted shift is a weighted mean of the
    limiting shifts: for a resonance that lists one limiting shift per
    ionisation state, in the order of the states, it lies between any two
    bounds that hold the corrected limiting shifts of all states.  (In
    rounded arithmetic the weights need not sum to 1 exactly, and the
    bounds can be missed in the last digit.) *)
Theorem predictShift_between_limiting_shifts (resonance : Resonance)
    (pKaValues : list R) (pH T ionic Tref Iref lo hi : R) :
  map ionisation_state (limiting_shifts resonance) = seq 0 (S (length pKaValues)) ->
  Forall (fun ls => lo <= calculateLimitingShift ls T ionic Tref Iref <= hi)
         (limiting_shifts resonance) ->
  lo <= predictShift resonance pKaValues pH T ionic Tref Iref <= hi.
Proof.
  intros Hstates Hbounds. rewrite predictShift_fold.
  destruct (ionisationFractions_distribution pH pKaValues) as (Hlen & Hpos & Hsum).
  pose proof (weighted_shifts_between (ionisationFractions pH pKaValues) T ionic Tref Iref
                lo hi (limiting_shifts resonance) (ionisationFractions pH pKaValues)
                0 0) as H.
  rewrite Hlen, Hsum in H.
  destruct H as [Hlo Hhi]; try done.
  - eapply Forall_impl; [exact Hpos|]. simpl. intros; lra.
  - lra.
Qed.

Lemma predictShift_between_limiting_shifts_witness :
  3.0 <= predictShift
           {| resonance_id := "CH3"; description := "methyl";
              limiting_shifts :=
                [ {| ionisation_state := 0; shift_ppm := Num 3.5;
                     temperature_coefficient_ppm_per_K := None;
                     ionic_strength_coefficient_ppm_per_M := None |};
                  {| ionisation_state := 1; shift_ppm := Num 3.0;
                     temperature_coefficient_ppm_per_K := None;
                     ionic_strength_coefficient_ppm_per_M := None |} ] |}
           [6.8] 7 298.15 0.15 298.15 0.15 <= 3.5.
Proof.
  apply predictShift_between_limiting_shifts.
  - reflexivity.
  - repeat constructor; unfold calculateLimitingShift; simpl; lra.
Defined.

(** A limiting shift whose state index is beyond the last state
    contributes nothing: the prediction is the one of the resonance
    without these entries. *)
Lemma predictShift_ignores_states_out_of_range (resonance : Resonance)
    (pKaValues : list R) (pH T ionic Tref Iref : R) :
  predictShift resonance pKaValues pH T ionic Tref Iref
  = predictShift
      {| resonance_id := resonance_id resonance;
         description := description resonance;
         limiting_shifts :=
           filter (fun ls => (ionisation_state ls <= length pKaValues)%nat)
                  (limiting_shifts resonance) |}
      pKaValues pH T ionic Tref Iref.
Proof.
  rewrite !predictShift_fold. simpl.
  destruct (ionisationFractions_distribution pH pKaValues) as (Hlen & _ & _).
  assert (Hfold : forall lss acc,
            fold_left (addLimitingShift (ionisationFractions pH pKaValues)
                         T ionic Tref Iref) lss acc
            = fold_left (addLimitingShift (ionisationFractions pH pKaValues)
                           T ionic Tref Iref)
                (filter (fun ls => (ionisation_state ls <= length pKaValues)%nat) lss)
                acc).
  { induction lss as [|ls lss IH]; intros acc; [done|].
    simpl. rewrite filter_cons. destruct (decide _) as [Hin|Hout]; simpl.
    - apply IH.
    - rewrite <- IH. f_equal. unfold addLimitingShift.
      rewrite lookup_ge_None_2 by (rewrite Hlen; lia). simpl. lra. }
  apply Hfold.
Qed.

End PredictedShift.

(** ** bufferModel.js: the pKa values of a buffer *)
Section BufferPKaValues.
Import BufferModel.

(** X3.  [getBufferPKaValues] returns the corrected pKa of every
    parameter record of the buffer, each once, in ascending order: as
    many values as records, so that [ionisationFractions] has one state
    more than the buffer has records. *)
Theorem getBufferPKaValues_sorted (buffer : Buffer) (T ionic Tref : R) :
  let pKaValues := getBufferPKaValues buffer T ionic Tref in
  StronglySorted Rle pKaValues
  /\ pKaValues ≡ₚ map (fun p => calculatePKa p T ionic Tref) (pKa_parameters buffer)
  /\ forall pH,
       length (ionisationFractions pH pKaValues)
       = S (length (pKa_parameters buffer)).
Proof.
  intros pKaValues. subst pKaValues. unfold getBufferPKaValues.
  split; [|split].
  - apply (stable_sort_strongly (fun x : R => x)).
  - apply stable_sort_perm.
  - intros pH.
    destruct (ionisationFractions_distribution pH
                (stable_sort numeric_le
                   (map (fun p => calculatePKa p T ionic Tref) (pKa_parameters buffer))))
      as (-> & _ & _).
    by rewrite stable_sort_length, length_map.
Qed.

Lemma LN10_pos : 0 < LN10.
Proof. unfold LN10. rewrite <- ln_1. apply ln_increasing; lra. Qed.

(** X4.  Without a heat capacity term, heating above the reference
    temperature lowers the pKa when the enthalpy of ionisation is
    positive, raises it when the enthalpy is negative, and leaves it as
    it is when the enthalpy is zero (van 't Hoff). *)
Theorem enthalpy_sets_direction (p : PKaParams) (T Tref : R) :
  getValue (default (Num 0) (dCp_J_mol_K p)) = 0 ->
  0 < Tref < T ->
  let dH := getValue (default (Num 0) (dH_kJ_mol p)) in
  (0 < dH -> calculatePKaTemperature p T Tref < getValue (pKa p))
  /\ (dH < 0 -> getValue (pKa p) < calculatePKaTemperature p T Tref)
  /\ (dH = 0 -> calculatePKaTemperature p T Tref = getValue (pKa p)).
Proof.
  intros HdCp [HTref HT] dH. unfold calculatePKaTemperature. cbv zeta.
  rewrite HdCp. rewrite (proj2 (Reqb_true 0 0)) by done. simpl.
  fold dH.
  assert (Hinv : 1 / T - 1 / Tref < 0).
  { unfold Rdiv. rewrite !Rmult_1_l.
    assert (/ T < / Tref) by (apply Rinv_0_lt_contravar; lra). lra. }
  assert (Hk : 0 < R_gas * LN10).
  { apply Rmult_lt_0_compat; [unfold R_gas; lra | apply LN10_pos]. }
  assert (Hik : 0 < / (R_gas * LN10)) by (by apply Rinv_0_lt_compat).
  repeat split; intros HdH.
  - rewrite (proj2 (Reqb_false (dH * 1000) 0)) by lra. simpl.
    assert (0 < dH * 1000 / (R_gas * LN10))
      by (apply Rdiv_lt_0_compat; lra).
    assert (dH * 1000 / (R_gas * LN10) * (1 / T - 1 / Tref) < 0)
      by (apply Rmult_pos_neg; lra).
    lra.
  - rewrite (proj2 (Reqb_false (dH * 1000) 0)) by lra. simpl.
    assert (dH * 1000 / (R_gas * LN10) < 0)
      by (apply Rmult_neg_pos; lra).
    assert (0 < dH * 1000 / (R_gas * LN10) * (1 / T - 1 / Tref))
      by (apply Rmult_neg_neg; lra).
    lra.
  - rewrite (proj2 (Reqb_true (dH * 1000) 0)) by lra. done.
Qed.

Lemma enthalpy_sets_direction_witness :
  calculatePKaTemperature
    {| pKa := Num 7.2; dH_kJ_mol := Some (Num 3.6); dCp_J_mol_K := None;
       protonated_charge := Some (-1); ion_size_angstrom := None;
       ionic_strength_coefficient_per_M := None; ionic_strength_model := None |}
    310.15 298.15 < 7.2.
Proof.
  apply (enthalpy_sets_direction
           {| pKa := Num 7.2; dH_kJ_mol := Some (Num 3.6); dCp_J_mol_K := None;
              protonated_charge := Some (-1); ion_size_angstrom := None;
              ionic_strength_coefficient_per_M := None;
              ionic_strength_model := None |} 310.15 298.15).
  - reflexivity.
  - lra.
  - simpl. lra.
Defined.

End BufferPKaValues.

(** ** bufferModel.js: ionic strength and charge *)
Section IonicStrengthCorrection.
Import BufferModel.

(** X5.  The Davies and the extended Debye-Hueckel correction depend on
    the charge through 2 - 2 z: for an acid of charge +1, which loses its
    charge with the proton, both vanish at every ionic strength, and
    [calculatePKa] with one of the two models is the temperature
    correction alone. *)
Theorem no_correction_for_charge_one (p : PKaParams) (T ionic Tref : R) :
  protonated_charge p = Some 1 ->
  calculatePKaIonicStrengthDavies p ionic = 0
  /\ calculatePKaIonicStrengthExtendedDH p ionic = 0
  /\ (ionic_strength_model p = None
      \/ ionic_strength_model p = Some "davies"%string
      \/ ionic_strength_model p = Some "extended_debye_huckel"%string ->
      calculatePKa p T ionic Tref = calculatePKaTemperature p T Tref).
Proof.
  intros Hz.
  assert (HD : calculatePKaIonicStrengthDavies p ionic = 0).
  { unfold calculatePKaIonicStrengthDavies. rewrite Hz. simpl.
    destruct (Rleb ionic 0); [done|]. lra. }
  assert (HE : calculatePKaIonicStrengthExtendedDH p ionic = 0).
  { unfold calculatePKaIonicStrengthExtendedDH. rewrite Hz. simpl.
    destruct (Rleb ionic 0); [done|]. lra. }
  repeat split; try done.
  unfold calculatePKa. cbv zeta. rewrite HD, HE.
  intros [-> | [-> | ->]]; simpl; lra.
Qed.

Lemma no_correction_for_charge_one_witness :
  calculatePKaIonicStrengthDavies
    {| pKa := Num 8.07; dH_kJ_mol := Some (Num 47.45); dCp_J_mol_K := None;
       protonated_charge := Some 1; ion_size_angstrom := None;
       ionic_strength_coefficient_per_M := None; ionic_strength_model := None |}
    0.15 = 0.
Proof.
  apply (no_correction_for_charge_one
           {| pKa := Num 8.07; dH_kJ_mol := Some (Num 47.45); dCp_J_mol_K := None;
              protonated_charge := Some 1; ion_size_angstrom := None;
              ionic_strength_coefficient_per_M := None;
              ionic_strength_model := None |} 298.15 0.15 298.15).
  reflexivity.
Defined.

End IonicStrengthCorrection.

(** ** bufferModel.js: shift curves *)
Section ShiftCurves.
Import BufferModel.

Lemma sampleCurve_step fuel shiftAt pH pHMax pHStep :
  sampleCurve (S fuel) shiftAt pH pHMax pHStep
  = if Rleb pH pHMax then
      match sampleCurve fuel shiftAt (pH + pHStep) pHMax pHStep with
      | Some (pHValues, shifts) => Some (pH :: pHValues, shiftAt pH :: shifts)
      | None => None
      end
    else Some ([], []).
Proof. reflexivity. Qed.


(** A loop that does not advance and has started never ends. *)
Lemma sampleCurve_never_ends shiftAt pHMax pHStep :
  pHStep <= 0 ->
  forall (fuel : nat) (pH : R),
    pH <= pHMax -> sampleCurve fuel shiftAt pH pHMax pHStep = None.
Proof.
  intros Hstep. induction fuel as [|fuel IH]; intros pH Hle; [done|].
  rewrite sampleCurve_step. rewrite (proj2 (Rleb_true pH pHMax)) by done.
  rewrite IH by lra. done.
Qed.



(** X7.  With a step that is zero or negative and [pHMin <= pHMax], for
    a nucleus the buffer has a resonance of, the loop of the first
    resonance never ends: no number of turns gives a result. *)
Theorem generateShiftCurves_never_ends (buffer : Buffer) (nucleus : string)
    (T ionic : R) (sample : option Sample) (pHMin pHMax pHStep : R) (fuel : nat) :
  pHStep <= 0 -> pHMin <= pHMax ->
  default [] (obj_get nucleus (chemical_shifts buffer)) <> [] ->
  generateShiftCurves fuel buffer nucleus T ionic sample pHMin pHMax pHStep = None.
Proof.
  intros Hstep Hle Hres. unfold generateShiftCurves. cbv zeta.
  destruct (default [] (obj_get nucleus (chemical_shifts buffer)))
    as [|resonance resonances]; [done|].
  cbn [mapM]. by rewrite sampleCurve_never_ends.
Qed.

Lemma generateShiftCurves_never_ends_witness :
  generateShiftCurves 1000 Scenario.tfa "19F" 298.15 0.1 None 2 12 0 = None.
Proof.
  apply (generateShiftCurves_never_ends Scenario.tfa "19F" 298.15 0.1 None 2 12 0 1000).
  - lra.
  - lra.
  - discriminate.
Defined.

End ShiftCurves.

(** ** Loops and objects, continued *)

Lemma obj_get_set_inv {V : Type} (k k' : string) (v l : V) (o : list (string * V)) :
  obj_get k (obj_set k' v o) = Some l ->
  (k = k' /\ l = v) \/ (k <> k' /\ obj_get k o = Some l).
Proof.
  destruct (decide (k = k')) as [->|Hne].
  - rewrite obj_get_set_eq. intros [= ->]. by left.
  - rewrite obj_get_set_ne by done. by right.
Qed.

(** An invariant of a loop holds after the loop, when every turn on an
    element of the list keeps it. *)
Lemma fold_left_invariant_elem {A B : Type} (P : B -> Prop) (f : B -> A -> B)
    (l : list A) (b : B) :
  P b -> (forall b a, a ∈ l -> P b -> P (f b a)) -> P (fold_left f l b).
Proof.
  revert b. induction l as [|a l IH]; intros b Hb Hstep; simpl; [done|].
  apply IH.
  - apply Hstep; [left | done].
  - intros b' a' Ha'. apply Hstep. by right.
Qed.

(** An entry of an object after [obj[k] = v] is the new one or was there
    before. *)
Lemma obj_set_elem_key {V : Type} (k : string) (v : V) (o : list (string * V))
    (k' : string) (v' : V) :
  (k', v') ∈ obj_set k v o -> (k' = k /\ v' = v) \/ (k', v') ∈ o.
Proof.
  induction o as [|[k0 v0] o IH]; simpl.
  - rewrite list_elem_of_singleton. intros [= -> ->]. by left.
  - destruct (String.eqb k k0) eqn:E; rewrite !elem_of_cons.
    + apply String.eqb_eq in E. subst k0. intros [[= -> ->] | H]; auto.
    + intros [H | H]; auto. destruct (IH H); auto.
Qed.

(** ** peakAssignment.js: what an assignment records *)
Section AssignmentRecord.
Import PeakAssignment.

(** The record [assignSingleShift] builds from the sorted candidates. *)
Lemma assignSingleShift_record observedShift predictions tolerance best rest :
  sortedCandidates observedShift predictions = best :: rest ->
  let a := assignSingleShift observedShift predictions tolerance in
  let c := calculateConfidence (absDistance best) tolerance (nextBestDistanceOf rest) in
  (c = none ->
   a_buffer_id a = None /\ a_resonance_id a = None /\ a_predicted_shift a = None
   /\ residual a = None /\ alternatives a = None
   /\ nearest a = Some (candidate best)
   /\ message a = Some (NoPredictionWithinTolerance
                          (p_buffer_name (wd_prediction best))
                          (p_resonance_id (wd_prediction best))
                          (predicted_shift (wd_prediction best))))
  /\ (c <> none ->
      nearest a = None /\ message a = None
      /\ alternatives a
         = Some (match c, head rest with
                 | high, _ => []
                 | _, Some nb =>
                     if Rltb (absDistance nb) tolerance then [candidate nb] else []
                 | _, None => []
                 end)).
Proof.
  intros Hs. unfold assignSingleShift.
  destruct predictions as [|p0 predictions]; [discriminate Hs|].
  unfold sortedCandidates, withDistance in Hs. rewrite Hs.
  fold (nextBestDistanceOf rest).
  destruct (calculateConfidence (absDistance best) tolerance (nextBestDistanceOf rest));
    simpl; split; intros; try done; repeat split; done.
Qed.

Lemma absDistance_not_negative observedShift p :
  Rabs (absDistance (withDistance observedShift p))
  = Rabs (observedShift - predicted_shift p).
Proof. simpl. apply Rabs_Rabsolu. Qed.

(** X8.  A peak that [assignSingleShift] assigns is assigned to a
    prediction of the list that is nearest to it: the record carries the
    ids and the shift of that prediction, the residual is observed minus
    predicted, it is within the tolerance, no prediction of the list is
    closer, and the record has neither [nearest] nor [message]. *)
Theorem assigned_peak_is_nearest (observedShift : R) (predictions : list Prediction)
    (tolerance : R) :
  let a := assignSingleShift observedShift predictions tolerance in
  assigned a = true ->
  exists p,
    p ∈ predictions
    /\ a_buffer_id a = Some (p_buffer_id p)
    /\ a_resonance_id a = Some (p_resonance_id p)
    /\ a_predicted_shift a = Some (predicted_shift p)
    /\ residual a = Some (observedShift - predicted_shift p)
    /\ Rabs (observedShift - predicted_shift p) <= tolerance
    /\ Forall (fun q => Rabs (observedShift - predicted_shift p)
                        <= Rabs (observedShift - predicted_shift q)) predictions
    /\ nearest a = None /\ message a = None.
Proof.
  intros a Ha. subst a.
  destruct (sortedCandidates observedShift predictions) as [|best rest] eqn:Hs.
  { apply sortedCandidates_nil in Hs. subst predictions. discriminate Ha. }
  destruct (assignSingleShift_cons _ _ tolerance _ _ Hs) as (_ & _ & Hassigned & Hids).
  destruct (Hids Ha) as (Hb & Hr & Hp & Hres).
  destruct (assignSingleShift_record _ _ tolerance _ _ Hs) as [_ Hyes].
  destruct (sortedCandidates_best _ _ _ _ Hs) as ((p & Hin & Hbest) & Hleast).
  assert (Hc : calculateConfidence (absDistance best) tolerance (nextBestDistanceOf rest)
               <> none).
  { intros Hc. rewrite Hc in Hassigned. congruence. }
  destruct (Hyes Hc) as (Hnearest & Hmessage & _).
  rewrite calculateConfidence_none in Hc.
  exists p. subst best. rewrite absDistance_not_negative in Hc.
  repeat split; try done. lra.
Qed.

(** The evaluation of [assignSingleShift] on closed data. *)
Ltac eval_assignSingleShift :=
  unfold assignSingleShift; settle; reflexivity.

Lemma assigned_peak_is_nearest_witness :
  exists p,
    p ∈ [prediction "dss" "DSS" "CH3" 0; prediction "dss" "DSS" "CH2" 0.6]
    /\ a_buffer_id (assignSingleShift 0.05 [prediction "dss" "DSS" "CH3" 0; prediction "dss" "DSS" "CH2" 0.6] 0.5) = Some (p_buffer_id p)
    /\ a_resonance_id (assignSingleShift 0.05 [prediction "dss" "DSS" "CH3" 0; prediction "dss" "DSS" "CH2" 0.6] 0.5) = Some (p_resonance_id p)
    /\ a_predicted_shift (assignSingleShift 0.05 [prediction "dss" "DSS" "CH3" 0; prediction "dss" "DSS" "CH2" 0.6] 0.5) = Some (predicted_shift p)
    /\ residual (assignSingleShift 0.05 [prediction "dss" "DSS" "CH3" 0; prediction "dss" "DSS" "CH2" 0.6] 0.5) = Some (0.05 - predicted_shift p)
    /\ Rabs (0.05 - predicted_shift p) <= 0.5
    /\ Forall (fun q => Rabs (0.05 - predicted_shift p)
                        <= Rabs (0.05 - predicted_shift q)) [prediction "dss" "DSS" "CH3" 0; prediction "dss" "DSS" "CH2" 0.6]
    /\ nearest (assignSingleShift 0.05 [prediction "dss" "DSS" "CH3" 0; prediction "dss" "DSS" "CH2" 0.6] 0.5) = None
    /\ message (assignSingleShift 0.05 [prediction "dss" "DSS" "CH3" 0; prediction "dss" "DSS" "CH2" 0.6] 0.5) = None.
Proof.
  apply (assigned_peak_is_nearest 0.05 [prediction "dss" "DSS" "CH3" 0; prediction "dss" "DSS" "CH2" 0.6] 0.5).
  eval_assignSingleShift.
Defined.

(** X9.  A peak that [assignSingleShift] leaves unassigned although
    there are predictions names the nearest of them: [nearest] and the
    message carry a prediction of the list that no other is closer than,
    it is farther than the tolerance, and the record has no ids, no
    predicted shift, no residual and no alternatives.  Without any
    prediction the record says so. *)
Theorem unassigned_peak_names_nearest (observedShift : R)
    (predictions : list Prediction) (tolerance : R) :
  let a := assignSingleShift observedShift predictions tolerance in
  assigned a = false ->
  a_buffer_id a = None /\ a_resonance_id a = None /\ a_predicted_shift a = None
  /\ residual a = None /\ alternatives a = None
  /\ (predictions = [] -> nearest a = None /\ message a = Some NoPredictionsAvailable)
  /\ (predictions <> [] ->
      exists p,
        p ∈ predictions
        /\ nearest a = Some {| c_buffer_id := p_buffer_id p;
                               c_buffer_name := p_buffer_name p;
                               c_resonance_id := p_resonance_id p;
                               c_predicted_shift := predicted_shift p;
                               c_distance := observedShift - predicted_shift p |}
        /\ message a = Some (NoPredictionWithinTolerance (p_buffer_name p)
                               (p_resonance_id p) (predicted_shift p))
        /\ tolerance < Rabs (observedShift - predicted_shift p)
        /\ Forall (fun q => Rabs (observedShift - predicted_shift p)
                            <= Rabs (observedShift - predicted_shift q)) predictions).
Proof.
  intros a Ha. subst a.
  destruct (sortedCandidates observedShift predictions) as [|best rest] eqn:Hs.
  { apply sortedCandidates_nil in Hs. subst predictions.
    rewrite assignSingleShift_nil. simpl. repeat split; done. }
  destruct (assignSingleShift_cons _ _ tolerance _ _ Hs) as (_ & _ & Hassigned & _).
  destruct (assignSingleShift_record _ _ tolerance _ _ Hs) as [Hno _].
  destruct (sortedCandidates_best _ _ _ _ Hs) as ((p & Hin & Hbest) & Hleast).
  assert (Hc : calculateConfidence (absDistance best) tolerance (nextBestDistanceOf rest)
               = none).
  { rewrite Ha in Hassigned.
    destruct (calculateConfidence _ _ _); (done || discriminate). }
  destruct (Hno Hc) as (H1 & H2 & H3 & H4 & H5 & H6 & H7).
  rewrite calculateConfidence_none in Hc.
  do 5 (split; [done|]). split.
  - intros ->. discriminate Hs.
  - intros _. exists p. subst best. rewrite absDistance_not_negative in Hc.
    repeat split; done.
Qed.

Lemma unassigned_peak_names_nearest_witness :
  nearest (assignSingleShift 5 [prediction "dss" "DSS" "CH3" 0; prediction "dss" "DSS" "CH2" 0.6] 0.5)
  = Some {| c_buffer_id := "dss"; c_buffer_name := "DSS"; c_resonance_id := "CH2";
            c_predicted_shift := 0.6; c_distance := 5 - 0.6 |}.
Proof.
  destruct (unassigned_peak_names_nearest 5 [prediction "dss" "DSS" "CH3" 0; prediction "dss" "DSS" "CH2" 0.6] 0.5)
    as (_ & _ & _ & _ & _ & _ & Hnearest).
  - eval_assignSingleShift.
  - destruct Hnearest as (p & Hp & Hnearest & _ & Hfar & Hleast); [discriminate|].
    rewrite Hnearest. f_equal.
    apply Forall_cons in Hleast as [H0 Hleast]. apply Forall_cons in Hleast as [H1 _].
    simpl in H0, H1.
    apply elem_of_cons in Hp as [-> | Hp].
    + exfalso. simpl in H1. revert H1. Rabs_eval. lra.
    + apply list_elem_of_singleton in Hp. by subst p.
Defined.

(** The two nearest candidates are two predictions of the list, and no
    other prediction is nearer to the observed shift than the second. *)
Lemma sortedCandidates_two_nearest observedShift predictions best nb rest :
  sortedCandidates observedShift predictions = best :: nb :: rest ->
  exists p q others,
    predictions ≡ₚ p :: q :: others
    /\ best = withDistance observedShift p
    /\ nb = withDistance observedShift q
    /\ Rabs (observedShift - predicted_shift p) <= Rabs (observedShift - predicted_shift q)
    /\ Forall (fun r => Rabs (observedShift - predicted_shift q)
                        <= Rabs (observedShift - predicted_shift r)) others.
Proof.
  intros Hs.
  pose proof (stable_sort_perm byAbsDistance
                (map (withDistance observedShift) predictions)) as Hperm.
  pose proof (stable_sort_strongly absDistance
                (map (withDistance observedShift) predictions)) as Hsorted.
  fold (sortedCandidates observedShift predictions) in Hperm.
  change (stable_sort _ _) with (sortedCandidates observedShift predictions) in Hsorted.
  rewrite Hs in Hperm, Hsorted.
  apply Permutation_map_inv in Hperm as (l & Hl & Hpred).
  destruct l as [|p [|q others]]; try discriminate Hl.
  injection Hl as -> -> ->.
  apply StronglySorted_inv in Hsorted as [Hrest Hbest].
  apply StronglySorted_inv in Hrest as [_ Hnb].
  apply Forall_cons in Hbest as [Hpq _].
  exists p, q, others. split; [done|]. split; [done|]. split; [done|].
  split; [exact Hpq|]. rewrite Forall_fmap in Hnb. exact Hnb.
Qed.

(** X10.  An assigned peak lists at most one alternative, and none when
    the confidence is ['high'].  A listed alternative is the second nearest
    prediction: the predictions are, in some order, the assigned one [p],
    the alternative [q] and others, with [p] at least as near to the
    observed shift as [q], no other nearer than [q], and [q] strictly
    within the tolerance.  Conversely, when the confidence is not ['high']
    and the second of the candidates sorted by distance is strictly within
    the tolerance, that candidate is the alternative listed. *)
Theorem at_most_one_alternative (observedShift : R) (predictions : list Prediction)
    (tolerance : R) :
  let a := assignSingleShift observedShift predictions tolerance in
  assigned a = true ->
  exists alts,
    alternatives a = Some alts
    /\ (length alts <= 1)%nat
    /\ (confidence a = high -> alts = [])
    /\ (forall c, c ∈ alts ->
          Rabs (c_distance c) < tolerance
          /\ exists p q others,
               predictions ≡ₚ p :: q :: others
               /\ a_buffer_id a = Some (p_buffer_id p)
               /\ a_resonance_id a = Some (p_resonance_id p)
               /\ a_predicted_shift a = Some (predicted_shift p)
               /\ c = candidate (withDistance observedShift q)
               /\ Rabs (observedShift - predicted_shift p)
                  <= Rabs (observedShift - predicted_shift q)
               /\ Forall (fun r => Rabs (observedShift - predicted_shift q)
                                   <= Rabs (observedShift - predicted_shift r)) others)
    /\ (forall best nb rest,
          sortedCandidates observedShift predictions = best :: nb :: rest ->
          confidence a <> high -> absDistance nb < tolerance ->
          alts = [candidate nb]).
Proof.
  intros a Ha. subst a.
  destruct (sortedCandidates observedShift predictions) as [|best rest] eqn:Hs.
  { apply sortedCandidates_nil in Hs. subst predictions. discriminate Ha. }
  destruct (assignSingleShift_cons _ _ tolerance _ _ Hs)
    as (_ & Hconf & Hassigned & Hids).
  destruct (Hids Ha) as (Hb & Hr & Hp & _).
  destruct (assignSingleShift_record _ _ tolerance _ _ Hs) as [_ Hyes].
  assert (Hc : calculateConfidence (absDistance best) tolerance (nextBestDistanceOf rest)
               <> none).
  { intros Hc. rewrite Hc in Hassigned. congruence. }
  destruct (Hyes Hc) as (_ & _ & Halts).
  eexists. split; [exact Halts|]. rewrite Hconf.
  destruct rest as [|nb rest].
  { destruct (calculateConfidence _ _ _); simpl;
      (split; [lia|]; split; [done|]; split;
       [intros c Hin; by apply elem_of_nil in Hin | intros ? ? ? [=]]). }
  destruct (sortedCandidates_two_nearest _ _ _ _ _ Hs)
    as (p & q & others & Hperm & Hbest & Hnb & Hpq & Hothers).
  assert (Hlisted : forall c,
            c ∈ (if Rltb (absDistance nb) tolerance then [candidate nb] else []) ->
            Rabs (c_distance c) < tolerance
            /\ exists p q others,
                 predictions ≡ₚ p :: q :: others
                 /\ a_buffer_id (assignSingleShift observedShift predictions tolerance)
                    = Some (p_buffer_id p)
                 /\ a_resonance_id (assignSingleShift observedShift predictions tolerance)
                    = Some (p_resonance_id p)
                 /\ a_predicted_shift (assignSingleShift observedShift predictions tolerance)
                    = Some (predicted_shift p)
                 /\ c = candidate (withDistance observedShift q)
                 /\ Rabs (observedShift - predicted_shift p)
                    <= Rabs (observedShift - predicted_shift q)
                 /\ Forall (fun r => Rabs (observedShift - predicted_shift q)
                                     <= Rabs (observedShift - predicted_shift r)) others).
  { intros c Hin. destruct (Rltb (absDistance nb) tolerance) eqn:E;
      [|by apply elem_of_nil in Hin].
    apply Rltb_true in E. apply list_elem_of_singleton in Hin. subst c.
    split; [subst nb; exact E|].
    exists p, q, others. rewrite Hb, Hr, Hp. subst best nb. repeat split; done. }
  assert (Hshort : (length (if Rltb (absDistance nb) tolerance
                            then [candidate nb] else []) <= 1)%nat)
    by (destruct (Rltb _ _); simpl; lia).
  assert (Hsecond : forall best' nb' rest',
            best :: nb :: rest = best' :: nb' :: rest' ->
            absDistance nb' < tolerance ->
            (if Rltb (absDistance nb) tolerance then [candidate nb] else [])
            = [candidate nb']).
  { intros ? ? ? [= <- <- <-] Hlt. by rewrite (proj2 (Rltb_true _ _) Hlt). }
  destruct (calculateConfidence _ _ _); simpl.
  - split; [lia|]. split; [done|]. split;
      [intros c Hin; by apply elem_of_nil in Hin | intros; done].
  - split; [done|]. split; [discriminate|]. split; [done|]. intros; eauto.
  - split; [done|]. split; [discriminate|]. split; [done|]. intros; eauto.
  - split; [done|]. split; [discriminate|]. split; [done|]. intros; eauto.
Qed.

Lemma at_most_one_alternative_witness :
  exists alts,
    alternatives
      (assignSingleShift 0.25 [prediction "dss" "DSS" "CH3" 0; prediction "dss" "DSS" "CH2" 0.6] 0.5) = Some alts
    /\ (length alts <= 1)%nat
    /\ (confidence
      (assignSingleShift 0.25 [prediction "dss" "DSS" "CH3" 0; prediction "dss" "DSS" "CH2" 0.6] 0.5) = high -> alts = [])
    /\ (forall c, c ∈ alts ->
          Rabs (c_distance c) < 0.5
          /\ exists p q others,
      [prediction "dss" "DSS" "CH3" 0; prediction "dss" "DSS" "CH2" 0.6] ≡ₚ p :: q :: others
               /\ a_buffer_id
      (assignSingleShift 0.25 [prediction "dss" "DSS" "CH3" 0; prediction "dss" "DSS" "CH2" 0.6] 0.5) = Some (p_buffer_id p)
               /\ a_resonance_id
      (assignSingleShift 0.25 [prediction "dss" "DSS" "CH3" 0; prediction "dss" "DSS" "CH2" 0.6] 0.5) = Some (p_resonance_id p)
               /\ a_predicted_shift
      (assignSingleShift 0.25 [prediction "dss" "DSS" "CH3" 0; prediction "dss" "DSS" "CH2" 0.6] 0.5) = Some (predicted_shift p)
               /\ c = candidate (withDistance 0.25 q)
               /\ Rabs (0.25 - predicted_shift p) <= Rabs (0.25 - predicted_shift q)
               /\ Forall (fun r => Rabs (0.25 - predicted_shift q)
                                   <= Rabs (0.25 - predicted_shift r)) others)
    /\ (forall best nb rest,
          sortedCandidates 0.25
      [prediction "dss" "DSS" "CH3" 0; prediction "dss" "DSS" "CH2" 0.6] = best :: nb :: rest ->
          confidence
      (assignSingleShift 0.25 [prediction "dss" "DSS" "CH3" 0; prediction "dss" "DSS" "CH2" 0.6] 0.5) <> high -> absDistance nb < 0.5 ->
          alts = [candidate nb]).
Proof.
  apply (at_most_one_alternative 0.25 [prediction "dss" "DSS" "CH3" 0; prediction "dss" "DSS" "CH2" 0.6] 0.5).
  eval_assignSingleShift.
Defined.

End AssignmentRecord.

(** ** peakAssignment.js: where predictions come from *)
Section Provenance.
Import BufferModel PeakAssignment.

(** The predictions [predictBufferShifts] lists under a nucleus are those
    of resonances the buffer lists under it. *)
Lemma predictBufferShifts_elem buffer pH T ionic sample nucleus l rp :
  (nucleus, l) ∈ predictBufferShifts buffer pH T ionic sample ->
  rp ∈ l ->
  exists resonances resonance,
    (nucleus, resonances) ∈ chemical_shifts buffer
    /\ resonance ∈ resonances
    /\ rp = {| rp_resonance_id := resonance_id resonance;
               rp_description := description resonance;
               rp_shift :=
                 predictShift resonance
                   (getBufferPKaValues buffer T ionic
                      (default 298.15 (sample ≫= reference_temperature_K)))
                   pH T ionic
                   (default 298.15 (sample ≫= reference_temperature_K))
                   (default 0 (sample ≫= reference_ionic_strength_M)) |}.
Proof.
  unfold predictBufferShifts. cbv zeta. revert l rp.
  apply (fold_left_invariant_elem
           (fun predictions => forall l rp,
              (nucleus, l) ∈ predictions -> rp ∈ l -> _)).
  - intros l rp H. by apply elem_of_nil in H.
  - intros predictions [nucleus' resonances] Hin IH l rp Hget Hrp.
    apply obj_set_elem_key in Hget as [[-> ->] | Hget]; [|eauto].
    apply list_elem_of_fmap in Hrp as (resonance & -> & Hres).
    eauto.
Qed.

(** X11.  [generatePredictions] invents no prediction: each prediction
    listed under a nucleus is the shift [predictShift] computes for a
    resonance that one of the buffers lists under that nucleus, with the
    pKa values of that buffer and the reference conditions of its sample
    (298.15 K and 0 M without one), and carries the ids and names of the
    buffer and the resonance. *)
Theorem predictions_come_from_resonances (buffers : list Buffer)
    (samplesMap : gmap string Sample) (pH T ionic : R)
    (nucleus : string) (l : list Prediction) (p : Prediction) :
  obj_get nucleus (generatePredictions buffers samplesMap pH T ionic) = Some l ->
  p ∈ l ->
  exists buffer resonances resonance,
    buffer ∈ buffers
    /\ (nucleus, resonances) ∈ chemical_shifts buffer
    /\ resonance ∈ resonances
    /\ p_buffer_id p = buffer_id buffer
    /\ p_buffer_name p = buffer_name buffer
    /\ p_resonance_id p = resonance_id resonance
    /\ p_description p = description resonance
    /\ let sample := samplesMap !! sample_id buffer in
       let refTemp := default 298.15 (sample ≫= reference_temperature_K) in
       let refIonic := default 0 (sample ≫= reference_ionic_strength_M) in
       predicted_shift p
       = predictShift resonance (getBufferPKaValues buffer T ionic refTemp)
           pH T ionic refTemp refIonic.
Proof.
  unfold generatePredictions. revert l p.
  apply (fold_left_invariant_elem
           (fun allPredictions => forall l p,
              obj_get nucleus allPredictions = Some l -> p ∈ l -> _)).
  - intros l p H. discriminate H.
  - intros allPredictions buffer Hbuffer IH. cbv zeta.
    pose proof (predictBufferShifts_elem buffer pH T ionic
                  (samplesMap !! sample_id buffer)) as Hfrom.
    revert Hfrom.
    generalize (predictBufferShifts buffer pH T ionic (samplesMap !! sample_id buffer)).
    intros predictions Hfrom.
    revert IH.
    apply (fold_left_invariant_elem
             (fun allPredictions' =>
                (forall l p, obj_get nucleus allPredictions = Some l -> p ∈ l -> _) ->
                forall l p, obj_get nucleus allPredictions' = Some l -> p ∈ l -> _)).
    + auto.
    + intros allPredictions' [nucleus' rps] Hin IH' IH l p Hget Hp.
      apply obj_get_set_inv in Hget as [[-> ->] | [_ Hget]]; [|eauto].
      apply elem_of_app in Hp as [Hp|Hp].
      * destruct (obj_get nucleus' allPredictions') as [existing|] eqn:E;
          [|by apply elem_of_nil in Hp].
        eapply IH'; eauto.
      * apply list_elem_of_fmap in Hp as (rp & -> & Hrp).
        destruct (Hfrom _ _ _ Hin Hrp) as (resonances & resonance & H1 & H2 & ->).
        exists buffer, resonances, resonance. simpl. repeat split; done.
Qed.

Lemma predictions_come_from_resonances_witness :
  exists buffer resonances resonance,
    buffer ∈ [Scenario.tfa]
    /\ ("19F"%string, resonances) ∈ chemical_shifts buffer
    /\ resonance ∈ resonances
    /\ p_buffer_id (prediction "tfa" "TFA" "CF3" (-75)) = buffer_id buffer
    /\ p_buffer_name (prediction "tfa" "TFA" "CF3" (-75)) = buffer_name buffer
    /\ p_resonance_id (prediction "tfa" "TFA" "CF3" (-75)) = resonance_id resonance
    /\ p_description (prediction "tfa" "TFA" "CF3" (-75)) = description resonance
    /\ let sample := (∅ : gmap string Sample) !! sample_id buffer in
       let refTemp := default 298.15 (sample ≫= reference_temperature_K) in
       let refIonic := default 0 (sample ≫= reference_ionic_strength_M) in
       predicted_shift (prediction "tfa" "TFA" "CF3" (-75))
       = predictShift resonance (getBufferPKaValues buffer 298.15 0.1 refTemp)
           7 298.15 0.1 refTemp refIonic.
Proof.
  apply (predictions_come_from_resonances [Scenario.tfa] ∅ 7 298.15 0.1 "19F"
           [prediction "tfa" "TFA" "CF3" (-75)]).
  - by rewrite tfa_predictions.
  - left.
Defined.

End Provenance.

(** ** peakAssignment.js: the lists of assignPeaks *)
Section AssignedLists.
Import PeakAssignment.

Lemma assignSingleShift_observed observedShift predictions tolerance :
  observed_shift (assignSingleShift observedShift predictions tolerance) = observedShift.
Proof.
  destruct (sortedCandidates observedShift predictions) as [|best rest] eqn:Hs.
  - apply sortedCandidates_nil in Hs. by subst predictions.
  - by destruct (assignSingleShift_cons _ _ tolerance _ _ Hs) as (H & _).
Qed.

Lemma assignSingleShift_within observedShift predictions tolerance :
  let a := assignSingleShift observedShift predictions tolerance in
  assigned a = true ->
  confidence a <> none
  /\ exists p,
       p ∈ predictions
       /\ a_buffer_id a = Some (p_buffer_id p)
       /\ a_resonance_id a = Some (p_resonance_id p)
       /\ a_predicted_shift a = Some (predicted_shift p)
       /\ residual a = Some (observedShift - predicted_shift p)
       /\ Rabs (observedShift - predicted_shift p) <= tolerance.
Proof.
  intros a Ha. subst a.
  destruct (sortedCandidates observedShift predictions) as [|best rest] eqn:Hs.
  { apply sortedCandidates_nil in Hs. subst predictions. discriminate Ha. }
  destruct (assignSingleShift_cons _ _ tolerance _ _ Hs) as (_ & Hconf & Hassigned & Hids).
  destruct (Hids Ha) as (Hb & Hr & Hp & Hres).
  destruct (sortedCandidates_best _ _ _ _ Hs) as ((p & Hin & Hbest) & _).
  assert (Hc : calculateConfidence (absDistance best) tolerance (nextBestDistanceOf rest)
               <> none).
  { intros Hc. rewrite Hc in Hassigned. congruence. }
  split; [by rewrite Hconf|].
  rewrite calculateConfidence_none in Hc.
  exists p. subst best. simpl in Hc. rewrite Rabs_Rabsolu in Hc.
  repeat split; try done. lra.
Qed.

Lemma assignShift_records nucleus nucleusPredictions tolerance shifts pushed used :
  let st := fold_left (assignShift nucleus nucleusPredictions tolerance) shifts
                      (pushed, used) in
  map observed_shift st.1 = map observed_shift pushed ++ shifts
  /\ (Forall (recordOf nucleus nucleusPredictions tolerance) pushed ->
      Forall (recordOf nucleus nucleusPredictions tolerance) st.1).
Proof.
  revert pushed used. induction shifts as [|o shifts IH]; intros pushed used; simpl.
  { by rewrite app_nil_r. }
  set (a := assignSingleShift o (availablePredictions used nucleusPredictions) tolerance).
  destruct (IH (pushed ++ [withNucleus nucleus a])
               (if assigned a then {[keyOfAssignment a]} ∪ used else used))
    as [Hshifts Hrecords].
  split.
  - rewrite Hshifts, map_app. simpl. unfold a.
    rewrite assignSingleShift_observed. by rewrite <- app_assoc.
  - intros Hpushed. apply Hrecords. apply Forall_app. split; [done|].
    constructor; [|constructor]. split; [done|]. simpl. intros Ha.
    destruct (assignSingleShift_within o (availablePredictions used nucleusPredictions)
                tolerance Ha) as (Hconf & p & Hp & H1 & H2 & H3 & H4 & H5).
    apply availablePredictions_elem in Hp as [_ Hp].
    split; [done|]. exists p. unfold a. rewrite assignSingleShift_observed.
    repeat split; done.
Qed.

Lemma assignAll_records predictions tolerances observedShifts nucleus l :
  (nucleus, l) ∈ (assignAll predictions tolerances observedShifts).1 ->
  exists shifts,
    (nucleus, shifts) ∈ observedShifts
    /\ map observed_shift l = stable_sort numeric_le shifts
    /\ Forall (recordOf nucleus (default [] (obj_get nucleus predictions))
                 (toleranceFor tolerances nucleus)) l.
Proof.
  unfold assignAll. revert nucleus l.
  apply (fold_left_invariant_elem
           (fun st => forall nucleus l, (nucleus, l) ∈ st.1 -> _)).
  - simpl. intros ? ? H. by apply elem_of_nil in H.
  - intros [assignments used] [nucleus shifts] Hentry IH nucleus' l.
    unfold assignNucleus.
    pose proof (assignShift_records nucleus
                  (default [] (obj_get nucleus predictions))
                  (toleranceFor tolerances nucleus)
                  (stable_sort numeric_le shifts) [] used) as [Hshifts Hrecords].
    destruct (fold_left _ _ _) as [pushed used'] eqn:E. simpl in *.
    intros Hin. apply obj_set_elem_key in Hin as [[-> ->] | Hin]; [|eauto].
    exists shifts. repeat split; [done | done |]. apply Hrecords. constructor.
Qed.





(** X13.  An assigned record of [assignPeaks] refers to a prediction
    that [generatePredictions] lists under the nucleus of the record: it
    carries its ids and its shift, its residual is observed minus
    predicted and is within the tolerance of the nucleus, and its
    confidence is not ['none']. *)
Theorem assigned_record_matches_a_prediction
    (observedShifts : list (string * list R))
    (buffers : list BufferModel.Buffer) (samplesMap : gmap string BufferModel.Sample)
    (pH temperature ionicStrength : R) (tolerances : gmap string R)
    (nucleus : string) (l : list Assignment) (a : Assignment) :
  (nucleus, l) ∈ assignPeaks observedShifts buffers samplesMap pH temperature
                   ionicStrength tolerances ->
  a ∈ l -> assigned a = true ->
  confidence a <> none
  /\ exists predictions p,
       obj_get nucleus
         (generatePredictions buffers samplesMap pH temperature ionicStrength)
       = Some predictions
       /\ p ∈ predictions
       /\ a_buffer_id a = Some (p_buffer_id p)
       /\ a_resonance_id a = Some (p_resonance_id p)
       /\ a_predicted_shift a = Some (predicted_shift p)
       /\ residual a = Some (observed_shift a - predicted_shift p)
       /\ Rabs (observed_shift a - predicted_shift p) <= toleranceFor tolerances nucleus.
Proof.
  unfold assignPeaks. cbv zeta. intros Hl Ha Hassigned.
  apply assignAll_records in Hl as (shifts & _ & _ & Hrecords).
  rewrite Forall_forall in Hrecords.
  destruct (Hrecords a Ha) as [_ Hrecord].
  destruct (Hrecord Hassigned) as (Hconf & p & Hp & H1 & H2 & H3 & H4 & H5).
  split; [done|].
  destruct (obj_get nucleus _) as [predictions|] eqn:E;
    [|by apply elem_of_nil in Hp].
  exists predictions, p. repeat split; done.
Qed.

Lemma assigned_record_matches_a_prediction_witness :
  confidence peakCH2 <> none
  /\ exists predictions p,
       obj_get "1H"%string (generatePredictions [Scenario.dss] ∅ 7 298.15 0.1)
       = Some predictions
       /\ p ∈ predictions
       /\ a_buffer_id peakCH2 = Some (p_buffer_id p)
       /\ a_resonance_id peakCH2 = Some (p_resonance_id p)
       /\ a_predicted_shift peakCH2 = Some (predicted_shift p)
       /\ residual peakCH2 = Some (observed_shift peakCH2 - predicted_shift p)
       /\ Rabs (observed_shift peakCH2 - predicted_shift p) <= toleranceFor ∅ "1H".
Proof.
  apply (assigned_record_matches_a_prediction
           [("1H"%string, [0.55; 0.05])] [Scenario.dss] ∅ 7 298.15 0.1 ∅
           "1H" [peakCH3; peakCH2] peakCH2).
  - rewrite two_peaks_assigned. left.
  - right. left.
  - reflexivity.
Defined.

End AssignedLists.

(** ** Counting assigned peaks *)

(** A property of the elements met so far and the state holds after a
    loop, when every turn keeps it. *)
Lemma fold_left_prefix_invariant {A B : Type} (P : list A -> B -> Prop)
    (f : B -> A -> B) (l : list A) (b : B) :
  P [] b -> (forall pre a b, P pre b -> P (pre ++ [a]) (f b a)) ->
  P l (fold_left f l b).
Proof.
  intros Hb Hstep.
  assert (H : forall pre b, P pre b -> P (pre ++ l) (fold_left f l b)).
  { induction l as [|a l IH]; intros pre b' Hpre; simpl.
    - by rewrite app_nil_r.
    - rewrite (cons_middle a pre l), app_assoc. apply IH, Hstep, Hpre. }
  apply (H [] b Hb).
Qed.

(** The same for a loop over the entries of an object with a loop over
    the list of each entry inside. *)
Lemma nested_fold_invariant {K A B : Type} (P : list A -> B -> Prop)
    (f : K -> B -> A -> B) (o : list (K * list A)) (b : B) :
  P [] b -> (forall k pre a b, P pre b -> P (pre ++ [a]) (f k b a)) ->
  P (flat_map snd o) (fold_left (fun st '(k, l) => fold_left (f k) l st) o b).
Proof.
  intros Hb Hstep.
  apply (fold_left_prefix_invariant (fun pre st => P (flat_map snd pre) st)); [done|].
  intros pre [k l] st Hst. rewrite flat_map_app. simpl. rewrite app_nil_r.
  apply (fold_left_prefix_invariant (fun pre' st' => P (flat_map snd pre ++ pre') st')).
  - by rewrite app_nil_r.
  - intros pre' a st' Hst'. rewrite app_assoc. by apply Hstep.
Qed.

(** The counts of peakAssignment.js and validation.js. *)
Section Counts.
Import PeakAssignment Validation.

Lemma countOf_snoc f l a :
  countOf f (l ++ [a]) = (countOf f l + if f a then 1 else 0)%nat.
Proof.
  unfold countOf. rewrite filter_app, length_app. f_equal.
  rewrite filter_cons, filter_nil. by destruct (f a).
Qed.

Lemma getAssignedPeaksForFitting_length assignments :
  length (getAssignedPeaksForFitting assignments)
  = countOf assigned (recordsOf assignments).
Proof.
  unfold getAssignedPeaksForFitting, recordsOf, countOf.
  induction assignments as [|[nucleus l] assignments IH]; [done|].
  simpl. rewrite filter_app, !length_app, IH. f_equal.
  clear IH. induction l as [|a l IH]; [done|].
  simpl. rewrite filter_cons. destruct (assigned a); simpl; by rewrite IH.
Qed.

Lemma quality_counts assignments :
  let q := calculateAssignmentQuality assignments in
  let l := recordsOf assignments in
  totalAssigned q = countOf assigned l
  /\ totalUnassigned q = countOf (fun a => negb (assigned a)) l
  /\ highConfidence q = countOf (hasConfidence high) l
  /\ mediumConfidence q = countOf (hasConfidence medium) l
  /\ lowConfidence q = countOf (hasConfidence low) l
  /\ q_residuals q = map residual (filter (fun a => assigned a = true) l)
  /\ totalObserved q = (totalAssigned q + totalUnassigned q)%nat
  /\ (Forall (fun a => assigned a = true -> is_Some (residual a)) l ->
      exists r, q_rmsd q = Some r /\ 0 <= r).
Proof.
  unfold calculateAssignmentQuality.
  match goal with
  | |- context [fold_left ?f assignments ?b] =>
    pose proof (nested_fold_invariant
      (fun l '(tA, tU, h, m, lo, trs, res) =>
         tA = countOf assigned l
         /\ tU = countOf (fun a => negb (assigned a)) l
         /\ h = countOf (hasConfidence high) l
         /\ m = countOf (hasConfidence medium) l
         /\ lo = countOf (hasConfidence low) l
         /\ res = map residual (filter (fun a => assigned a = true) l)
         /\ (Forall (fun a => assigned a = true -> is_Some (residual a)) l ->
             exists t, trs = Some t /\ 0 <= t))
      (fun (_ : string) '(totalAssigned, totalUnassigned, highConfidence,
              mediumConfidence, lowConfidence, totalResidualSquared, residuals)
           assignment =>
         if assigned assignment then
           let totalResidualSquared :=
             t ← totalResidualSquared; r ← residual assignment; Some (t + r * r) in
           let residuals := residuals ++ [residual assignment] in
           match confidence assignment with
           | high =>
             (S totalAssigned, totalUnassigned, S highConfidence, mediumConfidence,
              lowConfidence, totalResidualSquared, residuals)
           | medium =>
             (S totalAssigned, totalUnassigned, highConfidence, S mediumConfidence,
              lowConfidence, totalResidualSquared, residuals)
           | low =>
             (S totalAssigned, totalUnassigned, highConfidence, mediumConfidence,
              S lowConfidence, totalResidualSquared, residuals)
           | none =>
             (S totalAssigned, totalUnassigned, highConfidence, mediumConfidence,
              lowConfidence, totalResidualSquared, residuals)
           end
         else
           (totalAssigned, S totalUnassigned, highConfidence, mediumConfidence,
            lowConfidence, totalResidualSquared, residuals))
      assignments b) as Hinv
  end.
  cbv beta in Hinv.
  match type of Hinv with
  | ?A -> ?B -> ?C => assert (HA : A); [|assert (HB : B); [|specialize (Hinv HA HB)]]
  end.
  - repeat split; try done. intros _. exists 0. split; [done | lra].
  - intros _ pre a [[[[[[tA tU] h] m] lo] trs] res] (-> & -> & -> & -> & -> & -> & Hsum).
    rewrite filter_app, map_app, filter_cons, filter_nil.
    unfold hasConfidence.
    destruct (assigned a) eqn:Ea.
    + assert (Hsum' : Forall (fun a => assigned a = true -> is_Some (residual a))
                             (pre ++ [a]) ->
                      exists t, (t ← trs; r ← residual a; Some (t + r * r)) = Some t
                                /\ 0 <= t).
      { intros Hall. apply Forall_app in Hall as [Hpre Ha].
        destruct (Hsum Hpre) as (t & -> & Ht).
        apply Forall_inv in Ha. destruct (Ha Ea) as [r ->]. simpl.
        eexists. split; [done|]. pose proof (Rle_0_sqr r) as Hr. unfold Rsqr in Hr. lra. }
      destruct (confidence a) eqn:Ec; rewrite !countOf_snoc, Ea, ?Ec; simpl;
        repeat split; try lia; done.
    + rewrite !countOf_snoc, Ea. simpl.
      rewrite app_nil_r. repeat split; try lia.
      intros Hall. apply Forall_app in Hall as [Hpre _]. auto.
  - clear HA HB. fold (recordsOf assignments) in Hinv.
    destruct (fold_left _ assignments _) as [[[[[[tA tU] h] m] lo] trs] res].
    destruct Hinv as (-> & -> & -> & -> & -> & -> & Hsum).
    simpl. repeat split; try done.
    intros Hall. destruct (Hsum Hall) as (t & -> & Ht).
    destruct (0 <? _)%nat; simpl; eexists; (split; [done|]).
    + apply sqrt_pos.
    + lra.
Qed.

Lemma validation_counts assignments :
  let v := validateAssignments assignments in
  let l := recordsOf assignments in
  av_totalAssigned v = countOf assigned l
  /\ av_totalUnassigned v = countOf (fun a => negb (assigned a)) l
  /\ lowConfidenceCount v = countOf (hasConfidence low) l
  /\ ambiguousCount v
     = countOf (fun a => assigned a
                         && match alternatives a with
                            | Some (_ :: _) => true
                            | _ => false
                            end) l
  /\ length (av_issues v)
     = (av_totalUnassigned v + lowConfidenceCount v + ambiguousCount v)%nat
  /\ av_valid v = (0 <? av_totalAssigned v)%nat.
Proof.
  unfold validateAssignments.
  match goal with
  | |- context [fold_left ?f assignments ?b] =>
    pose proof (nested_fold_invariant
      (fun l '(issues, tA, tU, lo, am) =>
         tA = countOf assigned l
         /\ tU = countOf (fun a => negb (assigned a)) l
         /\ lo = countOf (hasConfidence low) l
         /\ am = countOf (fun a => assigned a
                                   && match alternatives a with
                                      | Some (_ :: _) => true
                                      | _ => false
                                      end) l
         /\ length (issues : list AssignmentIssue) = (tU + lo + am)%nat)
      (fun (nucleus : string) '(issues, totalAssigned, totalUnassigned,
              lowConfidenceCount, ambiguousCount) assignment =>
              let observed := PeakAssignment.observed_shift assignment in
              if PeakAssignment.assigned assignment then
                let '(issues, lowConfidenceCount) :=
                  match PeakAssignment.confidence assignment with
                  | PeakAssignment.low =>
                    (issues ++
                     [ {| ai_type := low_confidence;
                          ai_nucleus := nucleus;
                          ai_observed_shift := observed;
                          ai_message :=
                            LowConfidenceAssignment observed
                              (PeakAssignment.a_buffer_name assignment)
                              (PeakAssignment.a_resonance_id assignment) |} ],
                     S lowConfidenceCount)
                  | _ => (issues, lowConfidenceCount)
                  end in
                let '(issues, ambiguousCount) :=
                  match PeakAssignment.alternatives assignment with
                  | Some (_ :: _) =>
                    (issues ++
                     [ {| ai_type := ambiguous;
                          ai_nucleus := nucleus;
                          ai_observed_shift := observed;
                          ai_message := AmbiguousAssignment observed |} ],
                     S ambiguousCount)
                  | _ => (issues, ambiguousCount)
                  end in
                (issues, S totalAssigned, totalUnassigned, lowConfidenceCount,
                 ambiguousCount)
              else
                (issues ++
                 [ {| ai_type := unassigned;
                      ai_nucleus := nucleus;
                      ai_observed_shift := observed;
                      ai_message :=
                        match PeakAssignment.message assignment with
                        | Some m => MessageOfAssignment m
                        | None => UnassignedPeakAt observed
                        end |} ],
                 totalAssigned, S totalUnassigned, lowConfidenceCount, ambiguousCount))
      assignments b) as Hinv
  end.
  cbv beta in Hinv.
  match type of Hinv with
  | ?A -> ?B -> ?C => assert (HA : A); [|assert (HB : B); [|specialize (Hinv HA HB)]]
  end.
  - repeat split; done.
  - intros nucleus pre a [[[[issues tA] tU] lo] am] (-> & -> & -> & -> & Hissues).
    unfold hasConfidence in *. cbv zeta.
    destruct (assigned a) eqn:Ea.
    + destruct (confidence a) eqn:Ec;
        destruct (alternatives a) as [[|alt alts]|] eqn:Ealt;
        rewrite !countOf_snoc, Ea, ?Ec, ?Ealt; simpl;
        rewrite ?length_app; simpl; repeat split; lia.
    + rewrite !countOf_snoc, Ea. simpl.
      rewrite ?length_app; simpl; repeat split; lia.
  - clear HA HB. fold (recordsOf assignments) in Hinv.
    destruct (fold_left _ assignments _) as [[[[issues tA] tU] lo] am].
    destruct Hinv as (-> & -> & -> & -> & Hissues).
    simpl. repeat split; done.
Qed.

Lemma countOf_assigned_or_not (l : list Assignment) :
  (countOf assigned l + countOf (fun a => negb (assigned a)) l)%nat = length l.
Proof.
  induction l as [|a l IH]; [done|].
  unfold countOf in *. rewrite !filter_cons.
  destruct (assigned a); simpl; lia.
Qed.

Lemma countOf_classes (l : list Assignment) :
  (countOf (hasConfidence high) l + countOf (hasConfidence medium) l
   + countOf (hasConfidence low) l <= countOf assigned l)%nat.
Proof.
  induction l as [|a l IH]; [done|].
  unfold countOf, hasConfidence in *. rewrite !filter_cons.
  destruct (assigned a); destruct (confidence a); simpl; lia.
Qed.

(** X14.  The counts of [calculateAssignmentQuality],
    [validateAssignments] and [getAssignedPeaksForFitting] agree: the
    assigned peaks counted are the peaks handed to the fitter and the
    residuals listed, assigned and unassigned together are all records,
    the three confidence classes never count more than the assigned
    peaks, the validation has one issue for each unassigned, each low
    confidence and each ambiguous peak, and it is valid exactly when the
    fitter is handed a peak. *)
Theorem assignment_counts_agree (assignments : list (string * list Assignment)) :
  let q := calculateAssignmentQuality assignments in
  let v := validateAssignments assignments in
  totalAssigned q = length (getAssignedPeaksForFitting assignments)
  /\ length (q_residuals q) = totalAssigned q
  /\ (totalAssigned q + totalUnassigned q)%nat = length (recordsOf assignments)
  /\ totalObserved q = length (recordsOf assignments)
  /\ (highConfidence q + mediumConfidence q + lowConfidence q <= totalAssigned q)%nat
  /\ av_totalAssigned v = totalAssigned q
  /\ av_totalUnassigned v = totalUnassigned q
  /\ lowConfidenceCount v = lowConfidence q
  /\ length (av_issues v)
     = (av_totalUnassigned v + lowConfidenceCount v + ambiguousCount v)%nat
  /\ (av_valid v = true <-> getAssignedPeaksForFitting assignments <> []).
Proof.
  intros q v.
  destruct (quality_counts assignments) as (Hq1 & Hq2 & Hq3 & Hq4 & Hq5 & Hq6 & Hq7 & _).
  destruct (validation_counts assignments) as (Hv1 & Hv2 & Hv3 & Hv4 & Hv5 & Hv6).
  fold q in Hq1, Hq2, Hq3, Hq4, Hq5, Hq6, Hq7.
  fold v in Hv1, Hv2, Hv3, Hv4, Hv5, Hv6.
  pose proof (getAssignedPeaksForFitting_length assignments) as Hpeaks.
  pose proof (countOf_assigned_or_not (recordsOf assignments)) as Hall.
  pose proof (countOf_classes (recordsOf assignments)) as Hclasses.
  repeat split.
  - congruence.
  - rewrite Hq6, length_map, Hq1. done.
  - lia.
  - lia.
  - lia.
  - congruence.
  - congruence.
  - congruence.
  - done.
  - rewrite Hv6, Hv1, <- Hpeaks. intros H. apply Nat.ltb_lt in H.
    intros Hnil. rewrite Hnil in H. simpl in H. lia.
  - rewrite Hv6, Hv1, <- Hpeaks. intros H. apply Nat.ltb_lt.
    destruct (getAssignedPeaksForFitting assignments); [done | simpl; lia].
Qed.

End Counts.

(** ** fitting.js: the parameter vector and the conditions *)
Section ParameterVector.
Import Fitting.

Lemma substring_all (s : string) : String.substring 0 (String.length s) s = s.
Proof. induction s as [|c s IH]; simpl; [done | by rewrite IH]. Qed.

Lemma nucleus_of_key (nucleus : string) :
  String.prefix "ref_" ("ref_" +:+ nucleus) = true
  /\ String.substring 4 (String.length ("ref_" +:+ nucleus) - 4) ("ref_" +:+ nucleus)
     = nucleus.
Proof.
  split.
  - simpl. by destruct nucleus.
  - simpl. rewrite Nat.sub_0_r. apply substring_all.
Qed.

Lemma wellMapped_reference conditions options st nucleus refine :
  wellMapped conditions options st ->
  wellMapped conditions options
    ((fun '(params, parameterMap, index) '(nucleus, refine) =>
        if refine : bool
        then (params ++ [default 0 (obj_get nucleus (referenceOffsets conditions))],
              obj_set ("ref_" +:+ nucleus)
                      {| index := index;
                         name := nucleus +:+ " reference offset (ppm)" |}
                      parameterMap,
              S index)
        else (params, parameterMap, index)) st (nucleus, refine)).
Proof.
  destruct st as [[params parameterMap] next]. destruct refine; [|done].
  intros (-> & (m & HpH & Hm & HpHv) & HT & HTv & HI & HIv & Hall).
  unfold wellMapped.
  rewrite !(obj_get_set_ne ("ref_" +:+ nucleus)) by discriminate.
  split; [rewrite length_app; simpl; lia|].
  split; [exists m; split; [done | split; [done | by apply lookup_app_l_Some]]|].
  split; [done|]. split; [intros; by apply lookup_app_l_Some, HTv|].
  split; [done|]. split; [intros; by apply lookup_app_l_Some, HIv|].
  apply Forall_forall. intros [key mapping] Hin.
  apply obj_set_elem_key in Hin as [[-> ->] | Hin].
  - right. exists nucleus. split; [done|]. simpl.
    by rewrite list_lookup_middle.
  - rewrite Forall_forall in Hall. destruct (Hall _ Hin) as [Hfixed | (n & Hkey & Hv)].
    + by left.
    + right. exists n. split; [done|]. by apply lookup_app_l_Some.
Qed.

Lemma buildParameterVector_wellMapped conditions options :
  exists next,
    wellMapped conditions options
      ((buildParameterVector conditions options).1,
       (buildParameterVector conditions options).2, next).
Proof.
  unfold buildParameterVector. cbv zeta.
  assert (Hloop : forall refs st,
            wellMapped conditions options st ->
            wellMapped conditions options
              (fold_left
                 (fun '(params, parameterMap, index) '(nucleus, refine) =>
                    if refine : bool
                    then (params
                          ++ [default 0 (obj_get nucleus (referenceOffsets conditions))],
                          obj_set ("ref_" +:+ nucleus)
                                  {| index := index;
                                     name := nucleus +:+ " reference offset (ppm)" |}
                                  parameterMap,
                          S index)
                    else (params, parameterMap, index)) refs st)).
  { induction refs as [|[nucleus refine] refs IH]; intros st Hst; [done|].
    simpl. apply IH. by apply (wellMapped_reference conditions options st nucleus refine). }
  destruct (refineTemperature options) eqn:ET, (refineIonicStrength options) eqn:EI;
    match goal with
    | |- context [fold_left ?f ?refs ?st] =>
        pose proof (Hloop refs st) as H;
        destruct (fold_left f refs st) as [[params parameterMap] next]
    end;
    exists next; apply H; unfold wellMapped; rewrite ET, EI; simpl;
    (repeat split; try done; try (by intros [? ?]); try (by intros ? [= <-]);
     try (eexists; split; [reflexivity | split; done]); try (by eexists);
     repeat constructor; simpl; rewrite !elem_of_cons; auto).
Qed.

Lemma fixedKeys_not_reference key :
  key ∈ fixedKeys -> String.prefix "ref_" key = false.
Proof.
  unfold fixedKeys. rewrite !elem_of_cons, elem_of_nil.
  intros [-> | [-> | [-> | []]]]; reflexivity.
Qed.

(** X15.  [extractConditions] undoes [buildParameterVector]: the vector
    and the map built from some conditions, read back over the same
    conditions, give the pH, the temperature and the ionic strength they
    were built from, and reference offsets that read, with zero for a
    missing one, as before.  The pH is the first entry of the vector,
    and the map has the temperature and the ionic strength exactly when
    they are refined. *)
Theorem extractConditions_of_buildParameterVector (conditions : Conditions)
    (options : Options) :
  let '(params, parameterMap) := buildParameterVector conditions options in
  (index <$> obj_get "pH" parameterMap) = Some 0%nat
  /\ (is_Some (obj_get "temperature" parameterMap) <-> refineTemperature options = true)
  /\ (is_Some (obj_get "ionicStrength" parameterMap)
      <-> refineIonicStrength options = true)
  /\ exists read,
       extractConditions params parameterMap conditions = Returns read
       /\ pH read = pH conditions
       /\ temperature read = temperature conditions
       /\ ionicStrength read = ionicStrength conditions
       /\ forall nucleus,
            default 0 (obj_get nucleus (referenceOffsets read))
            = default 0 (obj_get nucleus (referenceOffsets conditions)).
Proof.
  destruct (buildParameterVector_wellMapped conditions options)
    as (next & _ & (m & HpH & Hm & HpHv) & HT & HTv & HI & HIv & Hall).
  destruct (buildParameterVector conditions options) as [params parameterMap].
  simpl in *. split; [by rewrite HpH, <- Hm|]. split; [done|]. split; [done|].
  unfold extractConditions. rewrite HpH.
  eexists. split; [reflexivity|]. simpl. unfold pget.
  split; [by rewrite Hm, HpHv|].
  split; [destruct (obj_get "temperature" parameterMap) as [mT|];
          [by rewrite (HTv mT) | done]|].
  split; [destruct (obj_get "ionicStrength" parameterMap) as [mI|];
          [by rewrite (HIv mI) | done]|].
  revert Hall. generalize parameterMap at 1 2.
  intros entries Hall.
  assert (Hloop : forall offsets,
            (forall nucleus,
               default 0 (obj_get nucleus offsets)
               = default 0 (obj_get nucleus (referenceOffsets conditions))) ->
            forall nucleus,
              default 0
                (obj_get nucleus
                   (fold_left
                      (fun offsets '(key, mapping) =>
                         if String.prefix "ref_" key
                         then let nucleus :=
                                String.substring 4 (String.length key - 4) key in
                              obj_set nucleus (default 0 (params !! index mapping))
                                      offsets
                         else offsets)
                      entries offsets))
              = default 0 (obj_get nucleus (referenceOffsets conditions))).
  { induction Hall as [|[key mapping] entries Hentry Hall IH]; intros offsets Hoffsets;
      [done|].
    simpl. apply IH. intros nucleus.
    destruct Hentry as [Hfixed | (n & Hkey & Hv)]; simpl in *.
    - by rewrite (fixedKeys_not_reference key Hfixed).
    - subst key. destruct (nucleus_of_key n) as [-> ->]. rewrite Hv. simpl.
      destruct (decide (n = nucleus)) as [->|Hne].
      + by rewrite obj_get_set_eq.
      + by rewrite obj_get_set_ne. }
  by apply Hloop.
Qed.

End ParameterVector.

(** ** fitting.js: what a result says *)
Section FitResults.
Import Fitting.





(** [x: assignedPeaks.map((_, i) => i)] *)
Lemma imap_indices {A : Type} (l : list A) :
  imap (fun i _ => i) l = seq 0 (length l).
Proof.
  assert (H : forall n, imap (fun i _ => (n + i)%nat) l = seq n (length l)).
  { induction l as [|a l IH]; intros n; simpl; [done|].
    rewrite Nat.add_0_r. f_equal. rewrite <- (IH (S n)).
    apply imap_ext. intros i b _. simpl. lia. }
  apply (H 0%nat).
Qed.

(** The three ways through [fitParameters]. *)
Lemma fitParameters_cases observedShifts buffers samplesMap initialConditions options
    optimizer :
  let assignments :=
    initialAssignments observedShifts buffers samplesMap initialConditions options in
  let nObs :=
    length (assignedPeaksOf observedShifts buffers samplesMap initialConditions options) in
  let nParams := length (initialParamsOf initialConditions options) in
  let dof := (Z.of_nat nObs - Z.of_nat nParams)%Z in
  let outcome :=
    run optimizer
      (fitParameters observedShifts buffers samplesMap initialConditions options) in
  (nObs = 0%nat
   /\ outcome = (Failed {| error := NoPeaksAssigned; ff_assignments := assignments;
                           nObservations := None; nParameters := None;
                           degreesOfFreedom := None |}, []))
  \/ (nObs <> 0%nat /\ (dof < 0)%Z
      /\ outcome = (Failed {| error := Underdetermined nObs nParams dof;
                              ff_assignments := assignments;
                              nObservations := Some nObs;
                              nParameters := Some nParams;
                              degreesOfFreedom := Some dof |}, []))
  \/ (nObs <> 0%nat /\ (0 <= dof)%Z
      /\ exists call,
           initialValues (lm_options call) = initialParamsOf initialConditions options
           /\ minValues (lm_options call)
              = bounds (parameterMapOf initialConditions options)
                  (initialParamsOf initialConditions options) 0 273 0 (-10)
           /\ maxValues (lm_options call)
              = bounds (parameterMapOf initialConditions options)
                  (initialParamsOf initialConditions options) 14 373 1 10
           /\ lm_maxIterations (lm_options call) = maxIterations (mergeOptions options)
           /\ errorTolerance (lm_options call) = tolerance (mergeOptions options)
           /\ y (data call)
              = map PeakAssignment.peak_observed_shift
                  (assignedPeaksOf observedShifts buffers samplesMap initialConditions
                     options)
           /\ x (data call) = seq 0 nObs
           /\ outcome
              = (match afterCall observedShifts buffers samplesMap initialConditions
                         options (optimizer call) with
                 | Returns fit => Succeeded fit
                 | Throw thrown =>
                   Failed {| error := FittingFailed thrown;
                             ff_assignments := assignments;
                             nObservations := None; nParameters := None;
                             degreesOfFreedom := None |}
                 end, [call])).
Proof.
  intros assignments nObs nParams dof outcome. subst outcome.
  unfold afterCall, fitParameters. cbv zeta.
  fold (initialAssignments observedShifts buffers samplesMap initialConditions options).
  fold (assignedPeaksOf observedShifts buffers samplesMap initialConditions options).
  fold assignments nObs.
  destruct (Nat.eqb_spec nObs 0) as [Hzero|Hpeaks]; [left; done|]. right.
  subst dof nParams. unfold initialParamsOf, parameterMapOf.
  destruct (buildParameterVector _ _) as [initialParams parameterMap].
  cbn [fst snd].
  destruct (Z.ltb_spec (Z.of_nat nObs - Z.of_nat (length initialParams)) 0) as [Hneg|Hpos].
  { left. done. }
  right. split; [done|]. split; [done|].
  match goal with
  | |- context [Optimize ?c _] => exists c
  end.
  do 6 (split; [done|]). split.
  { simpl. apply imap_indices. }
  simpl. by destruct (_ ≫= _).
Qed.




(** X17.  A failed result of [fitParameters] keeps the assignments made
    at the start, and its error tells how far the fitter got: without an
    assigned peak and with negative degrees of freedom the optimizer was
    not called, and the counts of the failure are those of the guard; a
    failed fit means one call of the optimizer, which threw what the
    error carries or returned values the evaluation threw on.  What the
    optimizer throws is never thrown on. *)
Theorem failed_fit (observedShifts : list (string * list R))
    (buffers : list BufferModel.Buffer) (samplesMap : gmap string BufferModel.Sample)
    (initialConditions : InitialConditions) (options : CallerOptions)
    (optimizer : LMCall -> Throws LMResult) (failure : FitFailure)
    (calls : list LMCall) :
  run optimizer
    (fitParameters observedShifts buffers samplesMap initialConditions options)
  = (Failed failure, calls) ->
  let nObs :=
    length (assignedPeaksOf observedShifts buffers samplesMap initialConditions options) in
  let nParams := length (initialParamsOf initialConditions options) in
  ff_assignments failure
  = initialAssignments observedShifts buffers samplesMap initialConditions options
  /\ match error failure with
     | NoPeaksAssigned => nObs = 0%nat /\ calls = []
     | Underdetermined n p d =>
       n = nObs /\ p = nParams /\ d = (Z.of_nat nObs - Z.of_nat nParams)%Z
       /\ (d < 0)%Z /\ nObs <> 0%nat /\ calls = []
       /\ nObservations failure = Some n /\ nParameters failure = Some p
       /\ degreesOfFreedom failure = Some d
     | FittingFailed thrown =>
       nObs <> 0%nat /\ (0 <= Z.of_nat nObs - Z.of_nat nParams)%Z
       /\ exists call,
            calls = [call]
            /\ afterCall observedShifts buffers samplesMap initialConditions options
                 (optimizer call) = Throw thrown
            /\ (forall e, optimizer call = Throw e -> thrown = e)
     end.
Proof.
  intros Hrun nObs nParams.
  destruct (fitParameters_cases observedShifts buffers samplesMap initialConditions
              options optimizer)
    as [[Hzero Hcase] | [(Hpeaks & Hdof & Hcase) | (Hpeaks & Hdof & call & Hinit & _ & _ & _ & _ & _ & _ & Hcase)]];
    rewrite Hrun in Hcase.
  - injection Hcase as -> ->. simpl. done.
  - injection Hcase as -> ->. simpl. repeat split; done.
  - destruct (afterCall _ _ _ _ _ _) as [fit'|thrown] eqn:Hafter; [discriminate Hcase|].
    injection Hcase as -> ->. simpl. repeat split; try done.
    exists call. repeat split; try done.
    intros e He. unfold afterCall in Hafter. rewrite He in Hafter. simpl in Hafter.
    congruence.
Qed.

Lemma failed_fit_witness :
  exists failure,
    run keepInitialValues
      (fitParameters oneFluorinePeak [Scenario.tfa] ∅ nominalConditions
         refiningTemperature)
    = (Failed failure, [])
    /\ ff_assignments failure
       = initialAssignments oneFluorinePeak [Scenario.tfa] ∅ nominalConditions
           refiningTemperature.
Proof.
  assert (HnObs : length (assignedPeaksOf oneFluorinePeak [Scenario.tfa] ∅
                            nominalConditions refiningTemperature) = 1%nat)
    by (by rewrite one_fluorine_peak_assigned).
  destruct (fitParameters_guard oneFluorinePeak [Scenario.tfa] ∅ nominalConditions
              refiningTemperature) as [Hfail _]; [rewrite HnObs; lia|].
  rewrite Hfail by (rewrite HnObs; simpl; lia).
  eexists. split; [reflexivity|].
  apply (failed_fit oneFluorinePeak [Scenario.tfa] ∅ nominalConditions
           refiningTemperature keepInitialValues _ []).
  rewrite Hfail by (rewrite HnObs; simpl; lia). reflexivity.
Defined.

Lemma bounds_ordered parameterMap initialParams :
  Forall2 Rlt (bounds parameterMap initialParams 0 273 0 (-10))
              (bounds parameterMap initialParams 14 373 1 10).
Proof.
  apply Forall2_same_length_lookup. unfold bounds. cbv zeta.
  split; [by rewrite !length_imap|].
  intros i lo hi. rewrite !list_lookup_imap.
  destruct (initialParams !! i) as [p|]; simpl; [|done].
  intros [= <-] [= <-]. repeat case_bool_decide; lra.
Qed.

Lemma bounds_of_pH parameterMap initialParams ofPH ofT ofI ofOffset :
  index <$> obj_get "pH" parameterMap = Some 0%nat ->
  (1 <= length initialParams)%nat ->
  bounds parameterMap initialParams ofPH ofT ofI ofOffset !! 0%nat = Some ofPH.
Proof.
  intros HpH Hlen. unfold bounds. cbv zeta. rewrite list_lookup_imap.
  destruct initialParams as [|p ps]; [simpl in Hlen; lia|]. simpl.
  by rewrite bool_decide_true.
Qed.

(** X18.  Every call [fitParameters] makes to the optimizer is well
    formed: it starts from the initial parameters, has one lower and one
    upper bound per parameter with the lower bound below the upper one,
    bounds the pH, its first parameter, to 0 and 14, gives the observed
    shifts of the peaks assigned at the start as data with their indices
    as abscissae, has at least as many data as parameters, and passes on
    the iteration limit and the tolerance of the options. *)
Theorem optimizer_call_is_well_formed (observedShifts : list (string * list R))
    (buffers : list BufferModel.Buffer) (samplesMap : gmap string BufferModel.Sample)
    (initialConditions : InitialConditions) (options : CallerOptions)
    (optimizer : LMCall -> Throws LMResult) (call : LMCall) :
  call ∈ (run optimizer
            (fitParameters observedShifts buffers samplesMap initialConditions
               options)).2 ->
  let assignedPeaks :=
    assignedPeaksOf observedShifts buffers samplesMap initialConditions options in
  let settings := lm_options call in
  initialValues settings = initialParamsOf initialConditions options
  /\ length (minValues settings) = length (initialValues settings)
  /\ length (maxValues settings) = length (initialValues settings)
  /\ Forall2 Rlt (minValues settings) (maxValues settings)
  /\ minValues settings !! 0%nat = Some 0
  /\ maxValues settings !! 0%nat = Some 14
  /\ y (data call) = map PeakAssignment.peak_observed_shift assignedPeaks
  /\ x (data call) = seq 0 (length assignedPeaks)
  /\ (length (initialValues settings) <= length (y (data call)))%nat
  /\ lm_maxIterations settings = maxIterations (mergeOptions options)
  /\ errorTolerance settings = tolerance (mergeOptions options).
Proof.
  intros Hcall assignedPeaks settings. subst settings.
  destruct (fitParameters_cases observedShifts buffers samplesMap initialConditions
              options optimizer)
    as [[_ Hcase] | [(_ & _ & Hcase)
                    | (Hpeaks & Hdof & call' & Hinit & Hmin & Hmax & Hiter & Htol
                       & Hy & Hx & Hcase)]];
    rewrite Hcase in Hcall; simpl in Hcall;
    try (by apply elem_of_nil in Hcall).
  apply list_elem_of_singleton in Hcall. subst call'.
  destruct (buildParameterVector_wellMapped
              (baseConditionsOf (mergeOptions options) initialConditions)
              (mergeOptions options)) as (next & _ & (m & HpH & Hm & _) & _).
  pose proof (initialParams_not_empty initialConditions options) as Hone.
  subst assignedPeaks. cbv zeta in Hdof.
  unfold parameterMapOf, initialParamsOf in *.
  destruct (buildParameterVector _ _) as [initialParams parameterMap].
  simpl in *.
  assert (HpH' : index <$> obj_get "pH" parameterMap = Some 0%nat)
    by (by rewrite HpH, <- Hm).
  rewrite Hinit, Hmin, Hmax, Hy, Hx, Hiter, Htol, length_map.
  unfold bounds at 1 2. rewrite !length_imap.
  repeat split; try done.
  - apply bounds_ordered.
  - by apply bounds_of_pH.
  - by apply bounds_of_pH.
  - lia.
Qed.

Lemma optimizer_call_is_well_formed_witness :
  exists call,
    call ∈ (run keepInitialValues
              (fitParameters oneFluorinePeak [Scenario.tfa] ∅ nominalConditions
                 noOptions)).2
    /\ minValues (lm_options call) !! 0%nat = Some 0
    /\ maxValues (lm_options call) !! 0%nat = Some 14.
Proof.
  assert (HnObs : length (assignedPeaksOf oneFluorinePeak [Scenario.tfa] ∅
                            nominalConditions noOptions) = 1%nat)
    by (by rewrite one_fluorine_peak_assigned).
  destruct (fitParameters_calls_optimizer oneFluorinePeak [Scenario.tfa] ∅
              nominalConditions noOptions keepInitialValues)
    as (result & call & Hrun & _);
    [rewrite HnObs; lia | rewrite HnObs; simpl; lia |].
  assert (Hcall : call ∈ (run keepInitialValues
                            (fitParameters oneFluorinePeak [Scenario.tfa] ∅
                               nominalConditions noOptions)).2)
    by (rewrite Hrun; left).
  exists call. split; [exact Hcall|].
  destruct (optimizer_call_is_well_formed oneFluorinePeak [Scenario.tfa] ∅
              nominalConditions noOptions keepInitialValues call Hcall)
    as (_ & _ & _ & _ & Hmin & Hmax & _).
  done.
Defined.

(** What is thrown for a missing resonance does not change what is
    returned. *)
Lemma predictPeak_whatever_thrown buffersMap samplesMap conditions notFound notFound'
    peak :
  match predictPeak buffersMap samplesMap conditions notFound peak with
  | Returns shift =>
    predictPeak buffersMap samplesMap conditions notFound' peak = Returns shift
  | Throw _ =>
    exists e, predictPeak buffersMap samplesMap conditions notFound' peak = Throw e
  end.
Proof.
  unfold predictPeak.
  destruct (_ ≫= _) as [buffer|]; [|eauto]. cbv zeta.
  destruct (List.find _ _) as [resonance|]; [done | eauto].
Qed.

(** X19.  The residual function and the model function agree: where the
    model function returns the predicted shifts, one per peak, the
    residual function returns observed minus predicted for each peak, in
    the order of the peaks; where the model function throws, the
    residual function throws. *)
Theorem residuals_are_observed_minus_model (assignedPeaks : list PeakAssignment.Peak)
    (buffersMap : gmap string BufferModel.Buffer)
    (samplesMap : gmap string BufferModel.Sample)
    (parameterMap : list (string * Mapping)) (baseConditions : Conditions)
    (params : list R) :
  match createModelFunction assignedPeaks buffersMap samplesMap parameterMap
          baseConditions params with
  | Returns predicted =>
    length predicted = length assignedPeaks
    /\ createResidualFunction assignedPeaks buffersMap samplesMap parameterMap
         baseConditions params
       = Returns (zip_with (fun peak shift =>
                              PeakAssignment.peak_observed_shift peak - shift)
                           assignedPeaks predicted)
  | Throw _ =>
    exists e,
      createResidualFunction assignedPeaks buffersMap samplesMap parameterMap
        baseConditions params = Throw e
  end.
Proof.
  unfold createModelFunction, createResidualFunction.
  destruct (extractConditions params parameterMap baseConditions) as [conditions|e];
    simpl; [|eauto].
  induction assignedPeaks as [|peak peaks IH]; simpl; [done|].
  pose proof (predictPeak_whatever_thrown buffersMap samplesMap conditions
                (fun _ => TypeError) resonanceNotFound peak) as Hpeak.
  destruct (predictPeak buffersMap samplesMap conditions (fun _ => TypeError) peak)
    as [shift|e]; simpl.
  - rewrite Hpeak. simpl.
    destruct (mapM (predictPeak buffersMap samplesMap conditions (fun _ => TypeError))
                   peaks) as [predicted|e]; simpl.
    + destruct IH as [Hlen ->]. simpl. by rewrite Hlen.
    + destruct IH as [e' ->]. simpl. eauto.
  - destruct Hpeak as [e' ->]. simpl. eauto.
Qed.

End FitResults.

(** ** fitting.js: rounds of fitting and reassignment *)
Section Reassignment.
Import Fitting.

(** The optimizer calls of [m] come first, then those of what follows. *)
Lemma run_fit_bind {A B : Type} (optimizer : LMCall -> Throws LMResult)
    (m : Fit A) (f : A -> Fit B) :
  run optimizer (fit_bind m f)
  = ((run optimizer (f (run optimizer m).1)).1,
     (run optimizer m).2 ++ (run optimizer (f (run optimizer m).1)).2).
Proof.
  induction m as [a | call k IH]; simpl.
  - by destruct (run optimizer (f a)).
  - rewrite IH. destruct (run optimizer (k (optimizer call))) as [a calls]. simpl.
    by destruct (run optimizer (f a)).
Qed.

(** What [fitParameters] does with the optimizer: nothing, or one call
    whose outcome ends the computation. *)
Lemma fitParameters_shape observedShifts buffers samplesMap initialConditions options :
  (exists result,
     fitParameters observedShifts buffers samplesMap initialConditions options
     = Done result)
  \/ (exists call k,
        fitParameters observedShifts buffers samplesMap initialConditions options
        = Optimize call k
        /\ forall outcome, exists result, k outcome = Done result).
Proof.
  unfold fitParameters. cbv zeta.
  destruct (_ =? _)%nat; [left; eauto|].
  destruct (buildParameterVector _ _) as [initialParams parameterMap].
  destruct (_ <? _)%Z; [left; eauto|].
  right. eexists _, _. split; [reflexivity|].
  intros outcome. cbv beta. destruct (_ ≫= _); eauto.
Qed.

Lemma fitParameters_at_most_one_call observedShifts buffers samplesMap
    initialConditions options optimizer :
  (length (run optimizer
             (fitParameters observedShifts buffers samplesMap initialConditions
                options)).2 <= 1)%nat.
Proof.
  destruct (fitParameters_shape observedShifts buffers samplesMap initialConditions
              options) as [[result ->] | (call & k & -> & Hk)]; simpl; [lia|].
  destruct (Hk (optimizer call)) as [result ->]. simpl. lia.
Qed.

Lemma reassignmentRounds_calls observedShifts buffers samplesMap options optimizer :
  forall rounds conditions result,
    let outcome :=
      run optimizer
        (reassignmentRounds observedShifts buffers samplesMap options rounds
           conditions result) in
    (length outcome.2 <= rounds)%nat
    /\ (rounds <> 0%nat -> is_Some outcome.1)
    /\ (rounds = 0%nat -> outcome.1 = result).
Proof.
  induction rounds as [|rounds IH]; intros conditions result; simpl.
  { repeat split; [lia | done]. }
  rewrite run_fit_bind.
  match goal with
  | |- context [run optimizer (fitParameters ?o ?b ?s ?c ?p)] =>
      pose proof (fitParameters_at_most_one_call o b s c p optimizer) as Hone;
      destruct (run optimizer (fitParameters o b s c p)) as [first calls]
  end.
  simpl in *.
  destruct first as [failure | fit]; simpl.
  { rewrite app_nil_r. repeat split; [lia | eauto | done]. }
  destruct (match ic_pH conditions with
            | Some before => Rltb (Rabs (pH (Fitting.conditions fit) - before)) 0.1
            | None => false
            end); simpl.
  { rewrite app_nil_r. repeat split; [lia | eauto | done]. }
  destruct (IH (asInitialConditions (Fitting.conditions fit)) (Some (Succeeded fit)))
    as (Hcalls & Hsome & Hnone).
  rewrite length_app. repeat split; [lia | | done].
  intros _. destruct rounds; [rewrite Hnone by done; eauto | by apply Hsome].
Qed.

(** X20.  Whatever the optimizer does, [fitWithReassignment] calls it at
    most [maxRounds] times, and it returns [null] exactly when
    [maxRounds] is zero. *)
Theorem fitWithReassignment_rounds (observedShifts : list (string * list R))
    (buffers : list BufferModel.Buffer) (samplesMap : gmap string BufferModel.Sample)
    (initialConditions : InitialConditions) (options : CallerOptions)
    (maxRounds : nat) (optimizer : LMCall -> Throws LMResult) :
  let outcome :=
    run optimizer
      (fitWithReassignment observedShifts buffers samplesMap initialConditions
         options maxRounds) in
  (length outcome.2 <= maxRounds)%nat
  /\ (outcome.1 = None <-> maxRounds = 0%nat).
Proof.
  unfold fitWithReassignment.
  destruct (reassignmentRounds_calls observedShifts buffers samplesMap options optimizer
              maxRounds initialConditions None) as (Hcalls & Hsome & Hnone).
  split; [done|]. split.
  - intros Hresult. destruct maxRounds; [done|].
    destruct Hsome as [r Hr]; [done|]. congruence.
  - auto.
Qed.

(** X21.  The first round ends [fitWithReassignment] when it fails, when
    the fitted pH is within 0.1 of the pH it started from, and when it is
    the only round: its result is returned as it is, and the optimizer
    has been called for this round only. *)
Theorem fitWithReassignment_first_round (observedShifts : list (string * list R))
    (buffers : list BufferModel.Buffer) (samplesMap : gmap string BufferModel.Sample)
    (initialConditions : InitialConditions) (options : CallerOptions)
    (maxRounds : nat) (optimizer : LMCall -> Throws LMResult)
    (result : FitResult) (calls : list LMCall) :
  run optimizer
    (fitParameters observedShifts buffers samplesMap initialConditions
       (withInitialPH options
          (default (default 7.0 (mjoin (opt_initialPH options)))
                   (ic_pH initialConditions))))
  = (result, calls) ->
  success result = false
  \/ (exists fit before,
        result = Succeeded fit /\ ic_pH initialConditions = Some before
        /\ Rabs (pH (conditions fit) - before) < 0.1)
  \/ maxRounds = 0%nat ->
  run optimizer
    (fitWithReassignment observedShifts buffers samplesMap initialConditions options
       (S maxRounds))
  = (Some result, calls).
Proof.
  intros Hfirst Hstop. unfold fitWithReassignment. simpl.
  rewrite run_fit_bind, Hfirst. simpl.
  destruct result as [failure | fit]; simpl.
  { by rewrite app_nil_r. }
  destruct Hstop as [Hfailed | [(fit' & before & [= <-] & -> & Hstable) | ->]].
  - discriminate Hfailed.
  - rewrite (proj2 (Rltb_true _ _) Hstable). simpl. by rewrite app_nil_r.
  - destruct (match ic_pH initialConditions with
              | Some before => Rltb (Rabs (pH (conditions fit) - before)) 0.1
              | None => false
              end); simpl; by rewrite app_nil_r.
Qed.

Lemma fitWithReassignment_first_round_witness :
  exists failure,
    run keepInitialValues
      (fitWithReassignment oneFluorinePeak [Scenario.tfa] ∅ nominalConditions
         refiningTemperature 3)
    = (Some (Failed failure), []).
Proof.
  set (options :=
         withInitialPH refiningTemperature
           (default (default 7.0 (mjoin (opt_initialPH refiningTemperature)))
                    (ic_pH nominalConditions))).
  assert (HnObs : length (assignedPeaksOf oneFluorinePeak [Scenario.tfa] ∅
                            nominalConditions options) = 1%nat)
    by (by rewrite one_fluorine_peak_assigned).
  destruct (fitParameters_guard oneFluorinePeak [Scenario.tfa] ∅ nominalConditions
              options) as [Hfail _]; [rewrite HnObs; lia|].
  eexists.
  apply (fitWithReassignment_first_round oneFluorinePeak [Scenario.tfa] ∅
           nominalConditions refiningTemperature 2 keepInitialValues _ []).
  - fold options. rewrite Hfail by (rewrite HnObs; simpl; lia). reflexivity.
  - left. reflexivity.
Defined.

End Reassignment.

(** ** uncertainty.js: matrices *)
Section Matrices.
Import Uncertainty.

Lemma table_rectangular n m f : rectangular n m (table n m f).
Proof.
  unfold rectangular, table. split; [by rewrite length_map, length_seq|].
  apply Forall_fmap, Forall_forall. intros i _. simpl.
  by rewrite length_map, length_seq.
Qed.

Lemma table_lookup n m f i j :
  (i < n)%nat -> (j < m)%nat ->
  exists row, table n m f !! i = Some row /\ row !! j = Some (f i j).
Proof.
  intros Hi Hj. unfold table. eexists. split.
  - rewrite list_lookup_fmap, lookup_seq_lt by done. reflexivity.
  - simpl. by rewrite list_lookup_fmap, lookup_seq_lt.
Qed.

Lemma mget_table n m f i j :
  mget (table n m f) i j = if ((i <? n) && (j <? m))%nat then f i j else 0.
Proof.
  unfold mget, table. change Matrix with (list (list R)). rewrite list_lookup_fmap.
  destruct (Nat.ltb_spec i n) as [Hi|Hi]; simpl.
  - rewrite lookup_seq_lt by done. simpl. rewrite list_lookup_fmap.
    destruct (Nat.ltb_spec j m) as [Hj|Hj].
    + by rewrite lookup_seq_lt.
    + by rewrite lookup_seq_ge.
  - by rewrite lookup_seq_ge.
Qed.

Lemma table_symmetric n f :
  (forall i j, f i j = f j i) -> symmetric (table n n f).
Proof.
  intros Hf i j. rewrite !mget_table, Hf.
  by rewrite andb_comm.
Qed.

(** The sum over the rows of a matrix, which the loop over [k] adds
    up. *)
Lemma sum_over_rows (A : Matrix) (g : list R -> R) :
  fold_left (fun sum k => sum + g (default [] (A !! k))) (seq 0 (length A)) 0
  = Rsum (map g A).
Proof.
  assert (H : forall (pre rest : Matrix) acc,
            fold_left (fun sum k => sum + g (default [] ((pre ++ rest) !! k)))
                      (seq (length pre) (length rest)) acc
            = acc + Rsum (map g rest)).
  { intros pre rest. revert pre. induction rest as [|row rest IH]; intros pre acc.
    - unfold Rsum. simpl. lra.
    - simpl. rewrite list_lookup_middle by done. simpl.
      rewrite (cons_middle row pre rest), app_assoc.
      replace (S (length pre)) with (length (pre ++ [row]))
        by (rewrite length_app; simpl; lia).
      rewrite IH. unfold Rsum. simpl. lra. }
  rewrite <- (Rplus_0_l (Rsum _)). apply (H [] A 0).
Qed.

Lemma mget_row (A : Matrix) (k i : nat) :
  mget A k i = vget (default [] (A !! k)) i.
Proof. unfold mget, vget. by destruct (A !! k). Qed.

Lemma fold_left_ext_in {A B : Type} (f g : B -> A -> B) (l : list A) (b : B) :
  (forall b a, f b a = g b a) -> fold_left f l b = fold_left g l b.
Proof.
  intros Hfg. revert b. induction l as [|a l IH]; intros b; simpl; [done|].
  by rewrite Hfg, IH.
Qed.

(** X22.  [matrixTransposeProduct] throws exactly on a matrix without
    rows.  Otherwise it returns a square matrix with as many rows as the
    first row has entries; when all rows of the argument have that many
    entries, its entry (i, j) is the sum over the rows of the products
    of their entries i and j, it is symmetric, and its diagonal is not
    negative. *)
Theorem matrixTransposeProduct_gram (A : Matrix) :
  match matrixTransposeProduct A with
  | Throw e => A = [] /\ e = TypeError
  | Returns M =>
    exists row0 rest,
      A = row0 :: rest
      /\ rectangular (length row0) (length row0) M
      /\ (rectangular (length A) (length row0) A ->
          symmetric M
          /\ (forall i, 0 <= mget M i i)
          /\ forall i j, (i < length row0)%nat -> (j < length row0)%nat ->
               mget M i j = Rsum (map (fun row => vget row i * vget row j) A))
  end.
Proof.
  destruct A as [|row0 rest]; [done|].
  set (A := row0 :: rest).
  set (f := fun i j => fold_left (fun sum k => sum + mget A k i * mget A k j)
                                 (seq 0 (length A)) 0).
  assert (HM : matrixTransposeProduct A = Returns (table (length row0) (length row0) f))
    by reflexivity.
  rewrite HM. clear HM.
  assert (Hf : forall i j, f i j = Rsum (map (fun row => vget row i * vget row j) A)).
  { intros i j. unfold f.
    rewrite <- (sum_over_rows A (fun row => vget row i * vget row j)).
    apply fold_left_ext_in. intros sum k. by rewrite !mget_row. }
  clearbody f.
  exists row0, rest. split; [done|].
  split; [apply table_rectangular|].
  intros _. split.
  { apply table_symmetric. intros i j. rewrite !Hf. f_equal.
    apply map_ext. intros; lra. }
  split.
  - intros i. rewrite mget_table. destruct (_ && _); [|lra].
    rewrite Hf. clear. induction A as [|row A IH]; unfold Rsum; simpl; [lra|].
    unfold Rsum in IH. pose proof (Rle_0_sqr (vget row i)) as Hr. unfold Rsqr in Hr. lra.
  - intros i j Hi Hj. rewrite mget_table.
    destruct (Nat.ltb_spec i (length row0)); [|lia].
    destruct (Nat.ltb_spec j (length row0)); [|lia]. simpl. apply Hf.
Qed.

Lemma matrixTransposeProduct_gram_witness :
  exists M,
    matrixTransposeProduct [[1; 2]; [3; 4]] = Returns M
    /\ mget M 0 1
       = Rsum (map (fun row => vget row 0 * vget row 1) [[1; 2]; [3; 4]]).
Proof.
  pose proof (matrixTransposeProduct_gram [[1; 2]; [3; 4]]) as H.
  destruct (matrixTransposeProduct [[1; 2]; [3; 4]]) as [M|e];
    [|destruct H as [H _]; discriminate H].
  destruct H as (row0 & rest & [= <- <-] & _ & H).
  exists M. split; [done|].
  destruct H as (_ & _ & H).
  - split; [done|]. repeat constructor.
  - apply H; simpl; lia.
Defined.

End Matrices.

(** ** uncertainty.js: the Jacobian *)
Section Jacobian.
Import Uncertainty.

Lemma zeros_rectangular n m : rectangular n m (zeros n m).
Proof.
  unfold rectangular, zeros. split; [apply length_replicate|].
  apply Forall_replicate, length_replicate.
Qed.

Lemma mset_rectangular n m A i j x :
  rectangular n m A -> rectangular n m (mset A i j x).
Proof.
  intros [Hn Hm]. unfold rectangular, mset. change Matrix with (list (list R)) in *.
  split; [by rewrite length_alter|].
  apply Forall_forall. intros row Hrow.
  apply list_elem_of_lookup in Hrow as [k Hk].
  rewrite Forall_forall in Hm.
  destruct (decide (k = i)) as [->|Hne].
  - rewrite list_lookup_alter_eq in Hk.
    destruct (A !! i) as [row'|] eqn:E; [|discriminate]. simpl in Hk.
    injection Hk as <-. rewrite length_insert. apply Hm.
    by eapply list_elem_of_lookup_2.
  - rewrite list_lookup_alter_ne in Hk by done. apply Hm.
    by eapply list_elem_of_lookup_2.
Qed.

Lemma mget_mset n m A i j x i' j' :
  rectangular n m A -> (i < n)%nat -> (j < m)%nat ->
  mget (mset A i j x) i' j'
  = if ((i' =? i) && (j' =? j))%nat then x else mget A i' j'.
Proof.
  intros [Hn Hm] Hi Hj. unfold mget, mset. change Matrix with (list (list R)) in *.
  destruct (Nat.eqb_spec i' i) as [->|Hne]; simpl.
  - rewrite list_lookup_alter_eq.
    destruct (A !! i) as [row|] eqn:E.
    + simpl. rewrite Forall_forall in Hm.
      assert (Hrow : length row = m) by (apply Hm; by eapply list_elem_of_lookup_2).
      destruct (Nat.eqb_spec j' j) as [->|Hne].
      * rewrite list_lookup_insert_eq by lia. done.
      * by rewrite list_lookup_insert_ne.
    + apply lookup_ge_None_1 in E. lia.
  - by rewrite list_lookup_alter_ne.
Qed.

(** The loop over [i] that fills column [j]. *)
Lemma set_column n m (d : nat -> R) (j : nat) :
  (j < m)%nat ->
  forall (len a : nat) (J : Matrix),
    (a + len = n)%nat -> rectangular n m J ->
    let J' := fold_left (fun J i => mset J i j (d i)) (seq a len) J in
    rectangular n m J'
    /\ forall i' j', mget J' i' j'
                     = if ((a <=? i') && (i' <? n) && (j' =? j))%nat then d i'
                       else mget J i' j'.
Proof.
  intros Hj. induction len as [|len IH]; intros a J Hlen HJ; simpl.
  - split; [done|]. intros i' j'.
    destruct (Nat.leb_spec a i'), (Nat.ltb_spec i' n); simpl; try done; lia.
  - destruct (IH (S a) (mset J a j (d a))) as [Hrect Hget];
      [lia | by apply mset_rectangular|].
    split; [done|]. intros i' j'. rewrite Hget.
    rewrite (mget_mset n m) by (done || lia).
    destruct (Nat.leb_spec (S a) i'), (Nat.leb_spec a i'), (Nat.ltb_spec i' n),
             (Nat.eqb_spec j' j), (Nat.eqb_spec i' a); simpl; try done; try lia.
    by subst.
Qed.

(** A loop whose body can throw has returned at every turn when it
    returns, and has thrown at some turn when it throws. *)
Lemma foldM_Throw {A B : Type} (f : B -> A -> Throws B) (l : list A) (b : B) e :
  foldM f l b = Throw e -> exists a b', a ∈ l /\ f b' a = Throw e.
Proof.
  revert b. induction l as [|a l IH]; intros b; simpl; [discriminate|].
  destruct (f b a) as [b'|e'] eqn:E; simpl.
  - intros H. destruct (IH _ H) as (a' & b'' & Hin & Hf).
    exists a', b''. split; [by right | done].
  - intros [= ->]. exists a, b. split; [left | done].
Qed.

Lemma jacobian_columns residualFn params step n :
  forall (len s : nat) (J J' : Matrix),
    (s + len = length params)%nat -> rectangular n (length params) J ->
    (forall i j, (i < n)%nat -> (j < s)%nat ->
                 isCentralDifference residualFn params step i j (mget J i j)) ->
    foldM
      (fun jacobian j =>
         let paramsPlus := alter (fun p => p + step) j params in
         residualsPlus ← residualFn paramsPlus;
         let paramsMinus := alter (fun p => p - step) j params in
         residualsMinus ← residualFn paramsMinus;
         mret (fold_left
                 (fun jacobian i =>
                    mset jacobian i j
                      ((vget residualsPlus i - vget residualsMinus i) / (2 * step)))
                 (seq 0 n) jacobian))
      (seq s len) J = Returns J' ->
    rectangular n (length params) J'
    /\ forall i j, (i < n)%nat -> (j < length params)%nat ->
                   isCentralDifference residualFn params step i j (mget J' i j).
Proof.
  induction len as [|len IH]; intros s J J' Hlen HJ Hdone; simpl.
  - intros [= <-]. split; [done|]. intros i j Hi Hj. apply Hdone; lia.
  - destruct (residualFn (alter (fun p => p + step) s params)) as [plus|e] eqn:Eplus;
      simpl; [|discriminate].
    destruct (residualFn (alter (fun p => p - step) s params)) as [minus|e] eqn:Eminus;
      simpl; [|discriminate].
    destruct (set_column n (length params)
                (fun i => (vget plus i - vget minus i) / (2 * step)) s
                ltac:(lia) n 0 J ltac:(lia) HJ) as [Hrect Hget].
    apply IH; [lia | done |].
    intros i j Hi Hj. rewrite Hget.
    destruct (Nat.ltb_spec i n); [|lia]. simpl.
    destruct (Nat.eqb_spec j s) as [->|Hne].
    + exists plus, minus. split; [done|]. split; [done|].
      intros a b Ha Hb. unfold vget. by rewrite Ha, Hb.
    + apply Hdone; lia.
Qed.

Lemma calculateJacobian_returns residualFn params step jacobian :
  calculateJacobian residualFn params step = Returns jacobian ->
  exists baseResiduals,
    residualFn params = Returns baseResiduals
    /\ rectangular (length baseResiduals) (length params) jacobian
    /\ forall i j, (i < length baseResiduals)%nat -> (j < length params)%nat ->
         isCentralDifference residualFn params step i j (mget jacobian i j).
Proof.
  unfold calculateJacobian. cbv zeta.
  destruct (residualFn params) as [base|e] eqn:Ebase; simpl; [|discriminate].
  intros Efold. exists base. split; [done|].
  apply (jacobian_columns residualFn params step (length base)
           (length params) 0 _ jacobian) in Efold;
    [done | lia | apply zeros_rectangular |].
  intros i j _ Hj. lia.
Qed.

(** X23.  When [calculateJacobian] returns, the residual function has
    returned at the parameters and at every step forward and backward,
    and the matrix has a row for each residual and a column for each
    parameter, with the central difference of residual i in parameter j
    at (i, j): the difference of the entries i of the residuals at the
    step forward and at the step backward in parameter j, over twice the
    step.  When it throws, it throws what the residual function
    threw, at the parameters or at a step from them. *)
Theorem calculateJacobian_central_differences
    (residualFn : list R -> Throws (list R)) (params : list R) (step : R) :
  match calculateJacobian residualFn params step with
  | Returns jacobian =>
    exists baseResiduals,
      residualFn params = Returns baseResiduals
      /\ rectangular (length baseResiduals) (length params) jacobian
      /\ forall i j, (i < length baseResiduals)%nat -> (j < length params)%nat ->
           isCentralDifference residualFn params step i j (mget jacobian i j)
  | Throw e =>
    residualFn params = Throw e
    \/ exists j, (j < length params)%nat
                 /\ (residualFn (alter (fun p => p + step) j params) = Throw e
                     \/ residualFn (alter (fun p => p - step) j params) = Throw e)
  end.
Proof.
  destruct (calculateJacobian residualFn params step) as [J|e] eqn:Ecalc.
  { by apply calculateJacobian_returns. }
  unfold calculateJacobian in Ecalc. cbv zeta in Ecalc.
  destruct (residualFn params) as [base|e'] eqn:Ebase; simpl in Ecalc;
    [|left; congruence].
  rename Ecalc into Efold.
  - right. apply foldM_Throw in Efold as (j & J & Hj & Hthrow).
    apply elem_of_seq in Hj. exists j. split; [lia|].
    destruct (residualFn (alter (fun p => p + step) j params)) as [plus|e'];
      simpl in Hthrow; [|left; congruence].
    destruct (residualFn (alter (fun p => p - step) j params)) as [minus|e'];
      simpl in Hthrow; [discriminate | right; congruence].
Qed.

Lemma calculateJacobian_central_differences_witness :
  exists jacobian,
    calculateJacobian (fun params => Returns [vget params 0 - 7]) [7] 1e-6
    = Returns jacobian
    /\ isCentralDifference (fun params => Returns [vget params 0 - 7]) [7] 1e-6 0 0
         (mget jacobian 0 0).
Proof.
  pose proof (calculateJacobian_central_differences
                (fun params => Returns [vget params 0 - 7]) [7] 1e-6) as H.
  destruct (calculateJacobian (fun params => Returns [vget params 0 - 7]) [7] 1e-6)
    as [jacobian|e].
  - exists jacobian. split; [done|].
    destruct H as (base & [= <-] & _ & H). apply H; simpl; lia.
  - destruct H as [H | (j & _ & [H | H])]; discriminate H.
Defined.

End Jacobian.

(** ** uncertainty.js: the inverse and the correlation *)
Section Inverse.
Import Uncertainty.

Lemma sum_of_squares_not_negative (g : nat -> R) (l : list nat) (acc : R) :
  0 <= acc -> 0 <= fold_left (fun sum k => sum + g k * g k) l acc.
Proof.
  revert acc. induction l as [|k l IH]; intros acc Hacc; simpl; [done|].
  apply IH. pose proof (Rle_0_sqr (g k)) as Hr. unfold Rsqr in Hr. lra.
Qed.

Lemma inverse_of_square (s : R) :
  s <> 0 -> s * s * (1 / s * (1 / s)) = 1.
Proof.
  intros Hs. unfold Rdiv. rewrite !Rmult_1_l.
  replace (s * s * (/ s * / s)) with ((s * / s) * (s * / s)) by ring.
  rewrite Rinv_r by done. lra.
Qed.

(** X24.  For a square matrix [invertSymmetricMatrix] returns a square
    matrix of the same size that is symmetric and whose diagonal is not
    negative, whatever the entries are.  The inverse of a 1 x 1 matrix with a
    positive entry is exact: the entry of the result times the entry of
    the argument is 1; an entry that is not positive is taken for
    1e-10. *)
Theorem invertSymmetricMatrix_symmetric :
  (forall A : Matrix,
     rectangular (length A) (length A) A ->
     rectangular (length A) (length A) (invertSymmetricMatrix A)
     /\ symmetric (invertSymmetricMatrix A)
     /\ forall i, 0 <= mget (invertSymmetricMatrix A) i i)
  /\ (forall a : R,
        exists x,
          invertSymmetricMatrix [[a]] = [[x]]
          /\ (0 < a -> a * x = 1)
          /\ (a <= 0 -> 1e-10 * x = 1)).
Proof.
  split.
  - intros A _.
    set (n := length A).
    set (Linv := invertLower n (cholesky A)).
    set (g := fun i j =>
                fold_left (fun sum k => sum + mget Linv k i * mget Linv k j)
                          (seq (Nat.max i j) (n - Nat.max i j)) 0).
    assert (HA : invertSymmetricMatrix A = table n n g) by reflexivity.
    rewrite HA. split; [apply table_rectangular|]. split.
    + apply table_symmetric. intros i j. unfold g. rewrite (Nat.max_comm j i).
      apply fold_left_ext_in. intros; lra.
    + intros i. rewrite mget_table. destruct (_ && _); [|lra].
      unfold g. by apply (sum_of_squares_not_negative (fun k => mget Linv k i)).
  - intros a.
    unfold invertSymmetricMatrix, invertLower, cholesky. cbn.
    unfold mget. cbn. eexists. split; [reflexivity|].
    rewrite !Rplus_0_l. split; intros Ha.
    + rewrite (proj2 (Rleb_false a 0)) by lra.
      assert (Hs : 0 < sqrt a) by (by apply sqrt_lt_R0).
      rewrite <- (sqrt_sqrt a) at 1 by lra. apply inverse_of_square. lra.
    + rewrite (proj2 (Rleb_true a 0)) by lra.
      assert (Hs : 0 < sqrt 1e-10) by (apply sqrt_lt_R0; lra).
      rewrite <- (sqrt_sqrt 1e-10) at 1 by lra. apply inverse_of_square.
      apply Rgt_not_eq, Hs.
Qed.

Lemma invertSymmetricMatrix_symmetric_witness :
  exists x, invertSymmetricMatrix [[4]] = [[x]] /\ 4 * x = 1.
Proof.
  destruct (proj2 invertSymmetricMatrix_symmetric 4) as (x & Hx & Hpos & _).
  exists x. split; [exact Hx|]. apply Hpos. lra.
Defined.

Lemma correlationFromCovariance_shape (covariance : Matrix) :
  rectangular (length covariance) (length covariance)
    (correlationFromCovariance covariance)
  /\ exists g,
       correlationFromCovariance covariance
       = table (length covariance) (length covariance) g.
Proof.
  assert (H : exists g,
            correlationFromCovariance covariance
            = table (length covariance) (length covariance) g)
    by (eexists; reflexivity).
  split; [|done]. destruct H as [g ->]. apply table_rectangular.
Qed.

(** X25.  The correlation matrix is square, of the size of the
    covariance matrix, with 1 everywhere on its diagonal; an entry off
    the diagonal is 0 as soon as one of the two variances is not
    positive, and the matrix is symmetric when the covariance matrix is
    square and symmetric. *)
Theorem correlationFromCovariance_unit_diagonal (covariance : Matrix) :
  let n := length covariance in
  let correlation := correlationFromCovariance covariance in
  rectangular n n correlation
  /\ (forall i, (i < n)%nat -> mget correlation i i = 1)
  /\ (forall i j, (i < n)%nat -> (j < n)%nat -> i <> j ->
        mget covariance i i <= 0 \/ mget covariance j j <= 0 ->
        mget correlation i j = 0)
  /\ (rectangular n n covariance -> symmetric covariance -> symmetric correlation).
Proof.
  intros n correlation. subst correlation.
  set (stddevs := imap (fun i row => sqrt (vget row i)) covariance).
  set (g := fun i j =>
              if Rltb 0 (vget stddevs i) && Rltb 0 (vget stddevs j)
              then mget covariance i j / (vget stddevs i * vget stddevs j)
              else if Nat.eqb i j then 1 else 0).
  assert (HC : correlationFromCovariance covariance = table n n g) by reflexivity.
  assert (Hsd : forall i, vget stddevs i = sqrt (mget covariance i i)).
  { intros i. unfold vget, stddevs, mget.
    change Matrix with (list (list R)) in *. rewrite list_lookup_imap.
    destruct (covariance !! i) as [row|]; simpl; [done|]. by rewrite sqrt_0. }
  assert (Hpos : forall i, Rltb 0 (vget stddevs i) = true -> 0 < mget covariance i i).
  { intros i Hi. apply Rltb_true in Hi. rewrite Hsd in Hi.
    destruct (Rlt_le_dec 0 (mget covariance i i)) as [|Hle]; [done|].
    rewrite sqrt_neg_0 in Hi by done. lra. }
  rewrite HC. split; [apply table_rectangular|]. split; [|split].
  - intros i Hi. rewrite mget_table.
    destruct (Nat.ltb_spec i n); [|lia]. simpl. unfold g.
    destruct (Rltb 0 (vget stddevs i)) eqn:E; simpl.
    + pose proof (Hpos i E) as Hc. rewrite Hsd, sqrt_sqrt by lra.
      unfold Rdiv. apply Rinv_r. lra.
    + by rewrite Nat.eqb_refl.
  - intros i j Hi Hj Hne Hvar. rewrite mget_table.
    destruct (Nat.ltb_spec i n); [|lia]. destruct (Nat.ltb_spec j n); [|lia].
    simpl. unfold g.
    destruct (Rltb 0 (vget stddevs i)) eqn:Ei; simpl.
    + destruct (Rltb 0 (vget stddevs j)) eqn:Ej; simpl.
      * pose proof (Hpos i Ei). pose proof (Hpos j Ej). lra.
      * destruct (Nat.eqb_spec i j); [done | done].
    + destruct (Nat.eqb_spec i j); [done | done].
  - intros _ Hsym. apply table_symmetric. intros i j. unfold g.
    rewrite (Hsym i j), (andb_comm (Rltb 0 (vget stddevs i))),
            (Rmult_comm (vget stddevs i)), (Nat.eqb_sym i j). done.
Qed.

Lemma correlationFromCovariance_unit_diagonal_witness :
  mget (correlationFromCovariance [[4; 1]; [1; 9]]) 1 1 = 1.
Proof.
  apply (proj1 (proj2 (correlationFromCovariance_unit_diagonal [[4; 1]; [1; 9]]))).
  simpl. lia.
Defined.

End Inverse.

(** ** uncertainty.js: the two uncertainty functions *)
Section FullUncertainties.
Import Uncertainty.

Lemma mapM_Returns_all {A B : Type} (f : A -> Throws B) (g : A -> B) (l : list A) :
  (forall a, a ∈ l -> f a = Returns (g a)) -> mapM f l = Returns (map g l).
Proof.
  induction l as [|a l IH]; intros Hf; [done|].
  simpl. rewrite (Hf a) by left. simpl. rewrite IH; [done|].
  intros a' Ha'. apply Hf. by right.
Qed.

(** The inverse as a table. *)
Lemma invertSymmetricMatrix_table (A : Matrix) :
  exists g, invertSymmetricMatrix A = table (length A) (length A) g.
Proof. eexists. reflexivity. Qed.

(** X26.  [calculateFullUncertainties] and
    [calculateParameterUncertainties] return the same uncertainties.
    The covariance and the correlation are [null] together, exactly when
    the chain of Jacobian and product has thrown, and then the
    uncertainties are zero for each parameter; otherwise both are square
    matrices with a row for each parameter. *)
Theorem full_uncertainties_agree (params : list R)
    (residualFn : list R -> Throws (list R)) (residualVariance step : R) :
  let full := calculateFullUncertainties params residualFn residualVariance step in
  let n := length params in
  fu_uncertainties full
  = calculateParameterUncertainties params residualFn residualVariance step
  /\ match fu_covariance full, fu_correlation full with
     | Some covariance, Some correlation =>
       rectangular n n covariance /\ rectangular n n correlation
     | None, None => fu_uncertainties full = map (fun _ => 0) params
     | _, _ => False
     end.
Proof.
  unfold calculateFullUncertainties, calculateParameterUncertainties,
    uncertaintiesOrThrow. cbv zeta.
  destruct (calculateJacobian residualFn params step) as [J|e] eqn:EJ; simpl; [|done].
  apply calculateJacobian_returns in EJ as (base & _ & [HJn HJm] & _).
  destruct J as [|row0 rest]; simpl; [done|].
  apply Forall_cons in HJm as [Hrow0 _].
  set (JTJ := map _ (seq 0 (length row0))).
  assert (HJTJ : length JTJ = length params)
    by (unfold JTJ; by rewrite length_map, length_seq).
  destruct (invertSymmetricMatrix_table JTJ) as [g Hg]. rewrite Hg, HJTJ.
  set (n := length params).
  set (h := fun c => if Rltb 0 c then sqrt c else 0).
  assert (Hparameter :
            mapM (fun i =>
                    match table n n g !! i with
                    | None => Throw TypeError
                    | Some row =>
                      match row !! i with
                      | None => mret 0
                      | Some c =>
                        mret (if Rltb 0 (c * residualVariance)
                              then sqrt (c * residualVariance) else 0)
                      end
                    end) (seq 0 n)
            = Returns (map (fun i => h (g i i * residualVariance)) (seq 0 n))).
  { apply mapM_Returns_all. intros i Hi. apply elem_of_seq in Hi.
    destruct (table_lookup n n g i i) as (row & -> & ->); [lia | lia | done]. }
  change Matrix with (list (list R)) in *. rewrite Hparameter. split.
  - apply list_eq. intros i. rewrite list_lookup_imap.
    rewrite (list_lookup_fmap (fun i => h (g i i * residualVariance))).
    rewrite (list_lookup_fmap (fun row => map (fun val => val * residualVariance) row)).
    destruct (decide (i < n)%nat) as [Hi|Hi].
    + destruct (table_lookup n n g i i) as (row & Hrow & Hc); [lia | lia |].
      rewrite Hrow, lookup_seq_lt by done. simpl.
      by rewrite (list_lookup_fmap (fun val => val * residualVariance)), Hc.
    + rewrite lookup_seq_ge by lia.
      destruct (table_rectangular n n g) as [Hlen _].
      rewrite (lookup_ge_None_2 (table n n g)) by lia. done.
  - destruct (table_rectangular n n g) as [Hlen Hrows]. split.
    + split; [by rewrite length_map|].
      apply Forall_fmap. eapply Forall_impl; [exact Hrows|].
      intros row Hrow. simpl. by rewrite length_map.
    + destruct (correlationFromCovariance_shape
                  (map (fun row => map (fun val => val * residualVariance) row)
                       (table n n g))) as [Hc _].
      rewrite length_map, Hlen in Hc. done.
Qed.

End FullUncertainties.

(** ** validation.js *)
Section ValidationReports.
Import Fitting Validation.

Lemma validateParameters_valid parameters :
  pc_valid (validateParameters parameters) = true <-> withinPhysicalRanges parameters.
Proof.
  unfold validateParameters, withinPhysicalRanges. cbv zeta.
  destruct (obj_get "pH" parameters) as [pPH|];
    destruct (obj_get "temperature" parameters) as [pT|];
    destruct (obj_get "ionicStrength" parameters) as [pI|];
    repeat match goal with
    | |- context [Rltb ?a ?b] =>
        let E := fresh "E" in
        destruct (Rltb a b) eqn:E;
        [apply Rltb_true in E | apply Rltb_false in E]
    end; simpl;
    (split;
     [ intros Hvalid; try discriminate Hvalid;
       (split; [|split]); intros ? [= <-]; lra
     | intros (HpH & HT & HI); try done;
       try (specialize (HpH _ eq_refl)); try (specialize (HT _ eq_refl));
       try (specialize (HI _ eq_refl)); exfalso; lra ]).
Qed.

Lemma fold_left_app_flat_map {A B : Type} (f : A -> list B) (l : list A) (acc : list B) :
  fold_left (fun acc a => acc ++ f a) l acc = acc ++ flat_map f l.
Proof.
  revert acc. induction l as [|a l IH]; intros acc; simpl.
  - by rewrite app_nil_r.
  - by rewrite IH, app_assoc.
Qed.

Lemma empty_when_not_longer_than_zero {A : Type} (l : list A) :
  (0 <? length l)%nat = false -> l = [].
Proof. destruct l; [done | discriminate]. Qed.

(** The warnings of the report, whatever the parameters are. *)
Lemma validateFitResult_warnings (conditions : Conditions)
    (nominalConditions : NominalConditions) (samples : list MeasuredSample)
    (assignments : list (string * list PeakAssignment.Assignment)) (rmsd : R) :
  let deviationCheck := checkDeviations conditions nominalConditions in
  let extrapolationCheck := checkExtrapolation conditions samples in
  let residualCheck := validateResiduals assignments rmsd 2 in
  (let warnings := [] in
   let warnings :=
     if hasDeviations deviationCheck
     then warnings ++ map (fun d => DeviationWarning (dv_message d))
                          (deviations deviationCheck)
     else warnings in
   let warnings :=
     if hasWarnings extrapolationCheck
     then fold_left
            (fun warnings warning =>
               warnings ++ map ExtrapolationWarning (sw_warnings warning))
            (ec_warnings extrapolationCheck) warnings
     else warnings in
   if hasOutliers residualCheck
   then fold_left
          (fun warnings outlier =>
             warnings ++ [OutlierWarning (o_buffer_name outlier)
                                         (o_resonance_id outlier) (zScore outlier)])
          (outliers residualCheck) warnings
   else warnings)
  = map (fun d => DeviationWarning (dv_message d)) (deviations deviationCheck)
    ++ flat_map (fun warning => map ExtrapolationWarning (sw_warnings warning))
                (ec_warnings extrapolationCheck)
    ++ map (fun outlier =>
              OutlierWarning (o_buffer_name outlier) (o_resonance_id outlier)
                (zScore outlier))
           (outliers residualCheck).
Proof.
  intros deviationCheck extrapolationCheck residualCheck. cbv zeta.
  assert (Hd : hasDeviations deviationCheck
               = (0 <? length (deviations deviationCheck))%nat) by reflexivity.
  assert (He : hasWarnings extrapolationCheck
               = (0 <? length (ec_warnings extrapolationCheck))%nat) by reflexivity.
  assert (Ho : hasOutliers residualCheck
               = (0 <? length (outliers residualCheck))%nat) by reflexivity.
  assert (Hflat : forall l : list Outlier,
            flat_map (fun outlier =>
                        [OutlierWarning (o_buffer_name outlier) (o_resonance_id outlier)
                           (zScore outlier)]) l
            = map (fun outlier =>
                     OutlierWarning (o_buffer_name outlier) (o_resonance_id outlier)
                       (zScore outlier)) l).
  { induction l as [|o l IH]; simpl; [done | by rewrite IH]. }
  generalize dependent (deviations deviationCheck). intros ds Hd.
  generalize dependent (ec_warnings extrapolationCheck). intros es He.
  generalize dependent (outliers residualCheck). intros os Ho.
  rewrite Hd, He, Ho.
  destruct ds as [|d ds], es as [|e es], os as [|o os]; simpl;
    rewrite ?fold_left_app_flat_map, ?Hflat, ?app_nil_r, <- ?app_assoc; simpl;
    rewrite ?app_nil_r, <- ?app_assoc; done.
Qed.

(** X27.  The report of [validateFitResult] on a failed fit is not
    valid, carries the error of the fit and has neither warnings nor
    issues.  On a successful fit its issues are those of
    [validateParameters] and it is valid exactly when the fitted
    parameters are within their physical ranges; its warnings are the
    messages of the deviations, the extrapolation warnings of the samples
    and one warning for each outlier at a z-score above 2, in this
    order, and no warning makes it invalid. *)
Theorem validateFitResult_report (result : FitResult)
    (nominalConditions : NominalConditions) (samples : list MeasuredSample) :
  let report := validateFitResult result nominalConditions samples in
  match result with
  | Failed failure =>
    vr_valid report = false /\ vr_error report = Some (error failure)
    /\ vr_warnings report = [] /\ vr_issues report = []
  | Succeeded fit =>
    vr_error report = None
    /\ vr_issues report = pc_issues (validateParameters (parameters fit))
    /\ (vr_valid report = true <-> withinPhysicalRanges (parameters fit))
    /\ vr_warnings report
       = map (fun d => DeviationWarning (dv_message d))
             (deviations (checkDeviations (conditions fit) nominalConditions))
         ++ flat_map (fun warning => map ExtrapolationWarning (sw_warnings warning))
                     (ec_warnings (checkExtrapolation (conditions fit) samples))
         ++ map (fun outlier =>
                   OutlierWarning (o_buffer_name outlier) (o_resonance_id outlier)
                     (zScore outlier))
                (outliers (validateResiduals (assignments fit)
                             (rmsd (statistics fit)) 2))
  end.
Proof.
  destruct result as [failure | fit]; [done|].
  unfold validateFitResult. cbv zeta.
  cbn [vr_error vr_issues vr_valid vr_warnings].
  pose proof (validateParameters_valid (parameters fit)) as Hvalid.
  assert (Hissues : pc_valid (validateParameters (parameters fit))
                    = (length (pc_issues (validateParameters (parameters fit))) =? 0)%nat)
    by reflexivity.
  revert Hvalid Hissues.
  generalize (validateParameters (parameters fit)). intros check Hvalid Hissues.
  split; [done|].
  rewrite validateFitResult_warnings.
  destruct (pc_valid check) eqn:Epc; cbn [negb].
  - symmetry in Hissues. apply Nat.eqb_eq in Hissues.
    destruct (pc_issues check) as [|? ?]; [|discriminate Hissues].
    split; [done|]. split; [by rewrite <- Hvalid | done].
  - rewrite app_nil_l. split; [done|]. split; [|done].
    by rewrite <- Hvalid, <- Hissues.
Qed.

End ValidationReports.

(** ** validation.js: the checks *)
Section Checks.
Import Fitting Validation.

Lemma rangeWarnings_none quantity value range :
  rangeWarnings quantity value range = [] <-> withinRange value range.
Proof.
  unfold rangeWarnings, withinRange. destruct range as [r|]; [|done].
  destruct (Rltb value (min r)) eqn:E1;
    [apply Rltb_true in E1 | apply Rltb_false in E1].
  { split; [discriminate | lra]. }
  destruct (Rltb (max r) value) eqn:E2;
    [apply Rltb_true in E2 | apply Rltb_false in E2].
  { split; [discriminate | lra]. }
  split; [lra | done].
Qed.

Lemma rangeWarnings_at_most_one quantity value range :
  (length (rangeWarnings quantity value range) <= 1)%nat.
Proof.
  unfold rangeWarnings. destruct range as [r|]; [|simpl; lia].
  destruct (Rltb value (min r)); [simpl; lia|].
  destruct (Rltb (max r) value); simpl; lia.
Qed.

Lemma checkExtrapolation_warnings conditions samples :
  ec_warnings (checkExtrapolation conditions samples)
  = flat_map (sampleWarningsOf conditions) samples.
Proof.
  unfold checkExtrapolation. cbv zeta. cbn [ec_warnings].
  rewrite <- (app_nil_l (flat_map _ _)).
  set (step := fun (warnings : list SampleWarnings) (sample : MeasuredSample) => _).
  assert (Hstep : forall warnings sample,
            step warnings sample = warnings ++ sampleWarningsOf conditions sample).
  { intros warnings sample. unfold step, sampleWarningsOf.
    destruct (measurement_ranges sample) as [ranges|]; [|by rewrite app_nil_r].
    cbv zeta. destruct (0 <? _)%nat; [done | by rewrite app_nil_r]. }
  clearbody step. generalize (@nil SampleWarnings).
  induction samples as [|sample samples IH]; intros acc; simpl.
  - by rewrite app_nil_r.
  - by rewrite IH, Hstep, <- app_assoc.
Qed.

Lemma sampleWarningsOf_none conditions sample :
  sampleWarningsOf conditions sample = [] <-> withinMeasuredRanges conditions sample.
Proof.
  unfold sampleWarningsOf, withinMeasuredRanges.
  destruct (measurement_ranges sample) as [ranges|]; [|done]. cbv zeta.
  rewrite <- (rangeWarnings_none QuantityPH (pH conditions)),
          <- (rangeWarnings_none QuantityTemperature (temperature conditions)),
          <- (rangeWarnings_none QuantityIonicStrength (ionicStrength conditions)).
  destruct (rangeWarnings QuantityPH _ _),
           (rangeWarnings QuantityTemperature _ _),
           (rangeWarnings QuantityIonicStrength _ _); simpl;
    split; try done; try discriminate; intros (? & ? & ?); discriminate.
Qed.

(** X28.  [checkExtrapolation] has no warning exactly when the
    conditions are within every range that every sample gives.  Each
    entry of its warnings names a sample whose ranges the conditions are
    outside of, and has between one and three warnings: at most one for
    the pH, the temperature and the ionic strength each. *)
Theorem checkExtrapolation_warns_outside_ranges (conditions : Conditions)
    (samples : list MeasuredSample) :
  let check := checkExtrapolation conditions samples in
  (hasWarnings check = false <-> Forall (withinMeasuredRanges conditions) samples)
  /\ Forall (fun warning =>
               (1 <= length (sw_warnings warning) <= 3)%nat
               /\ exists sample,
                    sample ∈ samples
                    /\ sw_sample_id warning = ms_sample_id sample
                    /\ ~ withinMeasuredRanges conditions sample)
            (ec_warnings check).
Proof.
  intros check.
  assert (Hhas : hasWarnings check = (0 <? length (ec_warnings check))%nat)
    by reflexivity.
  subst check. rewrite Hhas, checkExtrapolation_warnings. clear Hhas.
  split.
  - induction samples as [|sample samples IH]; simpl.
    { split; [constructor | done]. }
    rewrite Forall_cons, <- IH, <- sampleWarningsOf_none.
    destruct (sampleWarningsOf conditions sample); simpl; split; try done.
    + intros [_ H]. done.
    + intros [H _]. done.
  - apply Forall_flat_map, Forall_forall. intros sample Hsample.
    pose proof (sampleWarningsOf_none conditions sample) as Hnone.
    unfold sampleWarningsOf in *.
    destruct (measurement_ranges sample) as [ranges|]; [|constructor]. cbv zeta in *.
    destruct (0 <? _)%nat eqn:E; [|constructor].
    apply Nat.ltb_lt in E. constructor; [|constructor]. simpl. split.
    + rewrite !length_app in *.
      pose proof (rangeWarnings_at_most_one QuantityPH (pH conditions) (range_pH ranges)).
      pose proof (rangeWarnings_at_most_one QuantityTemperature (temperature conditions)
                    (range_temperature_K ranges)).
      pose proof (rangeWarnings_at_most_one QuantityIonicStrength
                    (ionicStrength conditions) (range_ionic_strength_M ranges)).
      lia.
    + exists sample. split; [done|]. split; [done|].
      intros Hin. apply Hnone in Hin. discriminate Hin.
Qed.

End Checks.

(** ** validation.js: residuals and deviations *)
Section ResidualsAndDeviations.
Import Fitting Validation.

Lemma Rsum_snoc (rs : list R) (r : R) : Rsum (rs ++ [r]) = Rsum rs + r.
Proof.
  unfold Rsum. induction rs as [|r' rs IH]; simpl; [lra|]. rewrite IH. lra.
Qed.

Lemma Rsum_between (rs : list R) (lo hi : R) :
  Forall (fun r => lo <= r <= hi) rs ->
  INR (length rs) * lo <= Rsum rs <= INR (length rs) * hi.
Proof.
  induction 1 as [|r rs Hr Hrs IH].
  - unfold Rsum. simpl. lra.
  - change (Rsum (r :: rs)) with (r + Rsum rs).
    change (length (r :: rs)) with (S (length rs)). rewrite S_INR. lra.
Qed.

Lemma summarises_step (rs : list R) (stats : ResidualStatistics) (r : R) :
  summarises rs stats ->
  summarises (rs ++ [r])
    {| rs_count := S (rs_count stats);
       rs_mean := rs_mean stats + r;
       rs_min := Some (match rs_min stats with
                       | None => r
                       | Some m => Rmin m r
                       end);
       rs_max := Some (match rs_max stats with
                       | None => r
                       | Some m => Rmax m r
                       end) |}.
Proof.
  intros (Hcount & Hsum & Hrange). unfold summarises. simpl.
  rewrite Hcount, Hsum, length_app, Rsum_snoc. simpl.
  split; [lia|]. split; [done|].
  destruct rs as [|r0 rs]; simpl.
  - destruct Hrange as [-> ->]. exists r, r.
    repeat split; try done; try (repeat constructor; lra); left.
  - destruct Hrange as (lo & hi & -> & -> & Hall & Hlo & Hhi).
    exists (Rmin lo r), (Rmax hi r). split; [done|]. split; [done|].
    pose proof (Rmin_l lo r). pose proof (Rmin_r lo r).
    pose proof (Rmax_l hi r). pose proof (Rmax_r hi r).
    split; [|split].
    + change (r0 :: rs ++ [r]) with ((r0 :: rs) ++ [r]).
      apply Forall_app. split.
      * eapply Forall_impl; [exact Hall|]. simpl. intros; lra.
      * constructor; [lra | constructor].
    + change (r0 :: rs ++ [r]) with ((r0 :: rs) ++ [r]). rewrite elem_of_app.
      unfold Rmin. destruct (Rle_dec lo r); [by left | right; left].
    + change (r0 :: rs ++ [r]) with ((r0 :: rs) ++ [r]). rewrite elem_of_app.
      unfold Rmax. destruct (Rle_dec hi r); [right; left | by left].
Qed.

(** X29.  Over the reals: [validateResiduals] takes the assigned peaks
    that have a residual.  Its statistics count them, and when there is
    one give their least and greatest residual, both among the residuals,
    and their mean, which in exact arithmetic lies between the two (a
    rounded sum can put it past them in the last digit).  An outlier is a
    residual
    whose absolute value is above [threshold] times a positive [rmsd],
    with the quotient as z-score; with an [rmsd] that is not positive
    there is no outlier. *)
Theorem validateResiduals_statistics
    (assignments : list (string * list PeakAssignment.Assignment))
    (rmsd threshold : R) :
  let check := validateResiduals assignments rmsd threshold in
  let rs := residualsOf assignments in
  rs_count (rc_statistics check) = length rs
  /\ match rs with
     | [] =>
       rs_min (rc_statistics check) = None /\ rs_max (rc_statistics check) = None
       /\ rs_mean (rc_statistics check) = 0
     | _ :: _ =>
       exists lo hi,
         rs_min (rc_statistics check) = Some lo
         /\ rs_max (rc_statistics check) = Some hi
         /\ lo ∈ rs /\ hi ∈ rs /\ Forall (fun r => lo <= r <= hi) rs
         /\ rs_mean (rc_statistics check) = Rsum rs / INR (length rs)
         /\ lo <= rs_mean (rc_statistics check) <= hi
     end
  /\ (rmsd <= 0 -> outliers check = [])
  /\ (hasOutliers check = true <->
      0 < rmsd /\ Exists (fun r => threshold * rmsd < Rabs r) rs)
  /\ Forall (fun outlier =>
               0 < rmsd
               /\ o_residual outlier ∈ rs
               /\ zScore outlier = Rabs (o_residual outlier) / rmsd
               /\ threshold * rmsd < Rabs (o_residual outlier))
            (outliers check).
Proof.
  intros check rs. subst check rs. unfold validateResiduals, residualsOf. cbv zeta.
  generalize (flatAssignmentsOf assignments). intros flat.
  cbn [rc_statistics outliers hasOutliers].
  assert (Hstats : summarises (map snd flat)
            (fold_left
               (fun stats '(_, _, r) =>
                  {| rs_count := S (rs_count stats);
                     rs_mean := rs_mean stats + r;
                     rs_min := Some (match rs_min stats with
                                     | None => r
                                     | Some m => Rmin m r
                                     end);
                     rs_max := Some (match rs_max stats with
                                     | None => r
                                     | Some m => Rmax m r
                                     end) |})
               flat
               {| rs_min := None; rs_max := None; rs_mean := 0; rs_count := O |})).
  { assert (Hgen : forall pre stats,
              summarises pre stats ->
              summarises (pre ++ map snd flat)
                (fold_left
                   (fun stats '(_, _, r) =>
                      {| rs_count := S (rs_count stats);
                         rs_mean := rs_mean stats + r;
                         rs_min := Some (match rs_min stats with
                                         | None => r
                                         | Some m => Rmin m r
                                         end);
                         rs_max := Some (match rs_max stats with
                                         | None => r
                                         | Some m => Rmax m r
                                         end) |})
                   flat stats)).
    { induction flat as [|[[nucleus a] r] flat IH]; intros pre stats Hpre; simpl.
      - by rewrite app_nil_r.
      - rewrite (cons_middle r pre (map snd flat)), app_assoc.
        apply IH. by apply summarises_step. }
    apply (Hgen [] _). repeat split. }
  revert Hstats.
  match goal with
  | |- summarises _ ?s -> _ => generalize s
  end.
  intros stats (Hcount & Hsum & Hrange).
  split.
  { destruct (0 <? rs_count stats)%nat; done. }
  split.
  { destruct (map snd flat) as [|r0 rs] eqn:Ers.
    - destruct Hrange as [Hmin Hmax]. simpl in Hcount. rewrite Hcount. simpl.
      repeat split; done.
    - destruct Hrange as (lo & hi & Hmin & Hmax & Hall & Hlo & Hhi).
      assert (Hn : 0 < INR (length (r0 :: rs))) by (apply lt_0_INR; simpl; lia).
      assert (Hlt : (0 <? rs_count stats)%nat = true)
        by (rewrite Hcount; reflexivity).
      rewrite Hlt. cbn [rs_min rs_max rs_mean rs_count]. rewrite Hsum, Hcount.
      pose proof (Rsum_between _ _ _ Hall) as [Hlow Hhigh].
      exists lo, hi. do 6 (split; [done|]). split.
      + apply Rmult_le_reg_l with (r := INR (length (r0 :: rs))); [done|].
        unfold Rdiv. rewrite <- Rmult_assoc, (Rmult_comm (INR _) (Rsum _)),
          Rmult_assoc, Rinv_r, Rmult_1_r by lra. done.
      + apply Rmult_le_reg_l with (r := INR (length (r0 :: rs))); [done|].
        unfold Rdiv. rewrite <- Rmult_assoc, (Rmult_comm (INR _) (Rsum _)),
          Rmult_assoc, Rinv_r, Rmult_1_r by lra. done. }
  clear stats Hcount Hsum Hrange.
  destruct (Rltb 0 rmsd) eqn:Ermsd;
    [apply Rltb_true in Ermsd | apply Rltb_false in Ermsd].
  - assert (Hz : forall r, Rltb threshold (Rabs r / rmsd) = true
                           <-> threshold * rmsd < Rabs r).
    { intros r. rewrite Rltb_true. split; intros H.
      - apply (Rmult_lt_compat_r rmsd) in H; [|done].
        unfold Rdiv in H. rewrite Rmult_assoc, Rinv_l, Rmult_1_r in H by lra. done.
      - apply (Rmult_lt_reg_r rmsd); [done|].
        unfold Rdiv. rewrite Rmult_assoc, Rinv_l, Rmult_1_r by lra. done. }
    split; [intros; lra|]. split.
    + induction flat as [|[[nucleus a] r] flat IH]; simpl.
      { split; [discriminate|]. intros [_ H]. by apply Exists_nil in H. }
      rewrite Exists_cons. cbv zeta.
      destruct (Rltb threshold (Rabs r / rmsd)) eqn:E; simpl.
      * apply Hz in E. split; [auto | done].
      * assert (~ threshold * rmsd < Rabs r)
          by (intros H; apply Hz in H; congruence).
        rewrite IH. tauto.
    + induction flat as [|[[nucleus a] r] flat IH]; simpl; [constructor|].
      cbv zeta. destruct (Rltb threshold (Rabs r / rmsd)) eqn:E; simpl.
      * apply Hz in E. constructor.
        -- simpl. repeat split; try done. left.
        -- eapply Forall_impl; [exact IH|]. simpl.
           intros o (H1 & H2 & H3 & H4). repeat split; try done. by right.
      * eapply Forall_impl; [exact IH|]. simpl.
        intros o (H1 & H2 & H3 & H4). repeat split; try done. by right.
  - split; [done|]. split; [|constructor].
    simpl. split; [discriminate | intros [H _]; lra].
Qed.

Lemma validateResiduals_statistics_witness :
  outliers (validateResiduals [("1H"%string, [peakCH3; peakCH2])] 0 2) = [].
Proof.
  apply (validateResiduals_statistics [("1H"%string, [peakCH3; peakCH2])] 0 2).
  lra.
Defined.

(** X30.  [checkDeviations] reports the temperature when the nominal
    and the fitted temperature are both given and not zero and differ by
    more than 2 K, and the ionic strength when a nominal one is given
    and differs from the fitted one by more than 0.05 M; a nominal
    temperature of zero is never compared.  It has a deviation exactly
    when one of the two holds, the temperature first. *)
Theorem checkDeviations_thresholds (fitted : Conditions) (nominal : NominalConditions) :
  let check := checkDeviations fitted nominal in
  let temperatureDeviates :=
    exists nominalT,
      nominal_temperature nominal = Some nominalT /\ nominalT <> 0
      /\ temperature fitted <> 0 /\ 2 < Rabs (temperature fitted - nominalT) in
  let ionicStrengthDeviates :=
    exists nominalI,
      nominal_ionicStrength nominal = Some nominalI
      /\ 0.05 < Rabs (ionicStrength fitted - nominalI) in
  (hasDeviations check = true <-> temperatureDeviates \/ ionicStrengthDeviates)
  /\ (temperatureDeviates <->
      exists d, d ∈ deviations check /\ dv_parameter d = "temperature"%string
                /\ dv_fitted d = temperature fitted
                /\ Some (dv_nominal d) = nominal_temperature nominal
                /\ difference d = Rabs (dv_fitted d - dv_nominal d))
  /\ (ionicStrengthDeviates <->
      exists d, d ∈ deviations check /\ dv_parameter d = "ionicStrength"%string
                /\ dv_fitted d = ionicStrength fitted
                /\ Some (dv_nominal d) = nominal_ionicStrength nominal
                /\ difference d = Rabs (dv_fitted d - dv_nominal d))
  /\ (length (deviations check) <= 2)%nat.
Proof.
  intros check temperatureDeviates ionicStrengthDeviates.
  subst check temperatureDeviates ionicStrengthDeviates.
  unfold checkDeviations, truthy. cbv zeta.
  cbn [hasDeviations deviations].
  destruct (nominal_temperature nominal) as [nominalT|];
    destruct (nominal_ionicStrength nominal) as [nominalI|];
    repeat match goal with
    | |- context [Reqb ?a ?b] =>
        let E := fresh "E" in
        destruct (Reqb a b) eqn:E;
        [apply Reqb_true in E | apply Reqb_false in E]
    | |- context [Rltb ?a ?b] =>
        let E := fresh "E" in
        destruct (Rltb a b) eqn:E;
        [apply Rltb_true in E | apply Rltb_false in E]
    end; simpl;
    (split; [|split; [|split; [|lia]]]);
    (split;
     [ try discriminate;
       try (intros [(? & [= <-] & ? & ? & ?) | (? & [= <-] & ?)]);
       try (intros (? & [= <-] & ? & ? & ?));
       try (intros (? & [= <-] & ?));
       try (intros _);
       try lra; try done;
       try (by left; eexists; repeat split; try done);
       try (by right; eexists; repeat split; try done);
       try (eexists; split; [left|]; by repeat split);
       try (eexists; split; [right; left|]; by repeat split)
     | try (intros (d & Hd & Hp & Hf & Hn & Hdiff));
       try (intros [(? & [= <-] & ? & ? & ?) | (? & [= <-] & ?)]);
       try done; try lra;
       repeat (apply elem_of_cons in Hd as [-> | Hd]); try (by apply elem_of_nil in Hd);
       try discriminate;
       try (eexists; repeat split; try done; lra) ]).
Qed.

End ResidualsAndDeviations.
